(** * A federated query engine over a graph store and a relational store

    Shallow embedding of [implementations/models.py],
    [implementations/handlers.py], [implementations/query_handlers.py],
    [implementations/query_engines.py] and the classification part of
    [implementations/upload_handlers.py], followed by the properties
    established about them.

    Conventions of the embedding:
    - Python [str] is [string]; a [Set[str]] is a [gset string]; a [dict]
      whose iteration order is observable ([journal_map], [filtered]) is an
      association list kept in insertion order;
    - a pandas row is a finite map from column labels to cells, a data frame
      is the list of its rows, indexed from 0 as [RangeIndex] does;
    - code that talks to a store runs in the monad [M], which records every
      round trip in a trace and carries Python exceptions. *)

From Stdlib Require Import ZArith Ascii String.
From stdpp Require Import base option list strings pretty gmap sets sorting.

Set Default Proof Using "Type".
Set Warnings "-clear-no-such-hyp".

(** ** Python string helpers *)

Module Py.

(** Code points below 128 for which [str.isspace] holds. *)
Definition is_space (a : ascii) : bool :=
  match a with
  | "009" | "010" | "011" | "012" | "013"
  | "028" | "029" | "030" | "031" | " " => true
  | _ => false
  end%char.

Fixpoint lstrip (s : string) : string :=
  match s with
  | EmptyString => EmptyString
  | String a s' => if is_space a then lstrip s' else s
  end.

Definition rstrip (s : string) : string :=
  String.rev (lstrip (String.rev s)).

(** [str.strip()] *)
Definition strip (s : string) : string := rstrip (lstrip s).

Definition lower_char (a : ascii) : ascii :=
  let n := nat_of_ascii a in
  if (65 <=? n) && (n <=? 90) then ascii_of_nat (n + 32) else a.

(** [str.lower()] on the ASCII range. *)
Fixpoint lower (s : string) : string :=
  match s with
  | EmptyString => EmptyString
  | String a s' => String (lower_char a) (lower s')
  end.

(** Truth value of a [str]: non-empty. *)
Definition truthy (s : string) : bool := bool_decide (s ≠ ""%string).

(** [s1 in s2] for strings (substring test). *)
Definition contains (s1 s2 : string) : bool :=
  match String.index 0 s1 s2 with Some _ => true | None => false end.

(** [s.replace(old, new)] for a one-character [old]. *)
Fixpoint replace (old : ascii) (new : string) (s : string) : string :=
  match s with
  | EmptyString => EmptyString
  | String a s' =>
      if bool_decide (a = old) then new +:+ replace old new s'
      else String a (replace old new s')
  end.

End Py.

(** ** Cells, rows and data frames *)

(** A cell of a frame: a missing value ([None] from SQL [NULL], [nan] for a
    column some binding lacks), a text, or a boolean. *)
Inductive value : Type :=
  | VNone
  | VNaN
  | VStr (s : string)
  | VBool (b : bool).

Global Instance value_eq_dec : EqDecision value.
Proof. solve_decision. Defined.

(** [str(value)] *)
Definition py_str (v : value) : string :=
  match v with
  | VNone => "None"
  | VNaN => "nan"
  | VStr s => s
  | VBool true => "True"
  | VBool false => "False"
  end.

(** A row ([pandas.Series]): column label to cell. *)
Abbreviation Row := (gmap string value).

(** [label in row] *)
Definition row_has (row : Row) (c : string) : bool :=
  bool_decide (is_Some (row !! c)).

(** [row.get(label)] *)
Definition row_get (row : Row) (c : string) : value :=
  default VNone (row !! c).

Abbreviation DataFrame := (list Row).

(** [df.empty] *)
Definition df_empty (df : DataFrame) : bool :=
  match df with [] => true | _ :: _ => false end.

(** ** models.py *)

(** [IdentifiableEntity]: what the three entity classes inherit. *)
Class IdentifiableEntity (E : Type) : Type := {
  new_entity : E;                       (* the constructor *)
  ids_of : E → list string;             (* [self._ids] *)
  with_ids : list string → E → E;       (* [self._ids = ...] *)
  ids_new : ids_of new_entity = [];
  ids_with_ids : ∀ l e, ids_of (with_ids l e) = l
}.

Section identifiable.
Context `{IdentifiableEntity E}.

Definition getIds (self : E) : list string := ids_of self.

Definition addId (entity_id : string) (self : E) : E :=
  if Py.truthy entity_id && bool_decide (entity_id ∉ ids_of self)
  then with_ids (ids_of self ++ [entity_id]) self
  else self.

Definition setId (entity_id : string) (self : E) : E :=
  with_ids (if Py.truthy entity_id then [entity_id] else []) self.
End identifiable.

Module Category.
Record t : Type := mk {
  _ids : list string;
  _quartile : option string
}.
(** [Category()] *)
Definition new : t := {| _ids := []; _quartile := None |}.
Definition getQuartile (self : t) : option string := _quartile self.
Definition setQuartile (quartile : option string) (self : t) : t :=
  {| _ids := _ids self; _quartile := quartile |}.
Global Instance eq_dec : EqDecision t.
Proof. solve_decision. Defined.
End Category.

Module Area.
Record t : Type := mk { _ids : list string }.
(** [Area()] *)
Definition new : t := {| _ids := [] |}.
Global Instance eq_dec : EqDecision t.
Proof. solve_decision. Defined.
End Area.

Module Journal.
Record t : Type := mk {
  _ids : list string;
  _title : string;
  _languages : list string;
  _publisher : option string;
  _seal : bool;
  _licence : string;
  _apc : bool;
  _categories : list Category.t;
  _areas : list Area.t
}.
(** [Journal()] *)
Definition new : t :=
  {| _ids := []; _title := ""; _languages := []; _publisher := None;
     _seal := false; _licence := ""; _apc := false;
     _categories := []; _areas := [] |}.

Definition getTitle (self : t) : string := _title self.
Definition getLanguages (self : t) : list string := _languages self.
Definition getPublisher (self : t) : option string := _publisher self.
Definition hasDOASeal (self : t) : bool := _seal self.
Definition getLicence (self : t) : string := _licence self.
Definition hasAPC (self : t) : bool := _apc self.
Definition getCategories (self : t) : list Category.t := _categories self.
Definition getAreas (self : t) : list Area.t := _areas self.

Definition setTitle (title : string) (self : t) : t :=
  mk (_ids self) title (_languages self) (_publisher self) (_seal self)
     (_licence self) (_apc self) (_categories self) (_areas self).
Definition setLanguages (languages : list string) (self : t) : t :=
  mk (_ids self) (_title self) languages (_publisher self) (_seal self)
     (_licence self) (_apc self) (_categories self) (_areas self).
Definition setPublisher (publisher : option string) (self : t) : t :=
  mk (_ids self) (_title self) (_languages self) publisher (_seal self)
     (_licence self) (_apc self) (_categories self) (_areas self).
Definition setSeal (seal : bool) (self : t) : t :=
  mk (_ids self) (_title self) (_languages self) (_publisher self) seal
     (_licence self) (_apc self) (_categories self) (_areas self).
Definition setLicence (licence : string) (self : t) : t :=
  mk (_ids self) (_title self) (_languages self) (_publisher self)
     (_seal self) licence (_apc self) (_categories self) (_areas self).
Definition setAPC (apc : bool) (self : t) : t :=
  mk (_ids self) (_title self) (_languages self) (_publisher self)
     (_seal self) (_licence self) apc (_categories self) (_areas self).
Global Instance eq_dec : EqDecision t.
Proof. solve_decision. Defined.
End Journal.

Global Instance Journal_identifiable : IdentifiableEntity Journal.t := {|
  new_entity := Journal.new;
  ids_of := Journal._ids;
  with_ids l self :=
    Journal.mk l (Journal._title self) (Journal._languages self)
      (Journal._publisher self) (Journal._seal self) (Journal._licence self)
      (Journal._apc self) (Journal._categories self) (Journal._areas self);
  ids_new := eq_refl;
  ids_with_ids _ _ := eq_refl
|}.

Global Instance Category_identifiable : IdentifiableEntity Category.t := {|
  new_entity := Category.new;
  ids_of := Category._ids;
  with_ids l self := Category.mk l (Category._quartile self);
  ids_new := eq_refl;
  ids_with_ids _ _ := eq_refl
|}.

Global Instance Area_identifiable : IdentifiableEntity Area.t := {|
  new_entity := Area.new;
  ids_of := Area._ids;
  with_ids l _ := Area.mk l;
  ids_new := eq_refl;
  ids_with_ids _ _ := eq_refl
|}.

(** What [getEntityById] can hand back. *)
Inductive entity : Type :=
  | EJournal (j : Journal.t)
  | ECategory (c : Category.t)
  | EArea (a : Area.t).

(** ** Insertion-ordered dictionaries

    [dict] keeps its keys in insertion order and [list(d.values())]
    exposes that order, so the merge maps are association lists with at most
    one entry per key. *)

Section odict.
Context {V : Type}.

(** [d.get(k)]; [k in d] is [is_Some (od_get k d)]. *)
Fixpoint od_get (k : string) (d : list (string * V)) : option V :=
  match d with
  | [] => None
  | (k', v) :: d' => if decide (k' = k) then Some v else od_get k d'
  end.

(** [d[k] = v]: an existing key keeps its position, a new key goes last. *)
Fixpoint od_set (k : string) (v : V) (d : list (string * V))
    : list (string * V) :=
  match d with
  | [] => [(k, v)]
  | (k', v') :: d' =>
      if decide (k' = k) then (k, v) :: d' else (k', v') :: od_set k v d'
  end.

(** [list(d.values())] *)
Definition od_values (d : list (string * V)) : list V := d.*2.

(** [list(d.keys())] *)
Definition od_keys (d : list (string * V)) : list string := d.*1.
End odict.

(** ** Sorting

    A stable insertion sort stands for Python's [sorted] and for the
    [ORDER BY] of the two stores. *)

Section sorting.
Context {A : Type} (le : A → A → bool).

Fixpoint insert_sorted (x : A) (l : list A) : list A :=
  match l with
  | [] => [x]
  | y :: l' => if le x y then x :: l else y :: insert_sorted x l'
  end.

Definition sorted_by (l : list A) : list A := foldr insert_sorted [] l.
End sorting.

(** [sorted(xs)] on strings. *)
Definition py_sorted (l : list string) : list string :=
  sorted_by String.leb l.

(** ** Row conversion helpers of [BasicQueryEngine] *)

Definition _has_value (v : value) : bool :=
  match v with
  | VNone => false
  | VNaN => false
  | VStr s => Py.truthy (Py.strip s)
  | VBool _ => true
  end.

Definition _to_bool (v : value) : bool :=
  match v with
  | VBool b => b
  | VStr s =>
      bool_decide (Py.lower (Py.strip s) ∈ ["1"; "true"; "yes"]%string)
  | VNone => false
  | VNaN => true
  end.

(** [str(value).strip()] *)
Definition str_strip (v : value) : string := Py.strip (py_str v).

(** [f"__row_{idx}"] *)
Definition synthetic_key (idx : nat) : string := "__row_" +:+ pretty idx.

(** The loop of [_get_journal_key] over its candidate columns. *)
Fixpoint first_candidate (row : Row) (candidates : list string)
    : option string :=
  match candidates with
  | [] => None
  | candidate :: rest =>
      if row_has row candidate && _has_value (row_get row candidate)
      then Some (str_strip (row_get row candidate))
      else first_candidate row rest
  end.

Definition _get_journal_key (row : Row) (idx : nat) : string :=
  default (synthetic_key idx)
    (first_candidate row ["issn"; "eissn"; "journal"]%string).

(** [not journal.getPublisher()] and the like on an optional text. *)
Definition opt_truthy (o : option string) : bool :=
  match o with Some s => Py.truthy s | None => false end.

(** [_update_journal_from_row] is six [if] statements in a row, each of
    which touches one attribute; they are named here in source order. *)

Definition merge_title (journal : Journal.t) (row : Row) : Journal.t :=
  if _has_value (row_get row "title")
     && negb (Py.truthy (Journal.getTitle journal))
  then Journal.setTitle (str_strip (row_get row "title")) journal
  else journal.

Definition merge_language (journal : Journal.t) (row : Row) : Journal.t :=
  let language := row_get row "language" in
  if _has_value language then
    let languages := Journal.getLanguages journal in
    let lang_value := str_strip language in
    if bool_decide (lang_value ∉ languages)
    then Journal.setLanguages (languages ++ [lang_value]) journal
    else journal
  else journal.

Definition merge_publisher (journal : Journal.t) (row : Row) : Journal.t :=
  if _has_value (row_get row "publisher")
     && negb (opt_truthy (Journal.getPublisher journal))
  then Journal.setPublisher (Some (str_strip (row_get row "publisher")))
         journal
  else journal.

Definition merge_seal (journal : Journal.t) (row : Row) : Journal.t :=
  let seal_value := row_get row "seal" in
  if _has_value seal_value
  then Journal.setSeal (_to_bool seal_value) journal
  else journal.

Definition merge_licence (journal : Journal.t) (row : Row) : Journal.t :=
  let licence_value := row_get row "licence" in
  if _has_value licence_value
     && negb (Py.truthy (Journal.getLicence journal))
  then Journal.setLicence (str_strip licence_value) journal
  else journal.

Definition merge_apc (journal : Journal.t) (row : Row) : Journal.t :=
  let apc_value := row_get row "apc" in
  if _has_value apc_value
  then Journal.setAPC (_to_bool apc_value) journal
  else journal.

Definition _update_journal_from_row (journal : Journal.t) (row : Row)
    : Journal.t :=
  let journal := merge_title journal row in
  let journal := merge_language journal row in
  let journal := merge_publisher journal row in
  let journal := merge_seal journal row in
  let journal := merge_licence journal row in
  merge_apc journal row.

(** Conversion never fails on the cells of [value]; the [option] is the
    [Optional[Journal]] of the source. *)
Definition _dataframe_to_journal (row : Row) : option Journal.t :=
  let journal := Journal.new in
  let issn := if row_has row "issn" then row_get row "issn" else VNone in
  let issn :=
    if negb (_has_value issn)
    then (if row_has row "eissn" then row_get row "eissn" else VNone)
    else issn in
  let journal :=
    if _has_value issn then setId (str_strip issn) journal else journal in
  let title_value := row_get row "title" in
  let journal :=
    Journal.setTitle
      (if _has_value title_value then str_strip title_value else "") journal in
  let language_value :=
    if row_has row "language" then row_get row "language" else VNone in
  let languages :=
    if _has_value language_value then [str_strip language_value] else [] in
  let journal := Journal.setLanguages languages journal in
  let publisher_value := row_get row "publisher" in
  let journal :=
    Journal.setPublisher
      (if _has_value publisher_value then Some (str_strip publisher_value)
       else None) journal in
  let seal_value := row_get row "seal" in
  let journal :=
    Journal.setSeal
      (if _has_value seal_value then _to_bool seal_value else false)
      journal in
  let licence_value := row_get row "licence" in
  let journal :=
    Journal.setLicence
      (if _has_value licence_value then str_strip licence_value else "")
      journal in
  let apc_value := row_get row "apc" in
  let journal :=
    Journal.setAPC
      (if _has_value apc_value then _to_bool apc_value else false) journal in
  Some journal.

Definition _dataframe_to_category (row : Row) : option Category.t :=
  let category := Category.new in
  let identifier := row_get row "id" in
  let category :=
    setId (if _has_value identifier then str_strip identifier else "")
      category in
  let quartile := row_get row "quartile" in
  let category :=
    Category.setQuartile
      (if _has_value quartile then Some (str_strip quartile) else None)
      category in
  Some category.

Definition _dataframe_to_area (row : Row) : option Area.t :=
  let area := Area.new in
  let identifier := row_get row "id" in
  Some
    (setId (if _has_value identifier then str_strip identifier else "") area).

(** ** The three merge loops *)

(** One iteration of the loop of [_collect_journals]. *)
Definition collect_journal_row (row : Row) (idx : nat)
    (target : list (string * Journal.t)) : list (string * Journal.t) :=
  let key := _get_journal_key row idx in
  if negb (Py.truthy key) then target
  else
    match od_get key target with
    | Some existing =>
        od_set key (_update_journal_from_row existing row) target
    | None =>
        match _dataframe_to_journal row with
        | Some journal => od_set key journal target
        | None => target
        end
    end.

(** [for idx, row in df.iterrows()], from index [idx] on. *)
Fixpoint collect_journals_from (idx : nat) (rows : DataFrame)
    (target : list (string * Journal.t)) : list (string * Journal.t) :=
  match rows with
  | [] => target
  | row :: rest =>
      collect_journals_from (S idx) rest (collect_journal_row row idx target)
  end.

Definition _collect_journals (df : DataFrame)
    (target : list (string * Journal.t)) : list (string * Journal.t) :=
  if df_empty df then target else collect_journals_from 0 df target.

Definition collect_category_row (row : Row) (idx : nat)
    (target : list (string * Category.t)) : list (string * Category.t) :=
  match _dataframe_to_category row with
  | None => target
  | Some category =>
      let identifier :=
        match getIds category with
        | i :: _ => i
        | [] => synthetic_key idx
        end in
      match od_get identifier target with
      | Some existing =>
          if negb (opt_truthy (Category.getQuartile existing))
             && opt_truthy (Category.getQuartile category)
          then od_set identifier
                 (Category.setQuartile (Category.getQuartile category)
                    existing) target
          else target
      | None => od_set identifier category target
      end
  end.

Fixpoint collect_categories_from (idx : nat) (rows : DataFrame)
    (target : list (string * Category.t)) : list (string * Category.t) :=
  match rows with
  | [] => target
  | row :: rest =>
      collect_categories_from (S idx) rest
        (collect_category_row row idx target)
  end.

Definition _collect_categories (df : DataFrame)
    (target : list (string * Category.t)) : list (string * Category.t) :=
  if df_empty df then target else collect_categories_from 0 df target.

Definition collect_area_row (row : Row) (idx : nat)
    (target : list (string * Area.t)) : list (string * Area.t) :=
  match _dataframe_to_area row with
  | None => target
  | Some area =>
      let identifier :=
        match getIds area with
        | i :: _ => i
        | [] => synthetic_key idx
        end in
      match od_get identifier target with
      | Some _ => target
      | None => od_set identifier area target
      end
  end.

Fixpoint collect_areas_from (idx : nat) (rows : DataFrame)
    (target : list (string * Area.t)) : list (string * Area.t) :=
  match rows with
  | [] => target
  | row :: rest =>
      collect_areas_from (S idx) rest (collect_area_row row idx target)
  end.

Definition _collect_areas (df : DataFrame)
    (target : list (string * Area.t)) : list (string * Area.t) :=
  if df_empty df then target else collect_areas_from 0 df target.

(** The generator [_chunked]: [batch] is the batch being filled, the result
    is the list of the batches it yields. *)
Fixpoint chunked_go {A : Type} (items : list A) (size : nat)
    (batch : list A) : list (list A) :=
  match items with
  | [] => if bool_decide (batch = []) then [] else [batch]
  | item :: rest =>
      let batch := batch ++ [item] in
      if length batch =? size then batch :: chunked_go rest size []
      else chunked_go rest size batch
  end.

Definition _chunked {A : Type} (items : list A) (size : nat)
    : list (list A) :=
  chunked_go items size [].

(** ** The graph store behind [JournalQueryHandler]

    The store holds the triples the upload handler writes: one node per
    journal IRI, every property possibly multi-valued (one [doaj:language]
    triple per language). A query is kept as the graph pattern its text
    denotes; [eval] gives its solution sequence. *)

Module Graph.

Record node : Type := mk_node {
  journal : string;
  title : list string;
  issn : list string;
  eissn : list string;
  language : list string;
  publisher : list string;
  hasDOAJSeal : list string;
  licence : list string;
  hasAPC : list string
}.

(** A solution: the variables it binds, with their lexical values. *)
Abbreviation binding := (gmap string string).

Inductive query : Type :=
  | ById (entity_id : string)
  | ByIds (values : list string)
  | AllJournals
  | WithTitle (partialTitle : string)
  | PublishedBy (partialName : string)
  | WithLicense (licenses : list string)
  | WithAPC
  | WithDOAJSeal
  | ByIssns (values : list string).

Global Instance query_eq_dec : EqDecision query.
Proof. solve_decision. Defined.

(** [?journal doaj:p ?var .] *)
Definition required (var : string) (vals : list string) (b : binding)
    : list binding :=
  (λ v, <[var := v]> b) <$> vals.

(** [OPTIONAL { ?journal doaj:p ?var }] *)
Definition optional (var : string) (vals : list string) (b : binding)
    : list binding :=
  match vals with
  | [] => [b]
  | _ :: _ => required var vals b
  end.

(** [VALUES ?var { ... }], joined with the solutions found so far. *)
Definition values_table (var : string) (vals : list string) (b : binding)
    : list binding :=
  required var vals b.

(** [?x = "lit"] under [||]: an unbound variable makes the disjunct fail. *)
Definition bound_eq (b : binding) (var : string) (lit : string) : bool :=
  bool_decide (b !! var = Some lit).

(** [?x = ?y], both bound. *)
Definition vars_eq (b : binding) (x y : string) : bool :=
  match b !! x, b !! y with
  | Some u, Some v => bool_decide (u = v)
  | _, _ => false
  end.

(** [COALESCE(?issn, ?eissn)] *)
Definition anyId (b : binding) : option string :=
  match b !! "issn" with
  | Some v => Some v
  | None => b !! "eissn"
  end.

(** [?anyId IN (...)]: an unbound [?anyId] fails the filter. *)
Definition anyId_in (values : list string) (b : binding) : bool :=
  match anyId b with
  | Some v => bool_decide (v ∈ values)
  | None => false
  end.

(** [CONTAINS(LCASE(?var), LCASE("text"))] *)
Definition contains_lcase (b : binding) (var : string) (text : string)
    : bool :=
  match b !! var with
  | Some v => Py.contains (Py.lower text) (Py.lower v)
  | None => false
  end.

(** The [?journal rdf:type doaj:Journal] start of every pattern. *)
Definition start (n : node) : list binding :=
  [{[ "journal" := journal n ]}].

(** A group graph pattern: its triple patterns, joined left to right. *)
Definition pattern (steps : list (binding → list binding)) (n : node)
    : list binding :=
  foldl (λ sols step, sols ≫= step) (start n) steps.

(** The group graph pattern of each query on one node, filter applied. *)
Definition solutions (q : query) (n : node) : list binding :=
  match q with
  | ById entity_id =>
      filter (λ b, bound_eq b "issn" entity_id
                   || bound_eq b "eissn" entity_id)
        (pattern [optional "issn" (issn n);
                  optional "eissn" (eissn n);
                  optional "title" (title n);
                  optional "language" (language n);
                  optional "publisher" (publisher n);
                  optional "seal" (hasDOAJSeal n);
                  optional "licence" (licence n);
                  optional "apc" (hasAPC n)] n)
  | ByIds values =>
      filter (λ b, vars_eq b "issn" "wanted" || vars_eq b "eissn" "wanted")
        (pattern [optional "issn" (issn n);
                  optional "eissn" (eissn n);
                  values_table "wanted" values;
                  optional "title" (title n);
                  optional "language" (language n);
                  optional "publisher" (publisher n);
                  optional "seal" (hasDOAJSeal n);
                  optional "licence" (licence n);
                  optional "apc" (hasAPC n)] n)
  | AllJournals =>
      pattern [required "title" (title n);
               optional "issn" (issn n);
               optional "eissn" (eissn n);
               optional "language" (language n);
               optional "publisher" (publisher n);
               optional "seal" (hasDOAJSeal n);
               optional "licence" (licence n);
               optional "apc" (hasAPC n)] n
  | WithTitle partialTitle =>
      filter (λ b, contains_lcase b "title" partialTitle)
        (pattern [required "title" (title n);
                  optional "issn" (issn n);
                  optional "eissn" (eissn n);
                  optional "language" (language n);
                  optional "publisher" (publisher n);
                  optional "seal" (hasDOAJSeal n);
                  optional "licence" (licence n);
                  optional "apc" (hasAPC n)] n)
  | PublishedBy partialName =>
      filter (λ b, contains_lcase b "publisher" partialName)
        (pattern [required "title" (title n);
                  required "publisher" (publisher n);
                  optional "issn" (issn n);
                  optional "eissn" (eissn n);
                  optional "language" (language n);
                  optional "seal" (hasDOAJSeal n);
                  optional "licence" (licence n);
                  optional "apc" (hasAPC n)] n)
  | WithLicense licenses =>
      filter (λ b, existsb (bound_eq b "licence") licenses)
        (pattern [required "title" (title n);
                  required "licence" (licence n);
                  optional "issn" (issn n);
                  optional "eissn" (eissn n);
                  optional "language" (language n);
                  optional "publisher" (publisher n);
                  optional "seal" (hasDOAJSeal n);
                  optional "apc" (hasAPC n)] n)
  | WithAPC =>
      if bool_decide ("true"%string ∈ hasAPC n) then
        pattern [required "title" (title n);
                 optional "issn" (issn n);
                 optional "eissn" (eissn n);
                 optional "language" (language n);
                 optional "publisher" (publisher n);
                 optional "seal" (hasDOAJSeal n);
                 optional "licence" (licence n);
                 optional "apc" (hasAPC n)] n
      else []
  | WithDOAJSeal =>
      if bool_decide ("true"%string ∈ hasDOAJSeal n) then
        pattern [required "title" (title n);
                 optional "issn" (issn n);
                 optional "eissn" (eissn n);
                 optional "language" (language n);
                 optional "publisher" (publisher n);
                 optional "seal" (hasDOAJSeal n);
                 optional "licence" (licence n);
                 optional "apc" (hasAPC n)] n
      else []
  | ByIssns values =>
      filter (λ b, anyId_in values b)
        (pattern [required "title" (title n);
                  optional "issn" (issn n);
                  optional "eissn" (eissn n);
                  optional "language" (language n);
                  optional "publisher" (publisher n);
                  optional "seal" (hasDOAJSeal n);
                  optional "licence" (licence n);
                  optional "apc" (hasAPC n);
                  values_table "targetId" values] n)
  end.

(** [ORDER BY ?title]: unbound first, then by code point. *)
Definition title_leb (b1 b2 : binding) : bool :=
  match b1 !! "title", b2 !! "title" with
  | None, _ => true
  | Some _, None => false
  | Some t1, Some t2 => String.leb t1 t2
  end.

Definition ordered (q : query) : bool :=
  match q with
  | ById _ | ByIds _ => false
  | _ => true
  end.

(** The variables of the [SELECT] clause. *)
Definition selected : gset string :=
  list_to_set ["journal"; "title"; "issn"; "eissn"; "language";
               "publisher"; "seal"; "licence"; "apc"]%string.

Definition project (b : binding) : binding :=
  filter (λ kv, kv.1 ∈ selected) b.

(** The solution sequence of a query over a store. *)
Definition eval (store : list node) (q : query) : list binding :=
  let sols := store ≫= solutions q in
  let sols := if ordered q then sorted_by title_leb sols else sols in
  project <$> sols.

(** [pd.DataFrame(rows)]: the columns are the variables bound in some
    row; a row lacking one of them holds [nan] there. *)
Definition to_frame (bindings : list binding) : DataFrame :=
  let columns : gset string := ⋃ (dom <$> bindings) in
  (λ b, (VStr <$> b) ∪ gset_to_gmap VNaN columns) <$> bindings.

End Graph.

(** ** The relational store behind [CategoryQueryHandler] *)

Module Sql.

(** A [TEXT] cell: [NULL] or a text. *)
Abbreviation cell := (option string).

(** A row of each of the four tables the upload handler creates. *)
Record category : Type := mk_category {
  c_id : cell;
  c_quartile : cell
}.
Record journal_category : Type := mk_journal_category {
  jc_issn : cell;
  jc_category_id : cell;
  jc_quartile : cell
}.
Record journal_area : Type := mk_journal_area {
  ja_issn : cell;
  ja_area_id : cell
}.

Global Instance category_eq_dec : EqDecision category.
Proof. solve_decision. Defined.

Record db : Type := mk_db {
  areas : list cell;
  categories : list category;
  journal_categories : list journal_category;
  journal_areas : list journal_area
}.

Inductive query : Type :=
  | CategoryById (entity_id : string)
  | AreaById (entity_id : string)
  | AllCategories
  | AllAreas
  | CategoriesWithQuartile (quartiles : list string)
  | CategoriesAssignedToAreas (area_ids : list string)
  | AreasAssignedToCategories (category_ids : list string)
  | IssnsForCategory (category_id : string)
  | IssnsForArea (area_id : string).

Global Instance query_eq_dec : EqDecision query.
Proof. solve_decision. Defined.

(** [a = ?]: never true of [NULL]. *)
Definition eq_param (a : cell) (p : string) : bool :=
  bool_decide (a = Some p).

(** [a = b] between two columns. *)
Definition eq_cells (a b : cell) : bool :=
  match a, b with
  | Some x, Some y => bool_decide (x = y)
  | _, _ => false
  end.

(** [a IN (?, ..., ?)] *)
Definition in_params (a : cell) (ps : list string) : bool :=
  existsb (eq_param a) ps.

(** [ORDER BY]: [NULL] first, texts by [memcmp]. *)
Definition cell_leb (a b : cell) : bool :=
  match a, b with
  | None, _ => true
  | Some _, None => false
  | Some x, Some y => String.leb x y
  end.

(** [SELECT DISTINCT ... ORDER BY id] *)
Definition distinct_by_id {A : Type} `{EqDecision A} (id : A → cell)
    (rows : list A) : list A :=
  sorted_by (λ r1 r2, cell_leb (id r1) (id r2)) (remove_dups rows).

(** A cell as pandas hands it over. *)
Definition cell_value (c : cell) : value :=
  match c with Some s => VStr s | None => VNone end.

Definition category_row (c : category) : Row :=
  {[ "id"%string := cell_value (c_id c);
     "quartile"%string := cell_value (c_quartile c) ]}.

Definition area_row (a : cell) : Row :=
  {[ "id"%string := cell_value a ]}.

Definition issn_row (i : cell) : Row :=
  {[ "issn"%string := cell_value i ]}.

(** The result set of each statement. *)
Definition eval (d : db) (q : query) : DataFrame :=
  match q with
  | CategoryById entity_id =>
      category_row <$>
        filter (λ c, eq_param (c_id c) entity_id) (categories d)
  | AreaById entity_id =>
      area_row <$> filter (λ a, eq_param a entity_id) (areas d)
  | AllCategories =>
      category_row <$> distinct_by_id c_id (categories d)
  | AllAreas =>
      area_row <$> distinct_by_id id (areas d)
  | CategoriesWithQuartile quartiles =>
      category_row <$>
        distinct_by_id c_id
          (filter (λ c, in_params (c_quartile c) quartiles) (categories d))
  | CategoriesAssignedToAreas area_ids =>
      category_row <$>
        distinct_by_id c_id
          (c ← categories d;
           jc ← filter (λ jc, eq_cells (c_id c) (jc_category_id jc))
                  (journal_categories d);
           ja ← filter (λ ja, eq_cells (jc_issn jc) (ja_issn ja))
                  (journal_areas d);
           if in_params (ja_area_id ja) area_ids then [c] else [])
  | AreasAssignedToCategories category_ids =>
      area_row <$>
        distinct_by_id id
          (a ← areas d;
           ja ← filter (λ ja, eq_cells a (ja_area_id ja))
                  (journal_areas d);
           jc ← filter (λ jc, eq_cells (ja_issn ja) (jc_issn jc))
                  (journal_categories d);
           if in_params (jc_category_id jc) category_ids then [a] else [])
  | IssnsForCategory category_id =>
      issn_row <$>
        remove_dups
          (jc_issn <$>
             filter (λ jc, eq_param (jc_category_id jc) category_id)
               (journal_categories d))
  | IssnsForArea area_id =>
      issn_row <$>
        remove_dups
          (ja_issn <$>
             filter (λ ja, eq_param (ja_area_id ja) area_id)
               (journal_areas d))
  end.

(** [{row[0] for row in cursor.fetchall()}] of a one-column result. *)
Definition first_column (c : string) (rows : DataFrame) : gset cell :=
  list_to_set
    ((λ row, match row_get row c with
             | VStr s => Some s
             | _ => None
             end) <$> rows).

(** [INSERT OR IGNORE INTO table ... VALUES (...)]: the row is appended
    unless a row of the table [conflict]s with it, that is, has the same
    primary key; a key with a [NULL] in it conflicts with no key. *)
Definition insert_or_ignore {A : Type} (conflict : A → A → bool) (row : A)
    (table : list A) : list A :=
  if existsb (conflict row) table then table else table ++ [row].

(** The primary keys declared by [_create_tables]. *)
Definition area_conflict (a b : cell) : bool := eq_cells a b.
Definition category_conflict (a b : category) : bool :=
  eq_cells (c_id a) (c_id b).
Definition journal_category_conflict (a b : journal_category) : bool :=
  eq_cells (jc_issn a) (jc_issn b)
  && eq_cells (jc_category_id a) (jc_category_id b).
Definition journal_area_conflict (a b : journal_area) : bool :=
  eq_cells (ja_issn a) (ja_issn b) && eq_cells (ja_area_id a) (ja_area_id b).

Definition insert_area (a : cell) (d : db) : db :=
  mk_db (insert_or_ignore area_conflict a (areas d)) (categories d)
    (journal_categories d) (journal_areas d).
Definition insert_category (c : category) (d : db) : db :=
  mk_db (areas d) (insert_or_ignore category_conflict c (categories d))
    (journal_categories d) (journal_areas d).
Definition insert_journal_category (jc : journal_category) (d : db) : db :=
  mk_db (areas d) (categories d)
    (insert_or_ignore journal_category_conflict jc (journal_categories d))
    (journal_areas d).
Definition insert_journal_area (ja : journal_area) (d : db) : db :=
  mk_db (areas d) (categories d) (journal_categories d)
    (insert_or_ignore journal_area_conflict ja (journal_areas d)).

End Sql.

(** ** Effects: store round trips and exceptions *)

(** What lives at each URL or path. [None] is an endpoint that cannot be
    reached, respectively a path at which no database with the four tables
    can be opened. *)
Record World : Type := mk_world {
  endpoint : string → option (list Graph.node);
  database : string → option Sql.db
}.

(** One round trip to a store. *)
Inductive call : Type :=
  | SparqlCall (url : string) (q : Graph.query)
  | SqlCall (path : string) (q : Sql.query).

Inductive exn : Type :=
  | DatabaseError     (* raised by sqlite3 / pandas *)
  | IndexError.       (* [getIds()[0]] on an entity without identifier *)

Inductive result (A : Type) : Type :=
  | Ok (a : A)
  | Raise (e : exn).
Global Arguments Ok {A} a.
Global Arguments Raise {A} e.

(** A computation: from the trace so far to an outcome and the new trace. *)
Definition M (A : Type) : Type := list call → result A * list call.

Global Instance M_ret : MRet M := λ A a tr, (Ok a, tr).

Global Instance M_bind : MBind M := λ A B f m tr,
  match m tr with
  | (Ok a, tr') => f a tr'
  | (Raise e, tr') => (Raise e, tr')
  end.

Global Instance M_fmap : FMap M := λ A B f m, a ← m; mret (f a).

Definition raise {A : Type} (e : exn) : M A := λ tr, (Raise e, tr).

Definition log (c : call) : M unit := λ tr, (Ok tt, tr ++ [c]).

(** [try: body except Exception: handler] *)
Definition try_except {A : Type} (body : M A) (handler : exn → M A) : M A :=
  λ tr,
    match body tr with
    | (Ok a, tr') => (Ok a, tr')
    | (Raise e, tr') => handler e tr'
    end.

(** ** handlers.py and query_handlers.py *)

(** A handler object: its identity and the one attribute [Handler] has. *)
Record QueryHandler : Type := mk_handler {
  oid : nat;
  _dbPathOrUrl : string
}.

Definition getDbPathOrUrl (self : QueryHandler) : string :=
  _dbPathOrUrl self.

Section handlers.
Variable w : World.

(** *** [JournalQueryHandler] *)

(** Every failure of the transport is absorbed into an empty frame. *)
Definition _execute_sparql_query (self : QueryHandler) (q : Graph.query)
    : M DataFrame :=
  _ ← log (SparqlCall (_dbPathOrUrl self) q);
  mret (match endpoint w (_dbPathOrUrl self) with
        | Some store => Graph.to_frame (Graph.eval store q)
        | None => []
        end).

Definition JournalQueryHandler_getById (self : QueryHandler)
    (entity_id : string) : M DataFrame :=
  _execute_sparql_query self (Graph.ById entity_id).

Definition JournalQueryHandler_getByIds (self : QueryHandler)
    (ids : list string) : M DataFrame :=
  if bool_decide (ids = []) then mret []
  else
    let values_list := filter (λ journal_id, Py.truthy journal_id) ids in
    if bool_decide (values_list = []) then mret []
    else _execute_sparql_query self (Graph.ByIds values_list).

Definition JournalQueryHandler_getAllJournals (self : QueryHandler)
    : M DataFrame :=
  _execute_sparql_query self Graph.AllJournals.

Definition JournalQueryHandler_getJournalsWithTitle (self : QueryHandler)
    (partialTitle : string) : M DataFrame :=
  _execute_sparql_query self (Graph.WithTitle partialTitle).

Definition JournalQueryHandler_getJournalsPublishedBy (self : QueryHandler)
    (partialName : string) : M DataFrame :=
  _execute_sparql_query self (Graph.PublishedBy partialName).

Definition JournalQueryHandler_getJournalsWithLicense (self : QueryHandler)
    (licenses : gset string) : M DataFrame :=
  if bool_decide (licenses = ∅) then JournalQueryHandler_getAllJournals self
  else
    let escaped_licenses :=
      filter (λ license, Py.truthy license) (elements licenses) in
    if bool_decide (escaped_licenses = []) then mret []
    else _execute_sparql_query self (Graph.WithLicense escaped_licenses).

Definition JournalQueryHandler_getJournalsWithAPC (self : QueryHandler)
    : M DataFrame :=
  _execute_sparql_query self Graph.WithAPC.

Definition JournalQueryHandler_getJournalsWithDOAJSeal
    (self : QueryHandler) : M DataFrame :=
  _execute_sparql_query self Graph.WithDOAJSeal.

Definition JournalQueryHandler_getJournalsByIssns (self : QueryHandler)
    (issns : gset string) : M DataFrame :=
  let cleaned_ids := filter (λ issn, Py.truthy issn) (elements issns) in
  if bool_decide (cleaned_ids = []) then mret []
  else _execute_sparql_query self (Graph.ByIssns (py_sorted cleaned_ids)).

(** *** [CategoryQueryHandler] *)

(** [pd.read_sql_query] inside [with connect(...)]: nothing is caught. *)
Definition read_sql_query (self : QueryHandler) (q : Sql.query)
    : M DataFrame :=
  _ ← log (SqlCall (_dbPathOrUrl self) q);
  match database w (_dbPathOrUrl self) with
  | Some d => mret (Sql.eval d q)
  | None => raise DatabaseError
  end.

Definition CategoryQueryHandler_getById (self : QueryHandler)
    (entity_id : string) : M DataFrame :=
  category_df ← read_sql_query self (Sql.CategoryById entity_id);
  if negb (df_empty category_df) then mret category_df
  else read_sql_query self (Sql.AreaById entity_id).

Definition CategoryQueryHandler_getAllCategories (self : QueryHandler)
    : M DataFrame :=
  read_sql_query self Sql.AllCategories.

Definition CategoryQueryHandler_getAllAreas (self : QueryHandler)
    : M DataFrame :=
  read_sql_query self Sql.AllAreas.

Definition CategoryQueryHandler_getCategoriesWithQuartile
    (self : QueryHandler) (quartiles : gset string) : M DataFrame :=
  if bool_decide (quartiles = ∅) then read_sql_query self Sql.AllCategories
  else
    read_sql_query self (Sql.CategoriesWithQuartile (elements quartiles)).

Definition CategoryQueryHandler_getCategoriesAssignedToAreas
    (self : QueryHandler) (area_ids : gset string) : M DataFrame :=
  if bool_decide (area_ids = ∅) then read_sql_query self Sql.AllCategories
  else
    read_sql_query self (Sql.CategoriesAssignedToAreas (elements area_ids)).

Definition CategoryQueryHandler_getAreasAssignedToCategories
    (self : QueryHandler) (category_ids : gset string) : M DataFrame :=
  if bool_decide (category_ids = ∅) then read_sql_query self Sql.AllAreas
  else
    read_sql_query self
      (Sql.AreasAssignedToCategories (elements category_ids)).

End handlers.

(** ** query_engines.py: [BasicQueryEngine] *)

Record BasicQueryEngine : Type := mk_engine {
  _journalQuery : list QueryHandler;
  _categoryQuery : list QueryHandler
}.

(** [BasicQueryEngine()] *)
Definition new_engine : BasicQueryEngine :=
  {| _journalQuery := []; _categoryQuery := [] |}.

(** [handler in handlers]: the handler classes define no [__eq__], so
    membership is identity of objects. *)
Definition handler_in (handler : QueryHandler) (handlers : list QueryHandler)
    : bool :=
  bool_decide (oid handler ∈ oid <$> handlers).

(** The registration methods return the new state and the reported flag;
    [None] is a call with Python's [None]. *)
Definition cleanJournalHandlers (self : BasicQueryEngine)
    : BasicQueryEngine * bool :=
  ({| _journalQuery := []; _categoryQuery := _categoryQuery self |}, true).

Definition cleanCategoryHandlers (self : BasicQueryEngine)
    : BasicQueryEngine * bool :=
  ({| _journalQuery := _journalQuery self; _categoryQuery := [] |}, true).

Definition addJournalHandler (handler : option QueryHandler)
    (self : BasicQueryEngine) : BasicQueryEngine * bool :=
  match handler with
  | Some h =>
      if negb (handler_in h (_journalQuery self))
      then ({| _journalQuery := _journalQuery self ++ [h];
               _categoryQuery := _categoryQuery self |}, true)
      else (self, true)
  | None => (self, true)
  end.

Definition addCategoryHandler (handler : option QueryHandler)
    (self : BasicQueryEngine) : BasicQueryEngine * bool :=
  match handler with
  | Some h =>
      if negb (handler_in h (_categoryQuery self))
      then ({| _journalQuery := _journalQuery self;
               _categoryQuery := _categoryQuery self ++ [h] |}, true)
      else (self, true)
  | None => (self, true)
  end.

Section engine.
Variable w : World.

(** *** [getEntityById]

    Each probing loop answers [Some r] when it executes [return r] and
    [None] when it runs to its end. *)
Fixpoint probe_journal_handlers (handlers : list QueryHandler)
    (entity_id : string) : M (option (option entity)) :=
  match handlers with
  | [] => mret None
  | handler :: rest =>
      df ← JournalQueryHandler_getById w handler entity_id;
      match df with
      | row :: _ => mret (Some (EJournal <$> _dataframe_to_journal row))
      | [] => probe_journal_handlers rest entity_id
      end
  end.

Fixpoint probe_category_handlers (handlers : list QueryHandler)
    (entity_id : string) : M (option (option entity)) :=
  match handlers with
  | [] => mret None
  | handler :: rest =>
      df ← CategoryQueryHandler_getById w handler entity_id;
      match df with
      | row :: _ =>
          if row_has row "quartile"
          then mret (Some (ECategory <$> _dataframe_to_category row))
          else mret (Some (EArea <$> _dataframe_to_area row))
      | [] => probe_category_handlers rest entity_id
      end
  end.

Definition getEntityById (self : BasicQueryEngine) (entity_id : string)
    : M (option entity) :=
  try_except
    (found ← probe_journal_handlers (_journalQuery self) entity_id;
     match found with
     | Some r => mret r
     | None =>
         found ← probe_category_handlers (_categoryQuery self) entity_id;
         match found with
         | Some r => mret r
         | None => mret None
         end
     end)
    (λ _, mret None).

(** *** The "get many" methods

    [for handler in handlers: df = query(handler); collect(df, map)] *)
Fixpoint fan_out {V : Type} (handlers : list QueryHandler)
    (query : QueryHandler → M DataFrame)
    (collect : DataFrame → list (string * V) → list (string * V))
    (target : list (string * V)) : M (list (string * V)) :=
  match handlers with
  | [] => mret target
  | handler :: rest =>
      df ← query handler;
      fan_out rest query collect (collect df target)
  end.

(** The body shared by the methods: fan out, then [list(map.values())];
    any exception gives [[]]. *)
Definition get_many {V : Type} (handlers : list QueryHandler)
    (query : QueryHandler → M DataFrame)
    (collect : DataFrame → list (string * V) → list (string * V))
    : M (list V) :=
  try_except
    (target ← fan_out handlers query collect [];
     mret (od_values target))
    (λ _, mret []).

Definition getAllJournals (self : BasicQueryEngine) : M (list Journal.t) :=
  get_many (_journalQuery self)
    (JournalQueryHandler_getAllJournals w) _collect_journals.

Definition getJournalsWithTitle (self : BasicQueryEngine)
    (partialTitle : string) : M (list Journal.t) :=
  get_many (_journalQuery self)
    (λ handler, JournalQueryHandler_getJournalsWithTitle w handler
                  partialTitle)
    _collect_journals.

Definition getJournalsPublishedBy (self : BasicQueryEngine)
    (partialName : string) : M (list Journal.t) :=
  get_many (_journalQuery self)
    (λ handler, JournalQueryHandler_getJournalsPublishedBy w handler
                  partialName)
    _collect_journals.

Definition getJournalsWithLicense (self : BasicQueryEngine)
    (licenses : gset string) : M (list Journal.t) :=
  get_many (_journalQuery self)
    (λ handler, JournalQueryHandler_getJournalsWithLicense w handler
                  licenses)
    _collect_journals.

Definition getJournalsWithAPC (self : BasicQueryEngine)
    : M (list Journal.t) :=
  get_many (_journalQuery self)
    (JournalQueryHandler_getJournalsWithAPC w) _collect_journals.

Definition getJournalsWithDOAJSeal (self : BasicQueryEngine)
    : M (list Journal.t) :=
  get_many (_journalQuery self)
    (JournalQueryHandler_getJournalsWithDOAJSeal w) _collect_journals.

Definition getAllCategories (self : BasicQueryEngine)
    : M (list Category.t) :=
  get_many (_categoryQuery self)
    (CategoryQueryHandler_getAllCategories w) _collect_categories.

Definition getAllAreas (self : BasicQueryEngine) : M (list Area.t) :=
  get_many (_categoryQuery self)
    (CategoryQueryHandler_getAllAreas w) _collect_areas.

Definition getCategoriesWithQuartile (self : BasicQueryEngine)
    (quartiles : gset string) : M (list Category.t) :=
  get_many (_categoryQuery self)
    (λ handler, CategoryQueryHandler_getCategoriesWithQuartile w handler
                  quartiles)
    _collect_categories.

Definition getCategoriesAssignedToAreas (self : BasicQueryEngine)
    (area_ids : gset string) : M (list Category.t) :=
  get_many (_categoryQuery self)
    (λ handler, CategoryQueryHandler_getCategoriesAssignedToAreas w handler
                  area_ids)
    _collect_categories.

Definition getAreasAssignedToCategories (self : BasicQueryEngine)
    (category_ids : gset string) : M (list Area.t) :=
  get_many (_categoryQuery self)
    (λ handler, CategoryQueryHandler_getAreasAssignedToCategories w handler
                  category_ids)
    _collect_areas.

(** *** The batched fetch *)

(** [sorted({issn for issn in issns if issn})]: [None] and the empty text
    are dropped. *)
Definition cleaned_ids (issns : gset Sql.cell) : list string :=
  py_sorted
    (filter (λ issn, Py.truthy issn) (omap id (elements issns))).

(** [for chunk in self._chunked(cleaned_ids, 50)] for one handler. *)
Fixpoint fetch_chunks (handler : QueryHandler)
    (chunks : list (list string))
    (journal_map : list (string * Journal.t))
    : M (list (string * Journal.t)) :=
  match chunks with
  | [] => mret journal_map
  | chunk :: rest =>
      df ← JournalQueryHandler_getJournalsByIssns w handler
             (list_to_set chunk);
      fetch_chunks handler rest (_collect_journals df journal_map)
  end.

Fixpoint fetch_handlers (handlers : list QueryHandler)
    (ids : list string) (journal_map : list (string * Journal.t))
    : M (list (string * Journal.t)) :=
  match handlers with
  | [] => mret journal_map
  | handler :: rest =>
      journal_map ← fetch_chunks handler (_chunked ids 50) journal_map;
      fetch_handlers rest ids journal_map
  end.

Definition _fetch_journals_by_issns (self : BasicQueryEngine)
    (issns : gset Sql.cell) : M (list Journal.t) :=
  let cleaned := cleaned_ids issns in
  if bool_decide (cleaned = []) then mret []
  else
    journal_map ← fetch_handlers (_journalQuery self) cleaned [];
    mret (od_values journal_map).

(** ** query_engines.py: [FullQueryEngine] *)

(** Both helpers open the handler's database themselves and turn every
    failure into the empty set. *)
Definition _get_issns_for_category (handler : QueryHandler)
    (category_id : string) : M (gset Sql.cell) :=
  _ ← log (SqlCall (getDbPathOrUrl handler)
             (Sql.IssnsForCategory category_id));
  mret (match database w (getDbPathOrUrl handler) with
        | Some d =>
            Sql.first_column "issn"
              (Sql.eval d (Sql.IssnsForCategory category_id))
        | None => ∅
        end).

Definition _get_issns_for_area (handler : QueryHandler)
    (area_id : string) : M (gset Sql.cell) :=
  _ ← log (SqlCall (getDbPathOrUrl handler) (Sql.IssnsForArea area_id));
  mret (match database w (getDbPathOrUrl handler) with
        | Some d =>
            Sql.first_column "issn"
              (Sql.eval d (Sql.IssnsForArea area_id))
        | None => ∅
        end).

(** [entity.getIds()[0]] *)
Definition first_id `{IdentifiableEntity E} (e : E) : M string :=
  match getIds e with
  | i :: _ => mret i
  | [] => raise IndexError
  end.

(** [[cat for cat in categories if cat.getIds()[0] in category_ids]] *)
Fixpoint narrow_categories (categories : list Category.t)
    (category_ids : gset string) : M (list Category.t) :=
  match categories with
  | [] => mret []
  | cat :: rest =>
      i ← first_id cat;
      rest' ← narrow_categories rest category_ids;
      mret (if bool_decide (i ∈ category_ids) then cat :: rest' else rest')
  end.

(** [for category in categories: issns.update(_get_issns_for_category)] *)
Fixpoint issns_of_categories (handler : QueryHandler)
    (categories : list Category.t) (journal_issns : gset Sql.cell)
    : M (gset Sql.cell) :=
  match categories with
  | [] => mret journal_issns
  | category :: rest =>
      category_id ← first_id category;
      issns ← _get_issns_for_category handler category_id;
      issns_of_categories handler rest (journal_issns ∪ issns)
  end.

Fixpoint issns_in_categories (handlers : list QueryHandler)
    (categories : list Category.t) (journal_issns : gset Sql.cell)
    : M (gset Sql.cell) :=
  match handlers with
  | [] => mret journal_issns
  | handler :: rest =>
      journal_issns ← issns_of_categories handler categories journal_issns;
      issns_in_categories rest categories journal_issns
  end.

(** [for area_id in area_ids: issns.update(_get_issns_for_area)] *)
Fixpoint issns_of_areas (handler : QueryHandler) (area_ids : list string)
    (journal_issns : gset Sql.cell) : M (gset Sql.cell) :=
  match area_ids with
  | [] => mret journal_issns
  | area_id :: rest =>
      issns ← _get_issns_for_area handler area_id;
      issns_of_areas handler rest (journal_issns ∪ issns)
  end.

Fixpoint issns_in_areas (handlers : list QueryHandler)
    (area_ids : list string) (journal_issns : gset Sql.cell)
    : M (gset Sql.cell) :=
  match handlers with
  | [] => mret journal_issns
  | handler :: rest =>
      journal_issns ← issns_of_areas handler area_ids journal_issns;
      issns_in_areas rest area_ids journal_issns
  end.

Definition getJournalsInCategoriesWithQuartile (self : BasicQueryEngine)
    (category_ids quartiles : gset string) : M (list Journal.t) :=
  try_except
    (categories_with_quartile ← getCategoriesWithQuartile self quartiles;
     if bool_decide (categories_with_quartile = [])
        && bool_decide (quartiles ≠ ∅)
     then mret []
     else
       categories_with_quartile ←
         (if bool_decide (category_ids ≠ ∅)
          then narrow_categories categories_with_quartile category_ids
          else mret categories_with_quartile);
       if bool_decide (category_ids ≠ ∅)
          && bool_decide (categories_with_quartile = [])
       then mret []
       else
         if bool_decide (categories_with_quartile = []) then mret []
         else
           journal_issns ←
             issns_in_categories (_categoryQuery self)
               categories_with_quartile ∅;
           _fetch_journals_by_issns self journal_issns)
    (λ _, mret []).

(** The filtering loop shared by the last two methods: [allowed] tells
    whether an identifier passes the active filters. *)
Definition keep_journal (allowed : string → bool)
    (filtered : list (string * Journal.t)) (journal : Journal.t)
    : list (string * Journal.t) :=
  match getIds journal with
  | journal_issn :: _ =>
      if Py.truthy journal_issn && allowed journal_issn
      then od_set journal_issn journal filtered
      else filtered
  | [] => filtered
  end.

(** [issns is not None and journal_issn not in issns] negated. *)
Definition passes (issns : option (gset Sql.cell)) (journal_issn : string)
    : bool :=
  match issns with
  | None => true
  | Some s => bool_decide (Some journal_issn ∈ s)
  end.

Definition getJournalsInAreasWithLicense (self : BasicQueryEngine)
    (area_ids licenses : gset string) : M (list Journal.t) :=
  try_except
    (journals_with_license ← getJournalsWithLicense self licenses;
     journal_issns_in_areas ←
       (if bool_decide (area_ids ≠ ∅)
        then Some <$> issns_in_areas (_categoryQuery self)
                        (elements area_ids) ∅
        else mret None);
     match journal_issns_in_areas with
     | None => mret journals_with_license
     | Some s =>
         mret (od_values
                 (foldl (keep_journal (passes (Some s))) []
                    journals_with_license))
     end)
    (λ _, mret []).

(** The area filter of the diamond query: [None] is "no filter". *)
Definition diamond_area_filter (self : BasicQueryEngine)
    (area_ids : gset string) : M (option (gset Sql.cell)) :=
  if bool_decide (area_ids ≠ ∅)
  then Some <$> issns_in_areas (_categoryQuery self) (elements area_ids) ∅
  else mret None.

(** The category filter of the diamond query. The outer [None] is one of
    the two [return []]; inside, [None] is "no filter". *)
Definition diamond_category_filter (self : BasicQueryEngine)
    (category_ids quartiles : gset string)
    : M (option (option (gset Sql.cell))) :=
  categories_with_quartile ← getCategoriesWithQuartile self quartiles;
  if bool_decide (categories_with_quartile = [])
     && bool_decide (quartiles ≠ ∅)
  then mret None
  else
    categories_with_quartile ←
      (if bool_decide (category_ids ≠ ∅)
       then narrow_categories categories_with_quartile category_ids
       else mret categories_with_quartile);
    if bool_decide (category_ids ≠ ∅)
       && bool_decide (categories_with_quartile = [])
    then mret None
    else
      if bool_decide (categories_with_quartile ≠ [])
      then
        s ← issns_in_categories (_categoryQuery self)
              categories_with_quartile ∅;
        mret (Some (Some s))
      else mret (Some None).

Definition getDiamondJournalsInAreasAndCategoriesWithQuartile
    (self : BasicQueryEngine) (area_ids category_ids quartiles : gset string)
    : M (list Journal.t) :=
  try_except
    (all_journals ← getAllJournals self;
     let journals_without_apc :=
       filter (λ journal, negb (Journal.hasAPC journal)) all_journals in
     journal_issns_in_areas ← diamond_area_filter self area_ids;
     category_filter ← diamond_category_filter self category_ids quartiles;
     match category_filter with
     | None => mret []
     | Some journal_issns_in_categories =>
         mret (od_values
                 (foldl
                    (keep_journal
                       (λ journal_issn,
                          passes journal_issns_in_areas journal_issn
                          && passes journal_issns_in_categories
                               journal_issn))
                    [] journals_without_apc))
     end)
    (λ _, mret []).

End engine.

(** ** Reference for the batched fetch

    The fetch the specification compares [_fetch_journals_by_issns] with:
    the same cleaning and merging, every handler asked once for the whole
    identifier set. It is written after the specification, not after the
    source. *)

Section unchunked.
Variable w : World.

Fixpoint fetch_handlers_unchunked (handlers : list QueryHandler)
    (ids : list string) (journal_map : list (string * Journal.t))
    : M (list (string * Journal.t)) :=
  match handlers with
  | [] => mret journal_map
  | handler :: rest =>
      df ← JournalQueryHandler_getJournalsByIssns w handler
             (list_to_set ids);
      fetch_handlers_unchunked rest ids (_collect_journals df journal_map)
  end.

Definition fetch_journals_unchunked (self : BasicQueryEngine)
    (issns : gset Sql.cell) : M (list Journal.t) :=
  let cleaned := cleaned_ids issns in
  if bool_decide (cleaned = []) then mret []
  else
    journal_map ← fetch_handlers_unchunked (_journalQuery self) cleaned [];
    mret (od_values journal_map).
End unchunked.

(** ** Histories of calls *)

(** The identifier mutators a caller can apply to an entity. *)
Inductive id_call : Type :=
  | AddId (entity_id : string)
  | SetId (entity_id : string).

Definition run_id_call `{IdentifiableEntity E} (self : E) (c : id_call) : E :=
  match c with
  | AddId entity_id => addId entity_id self
  | SetId entity_id => setId entity_id self
  end.

Definition run_id_calls `{IdentifiableEntity E} (self : E)
    (cs : list id_call) : E :=
  foldl run_id_call self cs.

(** The registration methods a caller can apply to an engine. *)
Inductive registry_call : Type :=
  | AddJournalHandler (handler : option QueryHandler)
  | AddCategoryHandler (handler : option QueryHandler)
  | CleanJournalHandlers
  | CleanCategoryHandlers.

Definition run_registry_call (self : BasicQueryEngine) (c : registry_call)
    : BasicQueryEngine * bool :=
  match c with
  | AddJournalHandler handler => addJournalHandler handler self
  | AddCategoryHandler handler => addCategoryHandler handler self
  | CleanJournalHandlers => cleanJournalHandlers self
  | CleanCategoryHandlers => cleanCategoryHandlers self
  end.

Definition run_registry_calls (self : BasicQueryEngine)
    (cs : list registry_call) : BasicQueryEngine :=
  foldl (λ e c, (run_registry_call e c).1) self cs.

(** How many entries of a handler collection are the object [handler]. *)
Definition entries_of (handler : QueryHandler) (handlers : list QueryHandler)
    : nat :=
  length (filter (λ h, oid h = oid handler) handlers).

(** ** models.py over an object store

    Whether an accessor hands out the entity's own list or a copy is a
    matter of aliasing, which values cannot express. Here the list-valued
    attributes are references into a store of list objects, and a caller
    holding a reference may mutate the list behind it. *)

Module Objects.

Abbreviation loc := positive.

(** An element of a list object: a text, or a reference to an entity. *)
Inductive item : Type :=
  | IStr (s : string)
  | IRef (l : loc).

(** The store of list objects. *)
Abbreviation heap := (gmap loc (list item)).

(** An entity object: the references held by its list-valued
    attributes. *)
Inductive object : Type :=
  | OJournal (_ids _languages _categories _areas : loc)
  | OCategory (_ids : loc)
  | OArea (_ids : loc).

(** The list-valued accessors. *)
Inductive accessor : Type :=
  | getIds
  | getLanguages
  | getCategories
  | getAreas.

(** The attribute an accessor reads; [None] when the class of the object
    has no such method. *)
Definition attribute (acc : accessor) (self : object) : option loc :=
  match self, acc with
  | OJournal ids _ _ _, getIds => Some ids
  | OJournal _ languages _ _, getLanguages => Some languages
  | OJournal _ _ categories _, getCategories => Some categories
  | OJournal _ _ _ areas, getAreas => Some areas
  | OCategory ids, getIds => Some ids
  | OArea ids, getIds => Some ids
  | _, _ => None
  end.

(** [xs.copy()]: a new list object with the elements of [xs]. *)
Definition list_copy (xs : loc) (h : heap) : loc * heap :=
  let fresh_loc := fresh (dom h) in
  (fresh_loc, <[fresh_loc := default [] (h !! xs)]> h).

(** [return self._attr.copy()] *)
Definition call (acc : accessor) (self : object) (h : heap)
    : option (loc * heap) :=
  match attribute acc self with
  | Some xs => Some (list_copy xs h)
  | None => None
  end.

(** What a caller can do to a list it holds. *)
Inductive mutation : Type :=
  | Append (x : item)
  | Extend (xs : list item)
  | Insert (i : nat) (x : item)
  | SetItem (i : nat) (x : item)
  | Pop
  | Remove (i : nat)
  | Reverse
  | Clear.

Definition apply_mutation (m : mutation) (xs : list item) : list item :=
  match m with
  | Append x => xs ++ [x]
  | Extend ys => xs ++ ys
  | Insert i x => take i xs ++ x :: drop i xs
  | SetItem i x => <[i := x]> xs
  | Pop => removelast xs
  | Remove i => delete i xs
  | Reverse => reverse xs
  | Clear => []
  end.

(** Mutating the list object at [l] in place. *)
Definition mutate (l : loc) (h : heap) (m : mutation) : heap :=
  alter (apply_mutation m) l h.

(** The elements an observer reads through a reference. *)
Definition elements_at (l : loc) (h : heap) : list item :=
  default [] (h !! l).

(** The caller applies mutations to the list at [l], one after another. *)
Definition mutate_all (l : loc) (h : heap) (ms : list mutation) : heap :=
  foldl (mutate l) h ms.

(** The attributes of the entity are list objects of the store. *)
Definition allocated (self : object) (h : heap) : Prop :=
  ∀ acc xs, attribute acc self = Some xs → xs ∈ dom h.

Global Instance item_eq_dec : EqDecision item.
Proof. solve_decision. Defined.

(** [x in xs] for an entity [x]: the entity classes define no [__eq__], so
    an element of the list matches when it is the same object. *)
Definition holds (xs : loc) (x : loc) (h : heap) : bool :=
  bool_decide (IRef x ∈ elements_at xs h).

(** [if x and x not in self._attr: self._attr.append(x)]; an entity object
    is always true, [None], Python's [None], never. *)
Definition add_entity (xs : loc) (x : option loc) (h : heap) : heap :=
  match x with
  | Some l => if negb (holds xs l h) then mutate xs h (Append (IRef l)) else h
  | None => h
  end.

(** [Journal.addCategory] and [Journal.addArea]; [None] when the object is
    no journal and has no such method. *)
Definition addCategory (category : option loc) (self : object) (h : heap)
    : option heap :=
  match self with
  | OJournal _ _ categories _ => Some (add_entity categories category h)
  | _ => None
  end.

Definition addArea (area : option loc) (self : object) (h : heap)
    : option heap :=
  match self with
  | OJournal _ _ _ areas => Some (add_entity areas area h)
  | _ => None
  end.

(** [self._languages = languages.copy() if languages else []]: the
    attribute is bound to a new list object either way. The result is the
    journal with its new attribute, and the new store. *)
Definition setLanguages (languages : option loc) (self : object) (h : heap)
    : option (object * heap) :=
  match self with
  | OJournal ids _ categories areas =>
      let truthy :=
        match languages with
        | Some xs => bool_decide (elements_at xs h ≠ [])
        | None => false
        end in
      let '(new_list, h') :=
        match languages with
        | Some xs =>
            if truthy then list_copy xs h
            else (fresh (dom h), <[fresh (dom h) := []]> h)
        | None => (fresh (dom h), <[fresh (dom h) := []]> h)
        end in
      Some (OJournal ids new_list categories areas, h')
  | _ => None
  end.

End Objects.

(** ** query_handlers.py: [_escape_literal] *)

(** The double quote and the backslash. *)
Definition quote_char : ascii := "034"%char.
Definition backslash_char : ascii := "092"%char.

(** [value.replace(backslash, 2 backslashes).replace(quote, backslash
    quote)], and the empty string for [None]. *)
Definition _escape_literal (value : option string) : string :=
  match value with
  | None => ""
  | Some value =>
      Py.replace quote_char (String backslash_char (String quote_char ""))
        (Py.replace backslash_char
           (String backslash_char (String backslash_char "")) value)
  end.

(** ** upload_handlers.py *)

(** [JournalUploadHandler._escape_string]: quote, line feed and carriage
    return become backslash-quote, backslash-n and backslash-r. *)
Definition _escape_string (text : string) : string :=
  Py.replace "013"%char (String backslash_char "r")
    (Py.replace "010"%char (String backslash_char "n")
       (Py.replace quote_char (String backslash_char (String quote_char ""))
          text)).

(** The Scimago file as [json.load] returns it, for a file whose
    identifiers, category ids, quartiles and areas are JSON strings or
    [null]. *)
Module Scimago.

(** An object of a [categories] array: [category.get('id')] and
    [category.get('quartile')], [None] for a key that is absent. *)
Record category : Type := mk_category {
  id : Sql.cell;
  quartile : Sql.cell
}.

(** An entry: [entry.get(key, [])] for its three keys. *)
Record entry : Type := mk_entry {
  identifiers : list Sql.cell;
  categories : list category;
  areas : list Sql.cell
}.

End Scimago.

(** [CREATE TABLE IF NOT EXISTS] four times: a new database gets the four
    tables, empty; an existing one is left as it is. *)
Definition _create_tables (store : option Sql.db) : Sql.db :=
  default (Sql.mk_db [] [] [] []) store.

(** The body of the loop of [_insert_data]: its four inner loops. *)
Definition insert_entry (d : Sql.db) (entry : Scimago.entry) : Sql.db :=
  let identifiers := Scimago.identifiers entry in
  let categories := Scimago.categories entry in
  let areas := Scimago.areas entry in
  let d := foldl (λ d area, Sql.insert_area area d) d areas in
  let d :=
    foldl (λ d category,
             Sql.insert_category
               (Sql.mk_category (Scimago.id category)
                  (Scimago.quartile category)) d)
      d categories in
  let d :=
    foldl (λ d issn,
             foldl (λ d category,
                      Sql.insert_journal_category
                        (Sql.mk_journal_category issn (Scimago.id category)
                           (Scimago.quartile category)) d)
               d categories)
      d identifiers in
  foldl (λ d issn,
           foldl (λ d area,
                    Sql.insert_journal_area (Sql.mk_journal_area issn area)
                      d)
             d areas)
    d identifiers.

Definition _insert_data (d : Sql.db) (scimago_data : list Scimago.entry)
    : Sql.db :=
  foldl insert_entry d scimago_data.

(** [_upload_to_sqlite] on what is at the handler's path: the database
    committed there, and the flag returned. *)
Definition _upload_to_sqlite (scimago_data : list Scimago.entry)
    (store : option Sql.db) : Sql.db * bool :=
  (_insert_data (_create_tables store) scimago_data, true).

(** [CategoryUploadHandler.pushDataToDb], given what [_read_json_file]
    read: an empty file content leaves the path untouched. *)
Definition CategoryUploadHandler_pushDataToDb
    (scimago_data : list Scimago.entry) (store : option Sql.db)
    : option Sql.db * bool :=
  if bool_decide (scimago_data = []) then (store, false)
  else
    let '(d, flag) := _upload_to_sqlite scimago_data store in
    (Some d, flag).

(** The world after an upload through a handler at [path]. *)
Definition pushed (w : World) (path : string)
    (scimago_data : list Scimago.entry) : World :=
  mk_world (endpoint w)
    (λ p, if decide (p = path)
          then (CategoryUploadHandler_pushDataToDb scimago_data
                  (database w path)).1
          else database w p).

(** ** Invariants and derived notions *)

(** The invariant of the identifier list of an entity. *)
Definition ids_ok `{IdentifiableEntity E} (self : E) : Prop :=
  NoDup (getIds self) ∧ ""%string ∉ getIds self.

(** Every handler collection holds each handler object at most once. *)
Definition registry_ok (self : BasicQueryEngine) : Prop :=
  NoDup (oid <$> _journalQuery self) ∧ NoDup (oid <$> _categoryQuery self).

(** [first_wins j j']: what a journal of the merge map keeps while later
    rows are merged into it. A text attribute that is set stays as it is,
    the languages only grow at the end, the identifiers do not change. *)
Definition first_wins (j j' : Journal.t) : Prop :=
  (Py.truthy (Journal.getTitle j) = true
   → Journal.getTitle j' = Journal.getTitle j)
  ∧ (opt_truthy (Journal.getPublisher j) = true
     → Journal.getPublisher j' = Journal.getPublisher j)
  ∧ (Py.truthy (Journal.getLicence j) = true
     → Journal.getLicence j' = Journal.getLicence j)
  ∧ Journal.getLanguages j `prefix_of` Journal.getLanguages j'
  ∧ (NoDup (Journal.getLanguages j) → NoDup (Journal.getLanguages j'))
  ∧ getIds j' = getIds j.

(** A computation that answers from every trace, never with an
    exception. *)
Definition returns {A : Type} (m : M A) : Prop :=
  ∀ tr, ∃ a tr', m tr = (Ok a, tr').

(** A computation that raises from every trace. *)
Definition raises {A : Type} (m : M A) : Prop :=
  ∀ tr, ∃ e tr', m tr = (Raise e, tr').

(** The value a computation answers with, from the empty trace. *)
Definition outcome {A : Type} (m : M A) : result A := (m []).1.

(** The frame a journal handler obtains for a query: empty when its
    endpoint cannot be reached. *)
Definition sparql_answer (w : World) (self : QueryHandler) (q : Graph.query)
    : DataFrame :=
  match endpoint w (_dbPathOrUrl self) with
  | Some store => Graph.to_frame (Graph.eval store q)
  | None => []
  end.

(** The frame [CategoryQueryHandler.getById] obtains; [None] when its
    database cannot be read and the call raises. *)
Definition category_probe (w : World) (self : QueryHandler)
    (entity_id : string) : option DataFrame :=
  match database w (_dbPathOrUrl self) with
  | Some d =>
      Some (if negb (df_empty (Sql.eval d (Sql.CategoryById entity_id)))
            then Sql.eval d (Sql.CategoryById entity_id)
            else Sql.eval d (Sql.AreaById entity_id))
  | None => None
  end.

(** [query] answers the frame [f handler] for every handler. *)
Definition answers (query : QueryHandler → M DataFrame)
    (f : QueryHandler → DataFrame) : Prop :=
  ∀ handler tr, ∃ tr', query handler tr = (Ok (f handler), tr').

(** The frame [getJournalsByIssns] obtains for a set of identifiers. *)
Definition journals_by_issns_answer (w : World) (self : QueryHandler)
    (issns : gset string) : DataFrame :=
  let cleaned := filter (λ issn, Py.truthy issn) (elements issns) in
  if bool_decide (cleaned = []) then []
  else sparql_answer w self (Graph.ByIssns (py_sorted cleaned)).

(** The journal identifiers a classification handler's database files
    under a category, respectively an area: empty when the database cannot
    be read. *)
Definition category_issns (w : World) (handler : QueryHandler)
    (category_id : string) : gset Sql.cell :=
  match database w (getDbPathOrUrl handler) with
  | Some d =>
      Sql.first_column "issn" (Sql.eval d (Sql.IssnsForCategory category_id))
  | None => ∅
  end.

Definition area_issns (w : World) (handler : QueryHandler)
    (area_id : string) : gset Sql.cell :=
  match database w (getDbPathOrUrl handler) with
  | Some d => Sql.first_column "issn" (Sql.eval d (Sql.IssnsForArea area_id))
  | None => ∅
  end.

(** The first identifier of an entity that has one. *)
Definition first_id_of `{IdentifiableEntity E} (e : E) : string :=
  match getIds e with i :: _ => i | [] => ""%string end.

(** [cat.getIds()[0] in category_ids], for a category with an identifier. *)
Definition first_id_in (category_ids : gset string) (c : Category.t) : bool :=
  bool_decide (first_id_of c ∈ category_ids).

(** The union, over the given handlers and categories, of the journal
    identifiers filed under each category. *)
Definition issns_under_categories (w : World) (handlers : list QueryHandler)
    (categories : list Category.t) : gset Sql.cell :=
  ⋃ (h ← handlers; c ← categories; [category_issns w h (first_id_of c)]).

Definition issns_under_areas (w : World) (handlers : list QueryHandler)
    (area_ids : list string) : gset Sql.cell :=
  ⋃ (h ← handlers; a ← area_ids; [area_issns w h a]).

(** A journal passes the filtering loop of the last two methods: it
    carries an identifier, and [allowed] accepts the first one. *)
Definition kept (allowed : string → bool) (journal : Journal.t) : bool :=
  match getIds journal with
  | journal_issn :: _ => Py.truthy journal_issn && allowed journal_issn
  | [] => false
  end.

(** In the diamond query: the first identifier is in every filter set that
    is not [None]. *)
Definition survives (area_filter category_filter : option (gset Sql.cell))
    (journal : Journal.t) : bool :=
  kept (λ journal_issn, passes area_filter journal_issn
                        && passes category_filter journal_issn) journal.

(** Every journal of a merge map that carries identifiers carries exactly
    its key. *)
Definition keyed_by_id (m : list (string * Journal.t)) : Prop :=
  Forall (λ kj, getIds kj.2 = [kj.1] ∨ getIds kj.2 = []) m.

(** The first identifiers of the journals that have one. *)
Definition first_ids (journals : list Journal.t) : list string :=
  omap (λ j, head (getIds j)) journals.

(** A pattern step that keeps the [?journal] binding and yields at least
    one solution. *)
Definition step_keeps (u : string)
    (step : Graph.binding → list Graph.binding) : Prop :=
  ∀ b, b !! "journal"%string = Some u →
       step b ≠ [] ∧ ∀ b', b' ∈ step b → b' !! "journal"%string = Some u.

(** *** Notions for the batched fetch *)

(** The key a row gets from one of its three candidate columns. *)
Definition row_key (row : Row) : option string :=
  first_candidate row ["issn"; "eissn"; "journal"]%string.

(** What merging one more row makes of the entry under that row's key. *)
Definition merge_row (existing : option Journal.t) (row : Row)
    : option Journal.t :=
  Some (match existing with
        | Some journal => _update_journal_from_row journal row
        | None => default Journal.new (_dataframe_to_journal row)
        end).

(** The cell of a row as the engine reads it: a cell without value counts
    for nothing, whether it is absent, [None] or [nan]. *)
Definition effective (row : Row) (c : string) : option value :=
  if _has_value (row_get row c) then Some (row_get row c) else None.

Definition same_cells (row row' : Row) : Prop :=
  ∀ c, effective row c = effective row' c.

(** The row of a solution, in a frame of its own. *)
Definition binding_row (b : Graph.binding) : Row := VStr <$> b.

(** An identifier as the upload handler would write it: not blank and
    without blanks around it. *)
Definition clean_id (s : string) : Prop :=
  Py.strip s = s ∧ s ≠ ""%string.

Definition clean_store (store : list Graph.node) : Prop :=
  ∀ n, n ∈ store →
       Forall clean_id (Graph.issn n) ∧ Forall clean_id (Graph.eissn n).

Definition clean_world (w : World) (handlers : list QueryHandler) : Prop :=
  ∀ h store,
    h ∈ handlers → endpoint w (_dbPathOrUrl h) = Some store →
    clean_store store.

(** The rows with which a store describes the journal identified by [k],
    in the order of the store's answers. *)
Definition rows_about (store : list Graph.node) (k : string) : list Row :=
  binding_row <$>
    sorted_by Graph.title_leb
      (Graph.project <$>
         filter (λ b, Graph.anyId b = Some k)
           (store ≫= Graph.solutions Graph.AllJournals)).

(** What the answers of one handler about [k] make of the entry of [k];
    a handler whose endpoint cannot be reached leaves it alone. *)
Definition merged_from (w : World) (handler : QueryHandler) (k : string)
    (existing : option Journal.t) : option Journal.t :=
  match endpoint w (_dbPathOrUrl handler) with
  | Some store => foldl merge_row existing (rows_about store k)
  | None => existing
  end.

(** The journals a method merges from the frames that [f] gives, handler
    after handler in registration order. *)
Definition merged_journals (self : BasicQueryEngine)
    (f : QueryHandler → DataFrame) : list Journal.t :=
  od_values
    (foldl (λ m h, _collect_journals (f h) m) [] (_journalQuery self)).

(** The frame [getJournalsWithLicense] obtains for a set of licences. *)
Definition journals_with_license_answer (w : World) (self : QueryHandler)
    (licenses : gset string) : DataFrame :=
  if bool_decide (licenses = ∅) then sparql_answer w self Graph.AllJournals
  else
    let escaped := filter (λ license, Py.truthy license) (elements licenses) in
    if bool_decide (escaped = []) then []
    else sparql_answer w self (Graph.WithLicense escaped).

(** The engine without the classification handlers whose database cannot
    be read. *)
Definition readable (w : World) (h : QueryHandler) : bool :=
  bool_decide (is_Some (database w (_dbPathOrUrl h))).

Definition without_unreadable (w : World) (self : BasicQueryEngine)
    : BasicQueryEngine :=
  mk_engine (_journalQuery self)
    (filter (λ h, readable w h) (_categoryQuery self)).

(** *** Notions for the results of the engine *)

(** Whatever a computation answers satisfies [P]. *)
Definition ensures {A : Type} (m : M A) (P : A → Prop) : Prop :=
  ∀ tr a tr', m tr = (Ok a, tr') → P a.

(** A computation that always answers, with a value that satisfies [P]. *)
Definition answers_with {A : Type} (m : M A) (P : A → Prop) : Prop :=
  ∀ tr, ∃ a tr', m tr = (Ok a, tr') ∧ P a.

(** The row shows the text [v] in the column [c]. *)
Definition shows (row : Row) (c : string) (v : string) : Prop :=
  row_get row c = VStr v.

(** The row shows no text in the column [c]. *)
Definition blank (row : Row) (c : string) : Prop :=
  ∀ v, row_get row c ≠ VStr v.

(** [text] occurs in [v], letter case apart. *)
Definition occurs_in (text v : string) : Prop :=
  Py.contains (Py.lower text) (Py.lower v) = true.

(** No identifier is the first identifier of two journals of the list, and
    every journal has at most one identifier, never the empty string. *)
Definition one_id_each (journals : list Journal.t) : Prop :=
  NoDup (first_ids journals)
  ∧ Forall (λ j, length (getIds j) ≤ 1 ∧ ""%string ∉ getIds j) journals.

(** The invariant of the merge map of journals. *)
Definition merge_map_ok (m : list (string * Journal.t)) : Prop :=
  keyed_by_id m ∧ NoDup (od_keys m)
  ∧ Forall (λ kj, Py.truthy kj.1 = true) m.

(** *** Notions for the merge of categories and areas *)

(** The identifier and the quartile that [_dataframe_to_category] and
    [_dataframe_to_area] find in a row. *)
Definition row_id (row : Row) : option string :=
  if _has_value (row_get row "id") then Some (str_strip (row_get row "id"))
  else None.

Definition row_quartile (row : Row) : option string :=
  if _has_value (row_get row "quartile")
  then Some (str_strip (row_get row "quartile"))
  else None.

(** The first quartile among the rows with the identifier [k]. *)
Definition first_quartile (k : string) (rows : list Row) : option string :=
  head (omap row_quartile (filter (λ row, row_id row = Some k) rows)).

(** The elements of a list, each once, in the order in which they first
    occur. *)
Definition distinct_in_order {A : Type} `{EqDecision A} (l : list A)
    : list A :=
  foldl (λ seen x, if bool_decide (x ∈ seen) then seen else seen ++ [x]) [] l.

(** Every handler of the list answers the frame [f] says. *)
Definition all_answer (handlers : list QueryHandler)
    (query : QueryHandler → M DataFrame) (f : QueryHandler → DataFrame)
    : Prop :=
  Forall (λ handler, ∀ tr, ∃ tr', query handler tr = (Ok (f handler), tr'))
    handlers.

(** *** String literals of SPARQL

    The text between the double quotes of a string literal
    ([STRING_LITERAL2]) is made of characters other than the double quote,
    the backslash, the line feed and the carriage return, and of escape
    sequences: a backslash followed by one of [t b n r f], a backslash, a
    double quote or an apostrophe. *)

(** The character an escape sequence denotes, by the character after the
    backslash. *)
Definition echar (a : ascii) : option ascii :=
  if bool_decide (a = "t"%char) then Some "009"%char
  else if bool_decide (a = "b"%char) then Some "008"%char
  else if bool_decide (a = "n"%char) then Some "010"%char
  else if bool_decide (a = "r"%char) then Some "013"%char
  else if bool_decide (a = "f"%char) then Some "012"%char
  else if bool_decide (a = backslash_char) then Some backslash_char
  else if bool_decide (a = quote_char) then Some quote_char
  else if bool_decide (a = "039"%char) then Some "039"%char
  else None.

(** The string that the text of a literal denotes; [None] when the text is
    not the text of one literal, as when a double quote in it ends the
    literal early. *)
Fixpoint unescape (s : string) : option string :=
  match s with
  | EmptyString => Some EmptyString
  | String a rest =>
      if bool_decide (a = backslash_char) then
        match rest with
        | String e rest' =>
            match echar e, unescape rest' with
            | Some c, Some s' => Some (String c s')
            | _, _ => None
            end
        | EmptyString => None
        end
      else if bool_decide (a = quote_char) || bool_decide (a = "010"%char)
              || bool_decide (a = "013"%char)
      then None
      else String a <$> unescape rest
  end.

(** *** Notions for the entity objects *)

(** A sequence of [addCategory] or [addArea] calls on one journal, each
    with an entity or with [None]. *)
Definition add_all
    (add : option Objects.loc → Objects.object → Objects.heap
           → option Objects.heap)
    (self : Objects.object) (calls : list (option Objects.loc))
    (h : Objects.heap) : option Objects.heap :=
  foldl (λ oh x, oh ≫= add x self) (Some h) calls.

(** *** Notions for the upload into the relational store *)

(** No two rows of the table have the same primary key. *)
Definition conflict_free {A : Type} (conflict : A → A → bool)
    (table : list A) : Prop :=
  ∀ i j a b,
    table !! i = Some a → table !! j = Some b → i ≠ j → conflict a b = false.

Definition keys_ok (d : Sql.db) : Prop :=
  conflict_free Sql.area_conflict (Sql.areas d)
  ∧ conflict_free Sql.category_conflict (Sql.categories d)
  ∧ conflict_free Sql.journal_category_conflict (Sql.journal_categories d)
  ∧ conflict_free Sql.journal_area_conflict (Sql.journal_areas d).

(** The identifiers of the entries of a file that list the category [c],
    respectively the area [a]. *)
Definition uploaded_under_category (scimago_data : list Scimago.entry)
    (c : string) : gset Sql.cell :=
  list_to_set
    (entry ← scimago_data;
     if bool_decide (Some c ∈ Scimago.id <$> Scimago.categories entry)
     then Scimago.identifiers entry else []).

Definition uploaded_under_area (scimago_data : list Scimago.entry)
    (a : string) : gset Sql.cell :=
  list_to_set
    (entry ← scimago_data;
     if bool_decide (Some a ∈ Scimago.areas entry)
     then Scimago.identifiers entry else []).

(** The categories of a file as rows, in the order of the file. *)
Definition uploaded_categories (scimago_data : list Scimago.entry)
    : list Sql.category :=
  entry ← scimago_data;
  (λ c, Sql.mk_category (Scimago.id c) (Scimago.quartile c))
    <$> Scimago.categories entry.

(** Some identifier, not [null], is listed by an entry of the file with
    the category [c] and by an entry with the area [a]. *)
Definition share_identifier (scimago_data : list Scimago.entry)
    (c a : string) : Prop :=
  ∃ i : string,
    Some i ∈ uploaded_under_category scimago_data c
    ∧ Some i ∈ uploaded_under_area scimago_data a.

(** ** Example data

    Concrete stores, engines and objects on which the properties below are
    exercised. *)

Module Ex.
Import Objects.

(** A journal object and a store holding its four lists. *)
Definition journal_object : object := OJournal 1 2 3 4.
Definition journal_heap : heap :=
  {[ 1%positive := [IStr "1111"]; 2%positive := [IStr "en"];
     3%positive := []; 4%positive := [] ]}.

(** Two rows of one frame of the graph store, describing the journal at
    one IRI in two languages; neither has an ISSN or an EISSN. *)
Definition row_en : Row :=
  {[ "journal"%string := VStr "http://doaj.org/journal/x";
     "title"%string := VStr "X"; "language"%string := VStr "en";
     "issn"%string := VNaN; "eissn"%string := VNaN ]}.
Definition row_fr : Row :=
  {[ "journal"%string := VStr "http://doaj.org/journal/x";
     "title"%string := VStr "X"; "language"%string := VStr "fr";
     "issn"%string := VNaN; "eissn"%string := VNaN ]}.

(** Two rows with the ISSN 1111, as two handlers may return them. *)
Definition row_1111_a : Row :=
  {[ "issn"%string := VStr "1111"; "title"%string := VStr "X";
     "language"%string := VStr "en"; "apc"%string := VStr "True" ]}.
Definition row_1111_b : Row :=
  {[ "issn"%string := VStr "1111"; "title"%string := VStr "Y";
     "publisher"%string := VStr "ACME"; "language"%string := VStr "fr";
     "apc"%string := VStr "False" ]}.

(** A relational store in which the journal 1111 is filed under the
    category C1. *)
Definition db_2 : Sql.db :=
  Sql.mk_db [Some "A1"] [Sql.mk_category (Some "C1") (Some "Q1")]
    [Sql.mk_journal_category (Some "1111") (Some "C1") (Some "Q1")] [].
(** A graph store with one journal, and a relational store with one
    category and one area, neither linked to the journal. *)
Definition node_1111 : Graph.node :=
  Graph.mk_node "http://doaj.org/journal/1111" ["X"] ["1111"] [] ["en"]
    ["ACME"] ["True"] ["CC BY"] ["False"].
Definition db_1 : Sql.db :=
  Sql.mk_db [Some "A1"] [Sql.mk_category (Some "C1") (Some "Q1")] [] [].
Definition world_1 : World :=
  mk_world (λ url, if decide (url = "graph"%string) then Some [node_1111]
                   else None)
           (λ path, if decide (path = "rel.db"%string) then Some db_1
                    else None).
Definition graph_handler : QueryHandler := mk_handler 1 "graph".
Definition sql_handler : QueryHandler := mk_handler 2 "rel.db".
(** A classification handler whose path holds no database. *)
Definition broken_handler : QueryHandler := mk_handler 3 "missing.db".
Definition engine_1 : BasicQueryEngine :=
  mk_engine [graph_handler] [sql_handler].
(** A graph store whose only journal has neither ISSN nor EISSN, and a
    relational store without any category. *)
Definition node_anonymous : Graph.node :=
  Graph.mk_node "http://doaj.org/journal/x" ["X"] [] [] ["en"] [] ["False"]
    ["CC BY"] ["False"].
Definition world_3 : World :=
  mk_world (λ url, if decide (url = "graph"%string) then Some [node_anonymous]
                   else None)
           (λ path, if decide (path = "rel.db"%string)
                    then Some (Sql.mk_db [] [] [] []) else None).
(** Two journals filed under the Q1 category C1, the second with an APC. *)
Definition node_2222 : Graph.node :=
  Graph.mk_node "http://doaj.org/journal/2222" ["Y"] ["2222"] [] ["fr"]
    [] ["False"] ["CC BY"] ["True"].
Definition world_4 : World :=
  mk_world (λ url, if decide (url = "graph"%string)
                   then Some [node_1111; node_2222] else None)
           (λ path, if decide (path = "rel.db"%string)
                    then Some
                           (Sql.mk_db []
                              [Sql.mk_category (Some "C1") (Some "Q1")]
                              [Sql.mk_journal_category (Some "1111")
                                 (Some "C1") (Some "Q1");
                               Sql.mk_journal_category (Some "2222")
                                 (Some "C1") (Some "Q1")] [])
                    else None).
Definition world_2 : World :=
  mk_world (endpoint world_1)
           (λ path, if decide (path = "rel.db"%string) then Some db_2
                    else None).
(** The same engine with the broken handler registered after the good
    one. *)
Definition engine_broken : BasicQueryEngine :=
  mk_engine [graph_handler] [sql_handler; broken_handler].
(** Fifty-one identifiers for the batched fetch: the fifty identifiers 00,
    01, ..., 049, which all sort before 1, and 1 itself; and the same with
    the identifier 1 preceded by a blank in the place of 049. *)
Definition padded (n : nat) : list string :=
  (λ i, "0" +:+ pretty i) <$> seq 0 n.
Definition ids_51 : gset Sql.cell :=
  list_to_set (Some <$> (padded 50 ++ ["1"%string])).
Definition ids_51_blank : gset Sql.cell :=
  list_to_set (Some <$> (" 1"%string :: padded 49 ++ ["1"%string])).
(** The journal 00 with the title B, the journal 1 with the title A, and a
    journal with the title C whose ISSN was stored as 1 after a blank. *)
Definition node_00 : Graph.node :=
  Graph.mk_node "http://doaj.org/journal/00" ["B"] ["00"] [] [] [] [] [] [].
Definition node_1 : Graph.node :=
  Graph.mk_node "http://doaj.org/journal/1" ["A"] ["1"] [] [] [] [] [] [].
Definition node_blank : Graph.node :=
  Graph.mk_node "http://doaj.org/journal/blank" ["C"] [" 1"] [] [] [] [] []
    [].
Definition world_5 : World :=
  mk_world (λ url, if decide (url = "graph"%string)
                   then Some [node_00; node_1] else None)
           (λ _, None).
Definition world_6 : World :=
  mk_world (λ url, if decide (url = "graph"%string)
                   then Some [node_00; node_1; node_blank] else None)
           (λ _, None).
(** The engine with the broken handler registered before the good one. *)
Definition engine_broken_first : BasicQueryEngine :=
  mk_engine [graph_handler] [broken_handler; sql_handler].
(** A Scimago entry whose first category has no [id], and the relational
    store an upload of that entry creates: the store of [world_2] with one
    more category of the quartile Q1, whose identifier is [NULL]. *)
Definition scimago_entry_5 : Scimago.entry :=
  Scimago.mk_entry [Some "1111"]
    [Scimago.mk_category None (Some "Q1");
     Scimago.mk_category (Some "C1") (Some "Q1")]
    [Some "A1"].
Definition db_5 : Sql.db :=
  Sql.mk_db [Some "A1"]
    [Sql.mk_category None (Some "Q1"); Sql.mk_category (Some "C1") (Some "Q1")]
    [Sql.mk_journal_category (Some "1111") None (Some "Q1");
     Sql.mk_journal_category (Some "1111") (Some "C1") (Some "Q1")]
    [Sql.mk_journal_area (Some "1111") (Some "A1")].
Definition world_8 : World :=
  mk_world (endpoint world_1)
           (λ path, if decide (path = "rel.db"%string) then Some db_5
                    else None).
(** Two relational stores: in the first the category C1 has no quartile,
    in the second it has the quartile Q1; the area A2 is in both. *)
Definition db_3 : Sql.db :=
  Sql.mk_db [Some "A1"; Some "A2"]
    [Sql.mk_category (Some "C1") None; Sql.mk_category (Some "C2") (Some "Q2")]
    [] [].
Definition db_4 : Sql.db :=
  Sql.mk_db [Some "A2"; Some "A3"] [Sql.mk_category (Some "C1") (Some "Q1")]
    [] [].
Definition world_7 : World :=
  mk_world (λ _, None)
           (λ path, if decide (path = "rel.db"%string) then Some db_3
                    else if decide (path = "rel2.db"%string) then Some db_4
                    else None).
Definition sql_handler_2 : QueryHandler := mk_handler 4 "rel2.db".
Definition engine_2 : BasicQueryEngine :=
  mk_engine [graph_handler] [sql_handler; sql_handler_2].
(** The store of [journal_heap] with one more list, held by a caller. *)
Definition caller_heap : Objects.heap :=
  <[5%positive := [Objects.IStr "en"; Objects.IStr "fr"]]> journal_heap.
(** A Scimago file of two entries that both list the category C1, with
    different quartiles, and the area A1. *)
Definition scimago_sample : list Scimago.entry :=
  [Scimago.mk_entry [Some "1111"; Some "2222"]
     [Scimago.mk_category (Some "C1") (Some "Q1");
      Scimago.mk_category (Some "C2") (Some "Q2")]
     [Some "A1"];
   Scimago.mk_entry [Some "3333"]
     [Scimago.mk_category (Some "C1") (Some "Q3")]
     [Some "A1"; Some "A2"]]%string.
(** A handler at a path where there is no database yet. *)
Definition new_handler : QueryHandler := mk_handler 5 "new.db".
End Ex.

(** * Properties *)

(** ** Identifiers of an entity *)

Section identifiable_facts.
Context `{IdentifiableEntity E}.

Lemma truthy_true (s : string) : Py.truthy s = true ↔ s ≠ ""%string.
Proof. unfold Py.truthy. by rewrite bool_decide_eq_true. Qed.

Lemma truthy_false (s : string) : Py.truthy s = false ↔ s = ""%string.
Proof.
  unfold Py.truthy. rewrite bool_decide_eq_false.
  destruct (decide (s = ""%string)); naive_solver.
Qed.

Lemma getIds_addId (entity_id : string) (self : E) :
  getIds (addId entity_id self) =
    if Py.truthy entity_id && bool_decide (entity_id ∉ getIds self)
    then getIds self ++ [entity_id] else getIds self.
Proof.
  unfold addId, getIds.
  destruct (Py.truthy entity_id && _); [apply ids_with_ids | done].
Qed.

Lemma getIds_setId (entity_id : string) (self : E) :
  getIds (setId entity_id self) =
    if Py.truthy entity_id then [entity_id] else [].
Proof. unfold setId, getIds. apply ids_with_ids. Qed.

Lemma ids_ok_new : ids_ok new_entity.
Proof.
  unfold ids_ok, getIds. rewrite ids_new. split; [constructor | set_solver].
Qed.

Lemma ids_ok_addId (entity_id : string) (self : E) :
  ids_ok self → ids_ok (addId entity_id self).
Proof.
  intros [Hnd Hne]. unfold ids_ok. rewrite getIds_addId.
  destruct (Py.truthy entity_id) eqn:Ht; simpl; [|done].
  case_bool_decide as Hin; [|done].
  apply truthy_true in Ht. split.
  - apply NoDup_app. repeat split; [done | | apply NoDup_singleton].
    intros x Hx Hx'. apply list_elem_of_singleton in Hx'. by subst.
  - rewrite elem_of_app, list_elem_of_singleton. intros [? | ?]; done.
Qed.

Lemma ids_ok_setId (entity_id : string) (self : E) :
  ids_ok (setId entity_id self).
Proof.
  unfold ids_ok. rewrite getIds_setId.
  destruct (Py.truthy entity_id) eqn:Ht.
  - apply truthy_true in Ht. split; [apply NoDup_singleton|].
    rewrite list_elem_of_singleton. naive_solver.
  - split; [constructor | set_solver].
Qed.

Lemma ids_ok_run (cs : list id_call) (self : E) :
  ids_ok self → ids_ok (run_id_calls self cs).
Proof.
  revert self. induction cs as [|c cs IH]; intros self Hok; [done|].
  simpl. apply IH. destruct c; simpl;
    [by apply ids_ok_addId | apply ids_ok_setId].
Qed.

(** C9. Whatever [addId]/[setId] calls a freshly constructed entity has
    received, its identifier list holds no empty string and no duplicate;
    [addId] of an empty or already present identifier changes nothing,
    [addId] of a new non-empty identifier appends it after the existing
    ones, and [setId] leaves exactly the given identifier, or none when it
    is empty. *)
Theorem identifiers_never_empty_nor_duplicated
    (cs : list id_call) (entity_id : string) :
  NoDup (getIds (run_id_calls new_entity cs))
  ∧ (""%string ∉ getIds (run_id_calls new_entity cs))
  ∧ ((entity_id = ""%string
      ∨ entity_id ∈ getIds (run_id_calls new_entity cs))
     → addId entity_id (run_id_calls new_entity cs)
       = run_id_calls new_entity cs)
  ∧ (entity_id ≠ ""%string
     → entity_id ∉ getIds (run_id_calls new_entity cs)
     → getIds (addId entity_id (run_id_calls new_entity cs))
       = getIds (run_id_calls new_entity cs) ++ [entity_id])
  ∧ getIds (setId entity_id (run_id_calls new_entity cs))
    = (if decide (entity_id = ""%string) then [] else [entity_id])
  ∧ length (getIds (setId entity_id (run_id_calls new_entity cs))) ≤ 1.
Proof.
  destruct (ids_ok_run cs new_entity ids_ok_new) as [Hnd Hne].
  split_and!; [done | done | | | |].
  - intros Hcase. unfold addId.
    destruct (Py.truthy entity_id) eqn:Ht; simpl; [|done].
    apply truthy_true in Ht. destruct Hcase as [-> | Hin]; [done|].
    by rewrite bool_decide_eq_false_2 by (unfold getIds in Hin; naive_solver).
  - intros Hs Hnin. rewrite getIds_addId.
    apply truthy_true in Hs. rewrite Hs. simpl.
    by rewrite bool_decide_eq_true_2.
  - rewrite getIds_setId. destruct (decide (entity_id = ""%string)) as [->|Hs];
      [done|]. apply truthy_true in Hs. by rewrite Hs.
  - rewrite getIds_setId. destruct (Py.truthy entity_id); simpl; lia.
Qed.
End identifiable_facts.

(** ** Registration of handlers *)

Lemma entries_of_app (handler : QueryHandler) (l1 l2 : list QueryHandler) :
  entries_of handler (l1 ++ l2) = entries_of handler l1 + entries_of handler l2.
Proof. unfold entries_of. by rewrite filter_app, length_app. Qed.

Lemma entries_of_absent (handler : QueryHandler) (l : list QueryHandler) :
  oid handler ∉ oid <$> l → entries_of handler l = 0.
Proof.
  unfold entries_of. induction l as [|h l IH]; intros Hnin; [done|].
  rewrite fmap_cons, not_elem_of_cons in Hnin. destruct Hnin as [Hne Hnin].
  rewrite filter_cons_False by congruence. by apply IH.
Qed.

Lemma entries_of_present (handler : QueryHandler) (l : list QueryHandler) :
  NoDup (oid <$> l) → oid handler ∈ oid <$> l → entries_of handler l = 1.
Proof.
  induction l as [|h l IH]; intros Hnd Hin; [by apply elem_of_nil in Hin|].
  rewrite fmap_cons in Hnd, Hin. apply NoDup_cons in Hnd as [Hh Hnd].
  unfold entries_of. destruct (decide (oid h = oid handler)) as [Heq|Hne].
  - rewrite filter_cons_True by done. simpl. f_equal.
    apply (entries_of_absent handler l). by rewrite <- Heq.
  - rewrite filter_cons_False by done. apply IH; [done|].
    apply elem_of_cons in Hin as [Hin|Hin]; [congruence | done].
Qed.

Lemma NoDup_snoc_oid (h : QueryHandler) (l : list QueryHandler) :
  NoDup (oid <$> l) → handler_in h l = false → NoDup (oid <$> (l ++ [h])).
Proof.
  intros Hnd Hin. apply bool_decide_eq_false in Hin.
  rewrite fmap_app. apply NoDup_app. split_and!; [done | | apply NoDup_singleton].
  intros x Hx Hx'. apply list_elem_of_singleton in Hx'. by subst.
Qed.

Lemma registry_ok_call (self : BasicQueryEngine) (c : registry_call) :
  registry_ok self → registry_ok (run_registry_call self c).1.
Proof.
  intros [Hj Hc]. destruct c as [[h|] | [h|] | |]; simpl; try done.
  - destruct (handler_in h (_journalQuery self)) eqn:Hin; simpl; [done|].
    split; [by apply NoDup_snoc_oid | done].
  - destruct (handler_in h (_categoryQuery self)) eqn:Hin; simpl; [done|].
    split; [done | by apply NoDup_snoc_oid].
  - split; [constructor | done].
  - split; [done | constructor].
Qed.

Lemma registry_ok_run (cs : list registry_call) (self : BasicQueryEngine) :
  registry_ok self → registry_ok (run_registry_calls self cs).
Proof.
  revert self. induction cs as [|c cs IH]; intros self Hok; [done|].
  simpl. apply IH. by apply registry_ok_call.
Qed.

Lemma add_handler_once (h : QueryHandler) (l : list QueryHandler) :
  NoDup (oid <$> l) →
  entries_of h (if negb (handler_in h l) then l ++ [h] else l) = 1.
Proof.
  intros Hnd. destruct (handler_in h l) eqn:Hin; simpl.
  - apply entries_of_present; [done | by apply bool_decide_eq_true in Hin].
  - apply bool_decide_eq_false in Hin.
    rewrite entries_of_app, entries_of_absent by done.
    unfold entries_of. by rewrite filter_cons_True by done.
Qed.

(** C8. In every state the engine reaches through its registration methods,
    registering one handler object twice leaves exactly one entry for it in
    the collection concerned (the second call changes nothing), and every
    registration or clearing call reports success. *)
Theorem registering_twice_keeps_one_entry
    (cs : list registry_call) (handler : QueryHandler) (c : registry_call) :
  (addJournalHandler (Some handler) (run_registry_calls new_engine cs)).2 = true
  ∧ addJournalHandler (Some handler)
      (addJournalHandler (Some handler) (run_registry_calls new_engine cs)).1
    = ((addJournalHandler (Some handler)
          (run_registry_calls new_engine cs)).1, true)
  ∧ entries_of handler
      (_journalQuery
         (addJournalHandler (Some handler)
            (addJournalHandler (Some handler)
               (run_registry_calls new_engine cs)).1).1) = 1
  ∧ (addCategoryHandler (Some handler) (run_registry_calls new_engine cs)).2
    = true
  ∧ addCategoryHandler (Some handler)
      (addCategoryHandler (Some handler) (run_registry_calls new_engine cs)).1
    = ((addCategoryHandler (Some handler)
          (run_registry_calls new_engine cs)).1, true)
  ∧ entries_of handler
      (_categoryQuery
         (addCategoryHandler (Some handler)
            (addCategoryHandler (Some handler)
               (run_registry_calls new_engine cs)).1).1) = 1
  ∧ (run_registry_call (run_registry_calls new_engine cs) c).2 = true
  ∧ _journalQuery (cleanJournalHandlers (run_registry_calls new_engine cs)).1
    = []
  ∧ _categoryQuery (cleanCategoryHandlers (run_registry_calls new_engine cs)).1
    = [].
Proof.
  assert (registry_ok new_engine) as Hnew by (split; constructor).
  pose proof (registry_ok_run cs new_engine Hnew) as [Hj Hc].
  set (e := run_registry_calls new_engine cs) in *.
  assert (∀ l, handler_in handler (l ++ [handler]) = true) as Hsnoc.
  { intros l. apply bool_decide_eq_true. rewrite fmap_app. set_solver. }
  split_and!.
  - simpl. by destruct (handler_in handler (_journalQuery e)).
  - simpl. destruct (handler_in handler (_journalQuery e)) eqn:Hin; simpl.
    + by rewrite Hin.
    + by rewrite Hsnoc.
  - simpl. destruct (handler_in handler (_journalQuery e)) eqn:Hin; simpl.
    + rewrite Hin. simpl.
      apply entries_of_present; [done | by apply bool_decide_eq_true in Hin].
    + rewrite Hsnoc. simpl. pose proof (add_handler_once handler _ Hj) as H1.
      by rewrite Hin in H1.
  - simpl. by destruct (handler_in handler (_categoryQuery e)).
  - simpl. destruct (handler_in handler (_categoryQuery e)) eqn:Hin; simpl.
    + by rewrite Hin.
    + by rewrite Hsnoc.
  - simpl. destruct (handler_in handler (_categoryQuery e)) eqn:Hin; simpl.
    + rewrite Hin. simpl.
      apply entries_of_present; [done | by apply bool_decide_eq_true in Hin].
    + rewrite Hsnoc. simpl. pose proof (add_handler_once handler _ Hc) as H1.
      by rewrite Hin in H1.
  - destruct c as [[h|] | [h|] | |]; simpl; try done.
    + by destruct (handler_in h (_journalQuery e)).
    + by destruct (handler_in h (_categoryQuery e)).
  - done.
  - done.
Qed.

(** ** Accessors and aliasing *)

Section object_facts.
Import Objects.

Lemma list_copy_fresh (xs : loc) (h : heap) : (list_copy xs h).1 ∉ dom h.
Proof. apply is_fresh. Qed.

Lemma list_copy_elements (xs : loc) (h : heap) :
  elements_at (list_copy xs h).1 (list_copy xs h).2 = elements_at xs h.
Proof. unfold elements_at, list_copy. simpl. by rewrite lookup_insert_eq. Qed.

Lemma list_copy_other (xs l : loc) (h : heap) :
  l ∈ dom h → elements_at l (list_copy xs h).2 = elements_at l h.
Proof.
  intros Hl. unfold elements_at, list_copy. simpl.
  rewrite lookup_insert_ne; [done|].
  intros <-. by apply (is_fresh (dom h)).
Qed.

Lemma list_copy_dom (xs l : loc) (h : heap) :
  l ∈ dom h → l ∈ dom (list_copy xs h).2.
Proof. intros Hl. unfold list_copy. simpl. set_solver. Qed.

Lemma mutate_all_other (l l' : loc) (ms : list mutation) (h : heap) :
  l' ≠ l → elements_at l' (mutate_all l h ms) = elements_at l' h.
Proof.
  intros Hne. unfold mutate_all. revert h.
  induction ms as [|m ms IH]; intros h; [done|].
  simpl. rewrite IH. unfold elements_at, mutate.
  by rewrite lookup_alter_ne.
Qed.

Lemma mutate_all_dom (l l' : loc) (ms : list mutation) (h : heap) :
  l' ∈ dom h → l' ∈ dom (mutate_all l h ms).
Proof.
  unfold mutate_all. revert h.
  induction ms as [|m ms IH]; intros h Hl; [done|].
  simpl. apply IH. unfold mutate. by rewrite dom_alter_L.
Qed.

(** C10. Let an entity's list attributes be allocated. The list an
    accessor returns holds the elements of the attribute, and however the
    caller then mutates the returned list, every accessor called
    afterwards returns the elements the attribute had before. *)
Theorem accessors_return_copies
    (self : object) (h : heap) (acc acc' : accessor) (xs xs' : loc)
    (ms : list mutation) :
  allocated self h →
  attribute acc self = Some xs →
  attribute acc' self = Some xs' →
  ∃ r h1 r' h2,
    call acc self h = Some (r, h1)
    ∧ elements_at r h1 = elements_at xs h
    ∧ call acc' self (mutate_all r h1 ms) = Some (r', h2)
    ∧ elements_at r' h2 = elements_at xs' h.
Proof.
  intros Halloc Hacc Hacc'.
  pose proof (Halloc _ _ Hacc) as Hxs. pose proof (Halloc _ _ Hacc') as Hxs'.
  unfold call. rewrite Hacc, Hacc'.
  eexists _, _, _, _. split; [by rewrite <- surjective_pairing|].
  split; [apply list_copy_elements|].
  split; [by rewrite <- surjective_pairing|].
  rewrite list_copy_elements.
  rewrite mutate_all_other.
  - by apply list_copy_other.
  - intros ->. by apply (list_copy_fresh xs h).
Qed.

Lemma accessors_return_copies_witness :
  ∃ r h1 r' h2,
    call getLanguages Ex.journal_object Ex.journal_heap = Some (r, h1)
    ∧ elements_at r h1 = elements_at 2 Ex.journal_heap
    ∧ call getIds Ex.journal_object
        (mutate_all r h1 [Append (IStr "fr"); Reverse; Clear])
      = Some (r', h2)
    ∧ elements_at r' h2 = elements_at 1 Ex.journal_heap.
Proof.
  apply (accessors_return_copies Ex.journal_object Ex.journal_heap
           getLanguages getIds 2%positive 1%positive
           [Append (IStr "fr"); Reverse; Clear]).
  - intros acc xs Hxs. unfold Ex.journal_heap.
    destruct acc; simpl in Hxs; simplify_eq;
      rewrite !dom_insert_L; set_solver.
  - reflexivity.
  - reflexivity.
Defined.
End object_facts.

(** ** Insertion-ordered dictionaries *)

Section odict_facts.
Context {V : Type}.
Implicit Types (d : list (string * V)) (k : string) (v : V).

Lemma od_get_set k k' v d :
  od_get k (od_set k' v d) = if decide (k = k') then Some v else od_get k d.
Proof.
  induction d as [|[k0 v0] d IH]; simpl.
  - destruct (decide (k' = k)), (decide (k = k')); congruence.
  - destruct (decide (k0 = k')) as [->|Hne]; simpl.
    + destruct (decide (k' = k)), (decide (k = k')); congruence.
    + destruct (decide (k0 = k)) as [->|Hne'].
      * by rewrite decide_False.
      * done.
Qed.

Lemma od_get_None k d : od_get k d = None ↔ k ∉ od_keys d.
Proof.
  unfold od_keys. induction d as [|[k0 v0] d IH]; simpl.
  - split; [intros _; apply not_elem_of_nil | done].
  - rewrite not_elem_of_cons. destruct (decide (k0 = k)) as [->|Hne].
    + split; [done | intros [? _]; done].
    + rewrite IH. split; [intros ?; split; [by intros -> | done]|].
      by intros [_ ?].
Qed.

Lemma od_get_is_Some k d : is_Some (od_get k d) ↔ k ∈ od_keys d.
Proof.
  rewrite <- not_eq_None_Some, od_get_None.
  destruct (decide (k ∈ od_keys d)); naive_solver.
Qed.

Lemma od_keys_set k v d :
  od_keys (od_set k v d) =
    if bool_decide (k ∈ od_keys d) then od_keys d else od_keys d ++ [k].
Proof.
  unfold od_keys. induction d as [|[k0 v0] d IH]; cbn [od_set]; [done|].
  destruct (decide (k0 = k)) as [->|Hne]; rewrite !fmap_cons; cbn [fst].
  - by rewrite bool_decide_eq_true_2 by set_solver.
  - rewrite IH. case_bool_decide as Hin.
    + rewrite bool_decide_eq_true_2; [done|]. apply elem_of_cons. by right.
    + rewrite bool_decide_eq_false_2; [done|].
      rewrite elem_of_cons. intros [? | ?]; [congruence | done].
Qed.

Lemma od_set_NoDup k v d : NoDup (od_keys d) → NoDup (od_keys (od_set k v d)).
Proof.
  intros Hnd. rewrite od_keys_set. case_bool_decide as Hin; [done|].
  apply NoDup_app. split_and!; [done | | apply NoDup_singleton].
  intros x Hx Hx'. apply list_elem_of_singleton in Hx'. by subst.
Qed.

Lemma od_get_elem_of k v d :
  NoDup (od_keys d) → od_get k d = Some v ↔ (k, v) ∈ d.
Proof.
  unfold od_keys. induction d as [|[k0 v0] d IH]; simpl; intros Hnd.
  - split; [done | intros ?%elem_of_nil; done].
  - apply NoDup_cons in Hnd as [Hk0 Hnd]. rewrite elem_of_cons.
    destruct (decide (k0 = k)) as [->|Hne].
    + split; [intros [= ->]; by left|].
      intros [[= ->] | Hin]; [done|].
      exfalso. apply Hk0. apply list_elem_of_fmap. by exists (k, v).
    + rewrite IH by done. split; [by right|].
      intros [[= ? ?] | ?]; [congruence | done].
Qed.

(** Two dictionaries with the same bindings list the same values, up to
    the order of insertion. *)
Lemma od_values_Permutation d1 d2 :
  NoDup (od_keys d1) → NoDup (od_keys d2) →
  (∀ k, od_get k d1 = od_get k d2) →
  od_values d1 ≡ₚ od_values d2.
Proof.
  intros Hnd1 Hnd2 Hget. unfold od_values. apply fmap_Permutation.
  apply NoDup_Permutation.
  - eapply NoDup_fmap_1. exact Hnd1.
  - eapply NoDup_fmap_1. exact Hnd2.
  - intros [k v]. rewrite <- !od_get_elem_of by done. by rewrite Hget.
Qed.
End odict_facts.

(** ** The journal merge *)

Lemma str_strip_truthy (v : value) :
  _has_value v = true → Py.truthy (str_strip v) = true.
Proof. destruct v as [| |s|[|]]; simpl; done. Qed.

Lemma synthetic_key_truthy (idx : nat) : Py.truthy (synthetic_key idx) = true.
Proof. apply truthy_true. unfold synthetic_key. by cbv [String.app append]. Qed.

Lemma synthetic_key_inj (i j : nat) : synthetic_key i = synthetic_key j → i = j.
Proof.
  unfold synthetic_key. intros Heq. apply String.app_inj in Heq.
  by apply (inj pretty) in Heq.
Qed.

Lemma first_candidate_truthy (row : Row) (cs : list string) (k : string) :
  first_candidate row cs = Some k → Py.truthy k = true.
Proof.
  induction cs as [|c cs IH]; simpl; [done|].
  destruct (row_has row c && _has_value (row_get row c)) eqn:Hc; [|done].
  intros [= <-]. apply andb_true_iff in Hc as [_ Hv]. by apply str_strip_truthy.
Qed.

Lemma _get_journal_key_truthy (row : Row) (idx : nat) :
  Py.truthy (_get_journal_key row idx) = true.
Proof.
  unfold _get_journal_key.
  destruct (first_candidate row _) as [k|] eqn:Hk; simpl.
  - by eapply first_candidate_truthy.
  - apply synthetic_key_truthy.
Qed.

(** What one row does to the merge map. *)
Lemma collect_journal_row_eq (row : Row) (idx : nat)
    (target : list (string * Journal.t)) :
  collect_journal_row row idx target =
    od_set (_get_journal_key row idx)
      (match od_get (_get_journal_key row idx) target with
       | Some existing => _update_journal_from_row existing row
       | None => default Journal.new (_dataframe_to_journal row)
       end) target.
Proof.
  unfold collect_journal_row. rewrite _get_journal_key_truthy. simpl.
  by destruct (od_get _ target).
Qed.

Lemma collect_journal_row_get (row : Row) (idx : nat) (k : string)
    (target : list (string * Journal.t)) :
  od_get k (collect_journal_row row idx target) =
    if decide (k = _get_journal_key row idx)
    then Some (match od_get k target with
               | Some existing => _update_journal_from_row existing row
               | None => default Journal.new (_dataframe_to_journal row)
               end)
    else od_get k target.
Proof.
  rewrite collect_journal_row_eq, od_get_set.
  by destruct (decide (k = _ )) as [->|].
Qed.

Lemma collect_journal_row_NoDup (row : Row) (idx : nat)
    (target : list (string * Journal.t)) :
  NoDup (od_keys target) → NoDup (od_keys (collect_journal_row row idx target)).
Proof. rewrite collect_journal_row_eq. apply od_set_NoDup. Qed.

(** Each step changes its own attribute and no other. *)
Lemma merge_title_fields (journal : Journal.t) (row : Row) :
  Journal.getTitle (merge_title journal row) =
    (if Py.truthy (Journal.getTitle journal) then Journal.getTitle journal
     else if _has_value (row_get row "title")
          then str_strip (row_get row "title")
          else Journal.getTitle journal)
  ∧ Journal.getLanguages (merge_title journal row)
    = Journal.getLanguages journal
  ∧ Journal.getPublisher (merge_title journal row)
    = Journal.getPublisher journal
  ∧ Journal.hasDOASeal (merge_title journal row) = Journal.hasDOASeal journal
  ∧ Journal.getLicence (merge_title journal row) = Journal.getLicence journal
  ∧ Journal.hasAPC (merge_title journal row) = Journal.hasAPC journal
  ∧ getIds (merge_title journal row) = getIds journal.
Proof.
  unfold merge_title.
  by destruct (_has_value _), (Py.truthy (Journal.getTitle journal)).
Qed.

Lemma merge_language_fields (journal : Journal.t) (row : Row) :
  Journal.getTitle (merge_language journal row) = Journal.getTitle journal
  ∧ Journal.getLanguages (merge_language journal row) =
      (if _has_value (row_get row "language")
          && bool_decide (str_strip (row_get row "language")
                            ∉ Journal.getLanguages journal)
       then Journal.getLanguages journal
              ++ [str_strip (row_get row "language")]
       else Journal.getLanguages journal)
  ∧ Journal.getPublisher (merge_language journal row)
    = Journal.getPublisher journal
  ∧ Journal.hasDOASeal (merge_language journal row)
    = Journal.hasDOASeal journal
  ∧ Journal.getLicence (merge_language journal row)
    = Journal.getLicence journal
  ∧ Journal.hasAPC (merge_language journal row) = Journal.hasAPC journal
  ∧ getIds (merge_language journal row) = getIds journal.
Proof.
  unfold merge_language. cbv zeta.
  by destruct (_has_value _), (bool_decide _).
Qed.

Lemma merge_publisher_fields (journal : Journal.t) (row : Row) :
  Journal.getTitle (merge_publisher journal row) = Journal.getTitle journal
  ∧ Journal.getLanguages (merge_publisher journal row)
    = Journal.getLanguages journal
  ∧ Journal.getPublisher (merge_publisher journal row) =
      (if opt_truthy (Journal.getPublisher journal)
       then Journal.getPublisher journal
       else if _has_value (row_get row "publisher")
            then Some (str_strip (row_get row "publisher"))
            else Journal.getPublisher journal)
  ∧ Journal.hasDOASeal (merge_publisher journal row)
    = Journal.hasDOASeal journal
  ∧ Journal.getLicence (merge_publisher journal row)
    = Journal.getLicence journal
  ∧ Journal.hasAPC (merge_publisher journal row) = Journal.hasAPC journal
  ∧ getIds (merge_publisher journal row) = getIds journal.
Proof.
  unfold merge_publisher.
  by destruct (_has_value _), (opt_truthy (Journal.getPublisher journal)).
Qed.

Lemma merge_seal_fields (journal : Journal.t) (row : Row) :
  Journal.getTitle (merge_seal journal row) = Journal.getTitle journal
  ∧ Journal.getLanguages (merge_seal journal row)
    = Journal.getLanguages journal
  ∧ Journal.getPublisher (merge_seal journal row)
    = Journal.getPublisher journal
  ∧ Journal.hasDOASeal (merge_seal journal row) =
      (if _has_value (row_get row "seal") then _to_bool (row_get row "seal")
       else Journal.hasDOASeal journal)
  ∧ Journal.getLicence (merge_seal journal row) = Journal.getLicence journal
  ∧ Journal.hasAPC (merge_seal journal row) = Journal.hasAPC journal
  ∧ getIds (merge_seal journal row) = getIds journal.
Proof. unfold merge_seal. cbv zeta. by destruct (_has_value _). Qed.

Lemma merge_licence_fields (journal : Journal.t) (row : Row) :
  Journal.getTitle (merge_licence journal row) = Journal.getTitle journal
  ∧ Journal.getLanguages (merge_licence journal row)
    = Journal.getLanguages journal
  ∧ Journal.getPublisher (merge_licence journal row)
    = Journal.getPublisher journal
  ∧ Journal.hasDOASeal (merge_licence journal row)
    = Journal.hasDOASeal journal
  ∧ Journal.getLicence (merge_licence journal row) =
      (if Py.truthy (Journal.getLicence journal)
       then Journal.getLicence journal
       else if _has_value (row_get row "licence")
            then str_strip (row_get row "licence")
            else Journal.getLicence journal)
  ∧ Journal.hasAPC (merge_licence journal row) = Journal.hasAPC journal
  ∧ getIds (merge_licence journal row) = getIds journal.
Proof.
  unfold merge_licence. cbv zeta.
  by destruct (_has_value _), (Py.truthy (Journal.getLicence journal)).
Qed.

Lemma merge_apc_fields (journal : Journal.t) (row : Row) :
  Journal.getTitle (merge_apc journal row) = Journal.getTitle journal
  ∧ Journal.getLanguages (merge_apc journal row)
    = Journal.getLanguages journal
  ∧ Journal.getPublisher (merge_apc journal row)
    = Journal.getPublisher journal
  ∧ Journal.hasDOASeal (merge_apc journal row) = Journal.hasDOASeal journal
  ∧ Journal.getLicence (merge_apc journal row) = Journal.getLicence journal
  ∧ Journal.hasAPC (merge_apc journal row) =
      (if _has_value (row_get row "apc") then _to_bool (row_get row "apc")
       else Journal.hasAPC journal)
  ∧ getIds (merge_apc journal row) = getIds journal.
Proof. unfold merge_apc. cbv zeta. by destruct (_has_value _). Qed.

(** The fields of a journal after a row with its key has been merged in. *)
Lemma _update_journal_from_row_fields (journal : Journal.t) (row : Row) :
  Journal.getTitle (_update_journal_from_row journal row) =
    (if Py.truthy (Journal.getTitle journal) then Journal.getTitle journal
     else if _has_value (row_get row "title")
          then str_strip (row_get row "title")
          else Journal.getTitle journal)
  ∧ Journal.getLanguages (_update_journal_from_row journal row) =
      (if _has_value (row_get row "language")
          && bool_decide (str_strip (row_get row "language")
                            ∉ Journal.getLanguages journal)
       then Journal.getLanguages journal
              ++ [str_strip (row_get row "language")]
       else Journal.getLanguages journal)
  ∧ Journal.getPublisher (_update_journal_from_row journal row) =
      (if opt_truthy (Journal.getPublisher journal)
       then Journal.getPublisher journal
       else if _has_value (row_get row "publisher")
            then Some (str_strip (row_get row "publisher"))
            else Journal.getPublisher journal)
  ∧ Journal.hasDOASeal (_update_journal_from_row journal row) =
      (if _has_value (row_get row "seal") then _to_bool (row_get row "seal")
       else Journal.hasDOASeal journal)
  ∧ Journal.getLicence (_update_journal_from_row journal row) =
      (if Py.truthy (Journal.getLicence journal)
       then Journal.getLicence journal
       else if _has_value (row_get row "licence")
            then str_strip (row_get row "licence")
            else Journal.getLicence journal)
  ∧ Journal.hasAPC (_update_journal_from_row journal row) =
      (if _has_value (row_get row "apc") then _to_bool (row_get row "apc")
       else Journal.hasAPC journal)
  ∧ getIds (_update_journal_from_row journal row) = getIds journal.
Proof.
  unfold _update_journal_from_row. cbv zeta.
  set (j1 := merge_title journal row). set (j2 := merge_language j1 row).
  set (j3 := merge_publisher j2 row). set (j4 := merge_seal j3 row).
  set (j5 := merge_licence j4 row).
  destruct (merge_title_fields journal row) as (A1 & A2 & A3 & A4 & A5 & A6 & A7).
  destruct (merge_language_fields j1 row) as (B1 & B2 & B3 & B4 & B5 & B6 & B7).
  destruct (merge_publisher_fields j2 row) as (C1 & C2 & C3 & C4 & C5 & C6 & C7).
  destruct (merge_seal_fields j3 row) as (D1 & D2 & D3 & D4 & D5 & D6 & D7).
  destruct (merge_licence_fields j4 row) as (E1 & E2 & E3 & E4 & E5 & E6 & E7).
  destruct (merge_apc_fields j5 row) as (F1 & F2 & F3 & F4 & F5 & F6 & F7).
  fold j1 in A1, A2, A3, A4, A5, A6, A7.
  fold j2 in B1, B2, B3, B4, B5, B6, B7.
  fold j3 in C1, C2, C3, C4, C5, C6, C7.
  fold j4 in D1, D2, D3, D4, D5, D6, D7.
  fold j5 in E1, E2, E3, E4, E5, E6, E7.
  split_and!.
  - by rewrite F1, E1, D1, C1, B1, A1.
  - by rewrite F2, E2, D2, C2, B2, A2.
  - by rewrite F3, E3, D3, C3, B3, A3.
  - by rewrite F4, E4, D4, C4, B4, A4.
  - by rewrite F5, E5, D5, C5, B5, A5.
  - by rewrite F6, E6, D6, C6, B6, A6.
  - by rewrite F7, E7, D7, C7, B7, A7.
Qed.

Lemma first_wins_refl (j : Journal.t) : first_wins j j.
Proof. unfold first_wins. by split_and!. Qed.

Lemma first_wins_trans (j1 j2 j3 : Journal.t) :
  first_wins j1 j2 → first_wins j2 j3 → first_wins j1 j3.
Proof.
  intros (T1 & P1 & L1 & G1 & N1 & I1) (T2 & P2 & L2 & G2 & N2 & I2).
  unfold first_wins. split_and!.
  - intros Ht. rewrite <- (T1 Ht). apply T2. by rewrite (T1 Ht).
  - intros Hp. rewrite <- (P1 Hp). apply P2. by rewrite (P1 Hp).
  - intros Hl. rewrite <- (L1 Hl). apply L2. by rewrite (L1 Hl).
  - by etrans.
  - auto.
  - by rewrite I2.
Qed.

Lemma first_wins_update (journal : Journal.t) (row : Row) :
  first_wins journal (_update_journal_from_row journal row).
Proof.
  destruct (_update_journal_from_row_fields journal row)
    as (Ht & Hg & Hp & _ & Hl & _ & Hi).
  unfold first_wins. split_and!.
  - intros Hs. by rewrite Ht, Hs.
  - intros Hs. by rewrite Hp, Hs.
  - intros Hs. by rewrite Hl, Hs.
  - rewrite Hg. destruct (_ && _); [by apply prefix_app_r | done].
  - intros Hnd. rewrite Hg.
    destruct (_has_value (row_get row "language")); cbn [andb]; [|done].
    case_bool_decide as Hin; [|done].
    apply NoDup_app. split_and!; [done | | apply NoDup_singleton].
    intros x Hx Hx'. apply list_elem_of_singleton in Hx'. by subst.
  - done.
Qed.

(** Whatever rows follow, an entry of the merge map stays in the map and
    keeps what it has. *)
Lemma collect_journals_from_first_wins (rows : DataFrame) (idx : nat)
    (target : list (string * Journal.t)) (k : string) (j : Journal.t) :
  od_get k target = Some j →
  ∃ j', od_get k (collect_journals_from idx rows target) = Some j'
        ∧ first_wins j j'.
Proof.
  revert idx target j. induction rows as [|row rows IH];
    intros idx target j Hget; simpl.
  - exists j. split; [done | apply first_wins_refl].
  - pose proof (collect_journal_row_get row idx k target) as Hstep.
    rewrite Hget in Hstep.
    destruct (decide (k = _get_journal_key row idx)) as [Hk|Hk].
    + destruct (IH (S idx) _ _ Hstep) as (j' & Hj' & Hfw).
      exists j'. split; [done|].
      eapply first_wins_trans; [apply first_wins_update | done].
    + by apply IH.
Qed.

(** C1 (as amended). The merge map keys a row by its ISSN if that column is
    present and not blank, else by its EISSN likewise, else by its [journal]
    column likewise, else by a key made of the row's index in its frame,
    which no other index of that frame yields. When the key is already in
    the map, the row only updates the journal found there: title, publisher
    and licence are taken from the row only where the journal has none, the
    row's language is appended unless already listed, seal and APC are
    overwritten whenever the row has a value for them; and no later row
    changes a title, publisher or licence that is set, or removes or
    reorders a language. *)
Theorem journal_merge_rules
    (row : Row) (idx idx' : nat) (target : list (string * Journal.t))
    (existing : Journal.t) (rows : DataFrame) :
  _get_journal_key row idx =
    (if row_has row "issn" && _has_value (row_get row "issn")
     then str_strip (row_get row "issn")
     else if row_has row "eissn" && _has_value (row_get row "eissn")
     then str_strip (row_get row "eissn")
     else if row_has row "journal" && _has_value (row_get row "journal")
     then str_strip (row_get row "journal")
     else synthetic_key idx)
  ∧ (synthetic_key idx = synthetic_key idx' → idx = idx')
  ∧ (od_get (_get_journal_key row idx) target = Some existing →
     collect_journal_row row idx target =
       od_set (_get_journal_key row idx)
         (_update_journal_from_row existing row) target
     ∧ od_keys (collect_journal_row row idx target) = od_keys target
     ∧ Journal.getTitle (_update_journal_from_row existing row) =
         (if Py.truthy (Journal.getTitle existing)
          then Journal.getTitle existing
          else if _has_value (row_get row "title")
               then str_strip (row_get row "title")
               else Journal.getTitle existing)
     ∧ Journal.getPublisher (_update_journal_from_row existing row) =
         (if opt_truthy (Journal.getPublisher existing)
          then Journal.getPublisher existing
          else if _has_value (row_get row "publisher")
               then Some (str_strip (row_get row "publisher"))
               else Journal.getPublisher existing)
     ∧ Journal.getLicence (_update_journal_from_row existing row) =
         (if Py.truthy (Journal.getLicence existing)
          then Journal.getLicence existing
          else if _has_value (row_get row "licence")
               then str_strip (row_get row "licence")
               else Journal.getLicence existing)
     ∧ Journal.getLanguages (_update_journal_from_row existing row) =
         (if _has_value (row_get row "language")
             && bool_decide (str_strip (row_get row "language")
                               ∉ Journal.getLanguages existing)
          then Journal.getLanguages existing
                 ++ [str_strip (row_get row "language")]
          else Journal.getLanguages existing)
     ∧ Journal.hasDOASeal (_update_journal_from_row existing row) =
         (if _has_value (row_get row "seal")
          then _to_bool (row_get row "seal")
          else Journal.hasDOASeal existing)
     ∧ Journal.hasAPC (_update_journal_from_row existing row) =
         (if _has_value (row_get row "apc")
          then _to_bool (row_get row "apc")
          else Journal.hasAPC existing)
     ∧ ∃ final,
         od_get (_get_journal_key row idx)
           (collect_journals_from (S idx) rows
              (collect_journal_row row idx target)) = Some final
         ∧ first_wins (_update_journal_from_row existing row) final).
Proof.
  split_and!.
  - unfold _get_journal_key. simpl.
    by repeat destruct (row_has _ _ && _has_value _).
  - apply synthetic_key_inj.
  - intros Hget.
    destruct (_update_journal_from_row_fields existing row)
      as (Ht & Hg & Hp & Hs & Hl & Ha & _).
    assert (collect_journal_row row idx target =
              od_set (_get_journal_key row idx)
                (_update_journal_from_row existing row) target) as Hrow.
    { by rewrite collect_journal_row_eq, Hget. }
    split_and!; try done.
    + rewrite Hrow, od_keys_set. rewrite bool_decide_eq_true_2; [done|].
      apply od_get_is_Some. by rewrite Hget.
    + apply collect_journals_from_first_wins.
      by rewrite Hrow, od_get_set, decide_True.
Qed.

Lemma journal_merge_rules_witness :
  od_values (_collect_journals [Ex.row_1111_a; Ex.row_1111_b] []) =
    [Journal.mk ["1111"] "X" ["en"; "fr"] (Some "ACME") false "" false [] []].
Proof.
  pose proof (journal_merge_rules Ex.row_1111_b 1 1
                (collect_journal_row Ex.row_1111_a 0 [])
                (Journal.mk ["1111"] "X" ["en"] None false "" true [] []) [])
    as (_ & _ & Hrepeat).
  destruct (Hrepeat eq_refl) as (Hrow & _).
  unfold _collect_journals. simpl. rewrite Hrow. reflexivity.
Defined.

(** Two rows of one frame that carry neither ISSN nor EISSN get the same
    key, the IRI in their [journal] column, and are merged into one
    journal: the fallback key is not one that matches no other row. *)
Lemma fallback_key_shared_by_rows :
  _has_value (row_get Ex.row_en "issn") = false
  ∧ _has_value (row_get Ex.row_en "eissn") = false
  ∧ _has_value (row_get Ex.row_fr "issn") = false
  ∧ _has_value (row_get Ex.row_fr "eissn") = false
  ∧ _get_journal_key Ex.row_en 0 = _get_journal_key Ex.row_fr 1
  ∧ od_values (_collect_journals [Ex.row_en; Ex.row_fr] []) =
      [Journal.mk [] "X" ["en"; "fr"] None false "" false [] []].
Proof. vm_compute. repeat split. Qed.

(** ** Sorting keeps the elements *)

Lemma insert_sorted_Permutation {A : Type} (le : A → A → bool) (x : A)
    (l : list A) :
  insert_sorted le x l ≡ₚ x :: l.
Proof.
  induction l as [|y l IH]; simpl; [done|].
  destruct (le x y); [done|]. rewrite IH. apply Permutation_swap.
Qed.

Lemma sorted_by_Permutation {A : Type} (le : A → A → bool) (l : list A) :
  sorted_by le l ≡ₚ l.
Proof.
  induction l as [|x l IH]; simpl; [done|].
  by rewrite insert_sorted_Permutation, IH.
Qed.

(** ** Empty filter sets at the two store capabilities *)

Lemma bind_log {A : Type} (c : call) (k : M A) (tr : list call) :
  (log c ≫= λ _, k) tr = k (tr ++ [c]).
Proof. done. Qed.

Lemma to_frame_journal (bs : list Graph.binding) (b : Graph.binding)
    (u : string) :
  b ∈ bs → b !! "journal"%string = Some u →
  ∃ row, row ∈ Graph.to_frame bs ∧ row_get row "journal" = VStr u.
Proof.
  intros Hb Hu. eexists. split.
  - unfold Graph.to_frame. apply list_elem_of_fmap. by eexists.
  - unfold row_get. simpl. erewrite lookup_union_Some_l; [done|].
    by rewrite lookup_fmap, Hu.
Qed.

Lemma required_keeps (u var : string) (vals : list string) :
  var ≠ "journal"%string → vals ≠ [] →
  step_keeps u (Graph.required var vals).
Proof.
  intros Hvar Hvals b Hb. unfold Graph.required. split.
  - by destruct vals.
  - intros b' (v & -> & _)%list_elem_of_fmap. by rewrite lookup_insert_ne.
Qed.

Lemma optional_keeps (u var : string) (vals : list string) :
  var ≠ "journal"%string → step_keeps u (Graph.optional var vals).
Proof.
  intros Hvar. destruct vals as [|v vals].
  - intros b Hb. simpl. split; [done|].
    intros b' Hb'%list_elem_of_singleton. by subst.
  - by apply required_keeps.
Qed.

Lemma steps_keep (u : string)
    (steps : list (Graph.binding → list Graph.binding))
    (sols : list Graph.binding) :
  Forall (step_keeps u) steps →
  sols ≠ [] → (∀ b, b ∈ sols → b !! "journal"%string = Some u) →
  foldl (λ sols step, sols ≫= step) sols steps ≠ []
  ∧ ∀ b, b ∈ foldl (λ sols step, sols ≫= step) sols steps →
         b !! "journal"%string = Some u.
Proof.
  intros Hsteps. revert sols.
  induction Hsteps as [|step steps Hstep _ IH]; intros sols Hne Hall; [done|].
  simpl. apply IH.
  - destruct sols as [|b sols]; [done|]. simpl.
    destruct (Hstep b) as [Hb _]; [apply Hall; by left|].
    by destruct (step b).
  - intros b (b0 & Hb & Hb0)%list_elem_of_bind.
    destruct (Hstep b0) as [_ Hkeep]; [by apply Hall|]. by apply Hkeep.
Qed.

(** Every journal of the store that has a title is in the frame of
    [getAllJournals]. *)
Lemma all_journals_complete (store : list Graph.node) (n : Graph.node) :
  n ∈ store → Graph.title n ≠ [] →
  ∃ row, row ∈ Graph.to_frame (Graph.eval store Graph.AllJournals)
         ∧ row_get row "journal" = VStr (Graph.journal n).
Proof.
  intros Hn Ht.
  assert (Graph.solutions Graph.AllJournals n ≠ []
          ∧ ∀ b, b ∈ Graph.solutions Graph.AllJournals n →
                 b !! "journal"%string = Some (Graph.journal n)) as [Hne Hall].
  { unfold Graph.solutions, Graph.pattern. apply steps_keep.
    - repeat (constructor;
                [first [by apply required_keeps | by apply optional_keeps]|]).
      constructor.
    - done.
    - intros b Hb%list_elem_of_singleton. subst.
      by rewrite lookup_singleton_eq. }
  destruct (Graph.solutions Graph.AllJournals n) as [|b bs] eqn:Hsols; [done|].
  apply (to_frame_journal _ (Graph.project b)).
  - unfold Graph.eval. apply list_elem_of_fmap. exists b. split; [done|].
    simpl. rewrite sorted_by_Permutation. apply list_elem_of_bind.
    exists n. split; [|done]. rewrite Hsols. by left.
  - unfold Graph.project. apply map_lookup_filter_Some. split.
    + apply Hall. by left.
    + simpl. unfold Graph.selected. set_solver.
Qed.

Lemma distinct_by_id_elem_of {A : Type} `{EqDecision A} (id : A → Sql.cell)
    (rows : list A) (r : A) :
  r ∈ Sql.distinct_by_id id rows ↔ r ∈ rows.
Proof.
  unfold Sql.distinct_by_id.
  by rewrite sorted_by_Permutation, elem_of_remove_dups.
Qed.

(** C2 (as amended). With an empty set, [getJournalsWithLicense],
    [getCategoriesWithQuartile], [getCategoriesAssignedToAreas] and
    [getAreasAssignedToCategories] do exactly what the corresponding list-all
    method does, and that answer holds every category and area of the
    relational store and every titled journal of the graph store;
    [getByIds] and [getJournalsByIssns] with no identifier answer the empty
    frame without asking the store. *)
Theorem empty_filter_sets (w : World) (self : QueryHandler) (tr : list call) :
  JournalQueryHandler_getJournalsWithLicense w self ∅ tr
    = JournalQueryHandler_getAllJournals w self tr
  ∧ CategoryQueryHandler_getCategoriesWithQuartile w self ∅ tr
    = CategoryQueryHandler_getAllCategories w self tr
  ∧ CategoryQueryHandler_getCategoriesAssignedToAreas w self ∅ tr
    = CategoryQueryHandler_getAllCategories w self tr
  ∧ CategoryQueryHandler_getAreasAssignedToCategories w self ∅ tr
    = CategoryQueryHandler_getAllAreas w self tr
  ∧ JournalQueryHandler_getByIds w self [] tr = (Ok [], tr)
  ∧ JournalQueryHandler_getJournalsByIssns w self ∅ tr = (Ok [], tr)
  ∧ (∀ store n,
       endpoint w (_dbPathOrUrl self) = Some store →
       n ∈ store → Graph.title n ≠ [] →
       ∃ df tr' row,
         JournalQueryHandler_getJournalsWithLicense w self ∅ tr = (Ok df, tr')
         ∧ row ∈ df ∧ row_get row "journal" = VStr (Graph.journal n))
  ∧ (∀ d,
       database w (_dbPathOrUrl self) = Some d →
       ∃ categories areas tr',
         CategoryQueryHandler_getCategoriesWithQuartile w self ∅ tr
           = (Ok categories, tr')
         ∧ CategoryQueryHandler_getCategoriesAssignedToAreas w self ∅ tr
           = (Ok categories, tr')
         ∧ CategoryQueryHandler_getAreasAssignedToCategories w self ∅ tr
           = (Ok areas, tr ++ [SqlCall (_dbPathOrUrl self) Sql.AllAreas])
         ∧ (∀ c, c ∈ Sql.categories d → Sql.category_row c ∈ categories)
         ∧ (∀ a, a ∈ Sql.areas d → Sql.area_row a ∈ areas)).
Proof.
  split_and!; try done.
  - intros store n Hstore Hn Ht.
    destruct (all_journals_complete store n Hn Ht) as (row & Hrow & Hj).
    exists (Graph.to_frame (Graph.eval store Graph.AllJournals)),
      (tr ++ [SparqlCall (_dbPathOrUrl self) Graph.AllJournals]), row.
    split; [|done].
    unfold JournalQueryHandler_getJournalsWithLicense,
      JournalQueryHandler_getAllJournals, _execute_sparql_query.
    rewrite bool_decide_eq_true_2 by done. by rewrite bind_log, Hstore.
  - intros d Hd.
    exists (Sql.eval d Sql.AllCategories), (Sql.eval d Sql.AllAreas),
      (tr ++ [SqlCall (_dbPathOrUrl self) Sql.AllCategories]).
    unfold CategoryQueryHandler_getCategoriesWithQuartile,
      CategoryQueryHandler_getCategoriesAssignedToAreas,
      CategoryQueryHandler_getAreasAssignedToCategories, read_sql_query.
    rewrite !bool_decide_eq_true_2 by done. rewrite !bind_log, Hd.
    split_and!; try done.
    + intros c Hc. simpl. apply list_elem_of_fmap. exists c. split; [done|].
      by apply distinct_by_id_elem_of.
    + intros a Ha. simpl. apply list_elem_of_fmap. exists a. split; [done|].
      by apply distinct_by_id_elem_of.
Qed.

Lemma empty_filter_sets_witness :
  ∃ categories areas tr',
    CategoryQueryHandler_getCategoriesWithQuartile Ex.world_1 Ex.sql_handler
      ∅ [] = (Ok categories, tr')
    ∧ CategoryQueryHandler_getCategoriesAssignedToAreas Ex.world_1
        Ex.sql_handler ∅ [] = (Ok categories, tr')
    ∧ CategoryQueryHandler_getAreasAssignedToCategories Ex.world_1
        Ex.sql_handler ∅ []
      = (Ok areas, [] ++ [SqlCall (_dbPathOrUrl Ex.sql_handler) Sql.AllAreas])
    ∧ (∀ c, c ∈ Sql.categories Ex.db_1 → Sql.category_row c ∈ categories)
    ∧ (∀ a, a ∈ Sql.areas Ex.db_1 → Sql.area_row a ∈ areas).
Proof.
  destruct (empty_filter_sets Ex.world_1 Ex.sql_handler [])
    as (_ & _ & _ & _ & _ & _ & _ & Hsql).
  apply (Hsql Ex.db_1). reflexivity.
Defined.

(** [getByIds] with no identifier answers nothing, although the store
    holds a journal that [getAllJournals] returns: an empty identifier
    collection is "match nothing" there, not "no filter". *)
Lemma getByIds_empty_matches_nothing :
  JournalQueryHandler_getByIds Ex.world_1 Ex.graph_handler [] [] = (Ok [], [])
  ∧ JournalQueryHandler_getJournalsByIssns Ex.world_1 Ex.graph_handler ∅ []
    = (Ok [], [])
  ∧ length (from_option id []
              (match (JournalQueryHandler_getAllJournals Ex.world_1
                        Ex.graph_handler []).1 with
               | Ok df => Some df
               | Raise _ => None
               end)) = 1.
Proof. vm_compute. repeat split. Qed.

(** ** The monad of store calls *)

(** [run_in H]: in [H : m tr = r] with [m] and [tr] closed, run [m]. *)
Ltac run_in H :=
  match type of H with
  | ?m = _ =>
      let E := fresh "E" in
      eassert (m = _) as E by (vm_compute; reflexivity);
      rewrite E in H; clear E
  end.

Lemma bind_Ok {A B : Type} (m : M A) (f : A → M B) (tr tr' : list call)
    (a : A) :
  m tr = (Ok a, tr') → (m ≫= f) tr = f a tr'.
Proof. intros Hm. unfold mbind, M_bind. by rewrite Hm. Qed.

Lemma bind_Raise {A B : Type} (m : M A) (f : A → M B) (tr tr' : list call)
    (e : exn) :
  m tr = (Raise e, tr') → (m ≫= f) tr = (Raise e, tr').
Proof. intros Hm. unfold mbind, M_bind. by rewrite Hm. Qed.

Lemma try_except_Ok {A : Type} (body : M A) (handler : exn → M A)
    (tr tr' : list call) (a : A) :
  body tr = (Ok a, tr') → try_except body handler tr = (Ok a, tr').
Proof. intros Hm. unfold try_except. by rewrite Hm. Qed.

Lemma try_except_Raise {A : Type} (body : M A) (handler : exn → M A)
    (tr tr' : list call) (e : exn) :
  body tr = (Raise e, tr') → try_except body handler tr = handler e tr'.
Proof. intros Hm. unfold try_except. by rewrite Hm. Qed.

Lemma returns_mret {A : Type} (a : A) : returns (mret a).
Proof. intros tr. by exists a, tr. Qed.

Lemma returns_bind {A B : Type} (m : M A) (f : A → M B) :
  returns m → (∀ a, returns (f a)) → returns (m ≫= f).
Proof.
  intros Hm Hf tr. destruct (Hm tr) as (a & tr' & Ha).
  destruct (Hf a tr') as (b & tr'' & Hb). exists b, tr''.
  by rewrite (bind_Ok _ _ _ _ _ Ha).
Qed.

(** A [try] whose handler answers never lets an exception out. *)
Lemma returns_try_except {A : Type} (body : M A) (handler : exn → M A) :
  (∀ e, returns (handler e)) → returns (try_except body handler).
Proof.
  intros Hh tr. unfold try_except.
  destruct (body tr) as [[a|e] tr']; [by exists a, tr' | apply Hh].
Qed.

Lemma returns_get_many {V : Type} (handlers : list QueryHandler)
    (query : QueryHandler → M DataFrame)
    (collect : DataFrame → list (string * V) → list (string * V)) :
  returns (get_many handlers query collect).
Proof. apply returns_try_except. intros _. apply returns_mret. Qed.

Lemma _execute_sparql_query_eq (w : World) (self : QueryHandler)
    (q : Graph.query) (tr : list call) :
  _execute_sparql_query w self q tr =
    (Ok (sparql_answer w self q), tr ++ [SparqlCall (_dbPathOrUrl self) q]).
Proof. done. Qed.

Lemma read_sql_query_eq (w : World) (self : QueryHandler) (q : Sql.query)
    (tr : list call) :
  read_sql_query w self q tr =
    (match database w (_dbPathOrUrl self) with
     | Some d => Ok (Sql.eval d q)
     | None => Raise DatabaseError
     end, tr ++ [SqlCall (_dbPathOrUrl self) q]).
Proof.
  unfold read_sql_query. rewrite bind_log.
  by destruct (database w (_dbPathOrUrl self)).
Qed.

Lemma CategoryQueryHandler_getById_eq (w : World) (self : QueryHandler)
    (entity_id : string) (tr : list call) :
  ∃ tr',
    CategoryQueryHandler_getById w self entity_id tr =
      (match category_probe w self entity_id with
       | Some df => Ok df
       | None => Raise DatabaseError
       end, tr').
Proof.
  unfold CategoryQueryHandler_getById, category_probe, mbind, M_bind.
  rewrite read_sql_query_eq.
  destruct (database w (_dbPathOrUrl self)) as [d|] eqn:Hd; [|by eexists].
  destruct (df_empty (Sql.eval d (Sql.CategoryById entity_id))); simpl.
  - rewrite read_sql_query_eq, Hd. by eexists.
  - by eexists.
Qed.

(** Fanning out over handlers that all answer merges their frames in
    registration order. *)
Lemma fan_out_answers {V : Type} (handlers : list QueryHandler)
    (query : QueryHandler → M DataFrame) (f : QueryHandler → DataFrame)
    (collect : DataFrame → list (string * V) → list (string * V))
    (target : list (string * V)) (tr : list call) :
  answers query f →
  ∃ tr',
    fan_out handlers query collect target tr =
      (Ok (foldl (λ m h, collect (f h) m) target handlers), tr').
Proof.
  intros Hq. revert target tr.
  induction handlers as [|h hs IH]; intros target tr; simpl.
  - by exists tr.
  - destruct (Hq h tr) as (tr1 & Hh). rewrite (bind_Ok _ _ _ _ _ Hh).
    apply IH.
Qed.

(** Fanning out over handlers one of which raises, raises. *)
Lemma fan_out_raises {V : Type} (handlers : list QueryHandler)
    (query : QueryHandler → M DataFrame)
    (collect : DataFrame → list (string * V) → list (string * V))
    (target : list (string * V)) (h : QueryHandler) :
  h ∈ handlers → raises (query h) →
  raises (fan_out handlers query collect target).
Proof.
  intros Hin Hraise. revert target.
  induction handlers as [|h0 hs IH]; intros target tr;
    [by apply elem_of_nil in Hin|].
  simpl. destruct (query h0 tr) as [[df|e] tr1] eqn:Hq.
  - rewrite (bind_Ok _ _ _ _ _ Hq). apply IH.
    apply elem_of_cons in Hin as [->|Hin]; [|done].
    destruct (Hraise tr) as (e & tr' & He). congruence.
  - rewrite (bind_Raise _ _ _ _ _ Hq). by exists e, tr1.
Qed.

Lemma get_many_raises {V : Type} (handlers : list QueryHandler)
    (query : QueryHandler → M DataFrame)
    (collect : DataFrame → list (string * V) → list (string * V))
    (h : QueryHandler) (tr : list call) :
  h ∈ handlers → raises (query h) →
  (get_many handlers query collect tr).1 = Ok [].
Proof.
  intros Hin Hraise. unfold get_many.
  destruct (fan_out_raises handlers query collect [] h Hin Hraise tr)
    as (e & tr' & He).
  erewrite try_except_Raise; [done|]. by rewrite (bind_Raise _ _ _ _ _ He).
Qed.

Lemma get_many_answers {V : Type} (handlers : list QueryHandler)
    (query : QueryHandler → M DataFrame) (f : QueryHandler → DataFrame)
    (collect : DataFrame → list (string * V) → list (string * V))
    (tr : list call) :
  answers query f →
  ∃ tr',
    get_many handlers query collect tr =
      (Ok (od_values (foldl (λ m h, collect (f h) m) [] handlers)), tr').
Proof.
  intros Hq. unfold get_many.
  destruct (fan_out_answers handlers query f collect [] tr Hq) as (tr' & Hf).
  exists tr'. erewrite try_except_Ok; [done|].
  by rewrite (bind_Ok _ _ _ _ _ Hf).
Qed.

(** ** [getEntityById] *)

Lemma probe_journal_handlers_miss (w : World) (handlers : list QueryHandler)
    (entity_id : string) (tr : list call) :
  Forall (λ h, sparql_answer w h (Graph.ById entity_id) = []) handlers →
  ∃ tr', probe_journal_handlers w handlers entity_id tr = (Ok None, tr').
Proof.
  intros Hall. revert tr. induction Hall as [|h hs Hh _ IH]; intros tr; simpl.
  - by exists tr.
  - unfold JournalQueryHandler_getById.
    erewrite bind_Ok by apply _execute_sparql_query_eq. rewrite Hh. apply IH.
Qed.

Lemma probe_journal_handlers_hit (w : World)
    (before after : list QueryHandler) (handler : QueryHandler)
    (entity_id : string) (row : Row) (rest : DataFrame) (tr : list call) :
  Forall (λ h, sparql_answer w h (Graph.ById entity_id) = []) before →
  sparql_answer w handler (Graph.ById entity_id) = row :: rest →
  ∃ tr',
    probe_journal_handlers w (before ++ handler :: after) entity_id tr =
      (Ok (Some (EJournal <$> _dataframe_to_journal row)), tr').
Proof.
  intros Hall Hhit. revert tr.
  induction Hall as [|h hs Hh _ IH]; intros tr; simpl;
    unfold JournalQueryHandler_getById;
    erewrite bind_Ok by apply _execute_sparql_query_eq.
  - rewrite Hhit. by eexists.
  - rewrite Hh. apply IH.
Qed.

Lemma probe_category_handlers_miss (w : World) (handlers : list QueryHandler)
    (entity_id : string) (tr : list call) :
  Forall (λ h, category_probe w h entity_id = Some []) handlers →
  ∃ tr', probe_category_handlers w handlers entity_id tr = (Ok None, tr').
Proof.
  intros Hall. revert tr. induction Hall as [|h hs Hh _ IH]; intros tr; simpl.
  - by exists tr.
  - destruct (CategoryQueryHandler_getById_eq w h entity_id tr) as (tr1 & H1).
    rewrite Hh in H1. rewrite (bind_Ok _ _ _ _ _ H1). apply IH.
Qed.

Lemma probe_category_handlers_hit (w : World)
    (before after : list QueryHandler) (handler : QueryHandler)
    (entity_id : string) (row : Row) (rest : DataFrame) (tr : list call) :
  Forall (λ h, category_probe w h entity_id = Some []) before →
  category_probe w handler entity_id = Some (row :: rest) →
  ∃ tr',
    probe_category_handlers w (before ++ handler :: after) entity_id tr =
      (Ok (Some (if row_has row "quartile"
                 then ECategory <$> _dataframe_to_category row
                 else EArea <$> _dataframe_to_area row)), tr').
Proof.
  intros Hall Hhit. revert tr.
  induction Hall as [|h hs Hh _ IH]; intros tr; simpl.
  - destruct (CategoryQueryHandler_getById_eq w handler entity_id tr)
      as (tr1 & H1).
    rewrite Hhit in H1. rewrite (bind_Ok _ _ _ _ _ H1).
    destruct (row_has row "quartile"); by eexists.
  - destruct (CategoryQueryHandler_getById_eq w h entity_id tr) as (tr1 & H1).
    rewrite Hh in H1. rewrite (bind_Ok _ _ _ _ _ H1). apply IH.
Qed.

Lemma probe_category_handlers_raises (w : World)
    (before after : list QueryHandler) (handler : QueryHandler)
    (entity_id : string) (tr : list call) :
  Forall (λ h, category_probe w h entity_id = Some []) before →
  category_probe w handler entity_id = None →
  ∃ tr',
    probe_category_handlers w (before ++ handler :: after) entity_id tr
    = (Raise DatabaseError, tr').
Proof.
  intros Hall Hnone. revert tr.
  induction Hall as [|h hs Hh _ IH]; intros tr; simpl.
  - destruct (CategoryQueryHandler_getById_eq w handler entity_id tr)
      as (tr1 & H1).
    rewrite Hnone in H1. exists tr1. by apply bind_Raise.
  - destruct (CategoryQueryHandler_getById_eq w h entity_id tr) as (tr1 & H1).
    rewrite Hh in H1. rewrite (bind_Ok _ _ _ _ _ H1). apply IH.
Qed.

Lemma getEntityById_raising_handler (w : World) (self : BasicQueryEngine)
    (entity_id : string) (before after : list QueryHandler)
    (handler : QueryHandler) (tr : list call) :
  Forall (λ h, sparql_answer w h (Graph.ById entity_id) = [])
    (_journalQuery self) →
  _categoryQuery self = before ++ handler :: after →
  Forall (λ h, category_probe w h entity_id = Some []) before →
  category_probe w handler entity_id = None →
  (getEntityById w self entity_id tr).1 = Ok None.
Proof.
  intros Hjournals Hc Hbefore Hnone.
  destruct (probe_journal_handlers_miss w _ entity_id tr Hjournals)
    as (tr1 & Hp1).
  destruct (probe_category_handlers_raises w before after handler entity_id
              tr1 Hbefore Hnone) as (tr2 & Hp2).
  unfold getEntityById. rewrite Hc.
  erewrite try_except_Raise; [done|].
  rewrite (bind_Ok _ _ _ _ _ Hp1). by rewrite (bind_Raise _ _ _ _ _ Hp2).
Qed.




(** ** Exceptions at the boundary of the public methods *)

Lemma read_sql_query_raises (w : World) (self : QueryHandler) (q : Sql.query) :
  database w (_dbPathOrUrl self) = None → raises (read_sql_query w self q).
Proof.
  intros Hd tr. rewrite read_sql_query_eq, Hd. by eexists _, _.
Qed.

Lemma getAllJournals_answers (w : World) :
  answers (JournalQueryHandler_getAllJournals w)
    (λ h, sparql_answer w h Graph.AllJournals).
Proof. intros h tr. eexists. apply _execute_sparql_query_eq. Qed.

(** ** The composite queries *)

Lemma getJournalsByIssns_eq (w : World) (self : QueryHandler)
    (issns : gset string) (tr : list call) :
  ∃ tr',
    JournalQueryHandler_getJournalsByIssns w self issns tr =
      (Ok (journals_by_issns_answer w self issns), tr').
Proof.
  unfold JournalQueryHandler_getJournalsByIssns, journals_by_issns_answer.
  cbv zeta. destruct (bool_decide _); [by eexists|].
  eexists. apply _execute_sparql_query_eq.
Qed.

Lemma fetch_chunks_eq (w : World) (handler : QueryHandler)
    (chunks : list (list string)) (journal_map : list (string * Journal.t))
    (tr : list call) :
  ∃ tr',
    fetch_chunks w handler chunks journal_map tr =
      (Ok (foldl (λ m chunk,
                    _collect_journals
                      (journals_by_issns_answer w handler (list_to_set chunk))
                      m)
             journal_map chunks), tr').
Proof.
  revert journal_map tr.
  induction chunks as [|chunk rest IH]; intros journal_map tr; simpl.
  - by eexists.
  - destruct (getJournalsByIssns_eq w handler (list_to_set chunk) tr)
      as (tr1 & H1).
    rewrite (bind_Ok _ _ _ _ _ H1). apply IH.
Qed.

Lemma fetch_handlers_eq (w : World) (handlers : list QueryHandler)
    (ids : list string) (journal_map : list (string * Journal.t))
    (tr : list call) :
  ∃ tr',
    fetch_handlers w handlers ids journal_map tr =
      (Ok (foldl (λ m handler,
                    foldl (λ m chunk,
                             _collect_journals
                               (journals_by_issns_answer w handler
                                  (list_to_set chunk)) m)
                      m (_chunked ids 50))
             journal_map handlers), tr').
Proof.
  revert journal_map tr.
  induction handlers as [|h hs IH]; intros journal_map tr; simpl.
  - by eexists.
  - destruct (fetch_chunks_eq w h (_chunked ids 50) journal_map tr)
      as (tr1 & H1).
    rewrite (bind_Ok _ _ _ _ _ H1). apply IH.
Qed.

Lemma returns_fetch_journals_by_issns (w : World) (self : BasicQueryEngine)
    (issns : gset Sql.cell) :
  returns (_fetch_journals_by_issns w self issns).
Proof.
  intros tr. unfold _fetch_journals_by_issns. cbv zeta.
  destruct (bool_decide _); [by eexists _, _|].
  destruct (fetch_handlers_eq w (_journalQuery self) (cleaned_ids issns) [] tr)
    as (tr1 & H1).
  rewrite (bind_Ok _ _ _ _ _ H1). by eexists _, _.
Qed.

Lemma first_id_eq `{IdentifiableEntity E} (e : E) (tr : list call) :
  getIds e ≠ [] → first_id e tr = (Ok (first_id_of e), tr).
Proof. unfold first_id, first_id_of. by destruct (getIds e). Qed.

Lemma narrow_categories_eq (categories : list Category.t)
    (category_ids : gset string) (tr : list call) :
  Forall (λ c, getIds c ≠ []) categories →
  narrow_categories categories category_ids tr =
    (Ok (filter (λ c, first_id_in category_ids c) categories), tr).
Proof.
  intros Hall. induction Hall as [|c cs Hc _ IH]; simpl; [done|].
  rewrite (bind_Ok _ _ _ _ _ (first_id_eq c tr Hc)).
  rewrite (bind_Ok _ _ _ _ _ IH).
  unfold mret, M_ret.
  destruct (decide (first_id_of c ∈ category_ids)) as [Hin|Hin].
  - rewrite bool_decide_eq_true_2 by done.
    rewrite filter_cons_True; [done|]. by apply bool_decide_pack.
  - rewrite bool_decide_eq_false_2 by done.
    rewrite filter_cons_False; [done|]. by intros ?%bool_decide_unpack.
Qed.

Lemma _get_issns_for_category_eq (w : World) (handler : QueryHandler)
    (category_id : string) (tr : list call) :
  ∃ tr',
    _get_issns_for_category w handler category_id tr =
      (Ok (category_issns w handler category_id), tr').
Proof. eexists. unfold _get_issns_for_category. by rewrite bind_log. Qed.

Lemma _get_issns_for_area_eq (w : World) (handler : QueryHandler)
    (area_id : string) (tr : list call) :
  ∃ tr',
    _get_issns_for_area w handler area_id tr =
      (Ok (area_issns w handler area_id), tr').
Proof. eexists. unfold _get_issns_for_area. by rewrite bind_log. Qed.

Lemma issns_of_categories_eq (w : World) (handler : QueryHandler)
    (categories : list Category.t) (s : gset Sql.cell) (tr : list call) :
  Forall (λ c, getIds c ≠ []) categories →
  ∃ tr',
    issns_of_categories w handler categories s tr =
      (Ok (s ∪ ⋃ (c ← categories;
                  [category_issns w handler (first_id_of c)])), tr').
Proof.
  intros Hall. revert s tr.
  induction Hall as [|c cs Hc _ IH]; intros s tr; simpl.
  - exists tr. unfold mret, M_ret. do 2 f_equal. set_solver.
  - rewrite (bind_Ok _ _ _ _ _ (first_id_eq c tr Hc)).
    destruct (_get_issns_for_category_eq w handler (first_id_of c) tr)
      as (tr1 & H1).
    rewrite (bind_Ok _ _ _ _ _ H1).
    destruct (IH (s ∪ category_issns w handler (first_id_of c)) tr1)
      as (tr2 & H2).
    exists tr2. rewrite H2. do 2 f_equal. set_solver.
Qed.

Lemma issns_in_categories_eq (w : World) (handlers : list QueryHandler)
    (categories : list Category.t) (s : gset Sql.cell) (tr : list call) :
  Forall (λ c, getIds c ≠ []) categories →
  ∃ tr',
    issns_in_categories w handlers categories s tr =
      (Ok (s ∪ issns_under_categories w handlers categories), tr').
Proof.
  intros Hall. unfold issns_under_categories. revert s tr.
  induction handlers as [|h hs IH]; intros s tr; simpl.
  - exists tr. unfold mret, M_ret. do 2 f_equal. set_solver.
  - destruct (issns_of_categories_eq w h categories s tr Hall) as (tr1 & H1).
    rewrite (bind_Ok _ _ _ _ _ H1).
    destruct (IH (s ∪ ⋃ (c ← categories;
                         [category_issns w h (first_id_of c)])) tr1)
      as (tr2 & H2).
    exists tr2. rewrite H2. do 2 f_equal.
    rewrite union_list_app_L. set_solver.
Qed.

Lemma issns_of_areas_eq (w : World) (handler : QueryHandler)
    (area_ids : list string) (s : gset Sql.cell) (tr : list call) :
  ∃ tr',
    issns_of_areas w handler area_ids s tr =
      (Ok (s ∪ ⋃ (a ← area_ids; [area_issns w handler a])), tr').
Proof.
  revert s tr. induction area_ids as [|a rest IH]; intros s tr; simpl.
  - exists tr. unfold mret, M_ret. do 2 f_equal. set_solver.
  - destruct (_get_issns_for_area_eq w handler a tr) as (tr1 & H1).
    rewrite (bind_Ok _ _ _ _ _ H1).
    destruct (IH (s ∪ area_issns w handler a) tr1) as (tr2 & H2).
    exists tr2. rewrite H2. do 2 f_equal. set_solver.
Qed.

Lemma issns_in_areas_eq (w : World) (handlers : list QueryHandler)
    (area_ids : list string) (s : gset Sql.cell) (tr : list call) :
  ∃ tr',
    issns_in_areas w handlers area_ids s tr =
      (Ok (s ∪ issns_under_areas w handlers area_ids), tr').
Proof.
  unfold issns_under_areas. revert s tr.
  induction handlers as [|h hs IH]; intros s tr; simpl.
  - exists tr. unfold mret, M_ret. do 2 f_equal. set_solver.
  - destruct (issns_of_areas_eq w h area_ids s tr) as (tr1 & H1).
    rewrite (bind_Ok _ _ _ _ _ H1).
    destruct (IH (s ∪ ⋃ (a ← area_ids; [area_issns w h a])) tr1)
      as (tr2 & H2).
    exists tr2. rewrite H2. do 2 f_equal.
    rewrite union_list_app_L. set_solver.
Qed.

(** ** Categories without identifier *)

Lemma narrow_categories_raises (categories : list Category.t)
    (category_ids : gset string) (tr : list call) :
  Exists (λ c, getIds c = []) categories →
  narrow_categories categories category_ids tr = (Raise IndexError, tr).
Proof.
  induction categories as [|c cs IH]; intros Hex;
    [by apply Exists_nil in Hex|].
  cbn [narrow_categories].
  destruct (getIds c) as [|i ids] eqn:Hc.
  - apply bind_Raise. unfold first_id. by rewrite Hc.
  - apply Exists_cons in Hex as [Hex|Hex]; [congruence|].
    erewrite bind_Ok; [|unfold first_id; by rewrite Hc].
    apply bind_Raise. by apply IH.
Qed.

Lemma issns_of_categories_raises (w : World) (handler : QueryHandler)
    (categories : list Category.t) (s : gset Sql.cell) (tr : list call) :
  Exists (λ c, getIds c = []) categories →
  ∃ tr', issns_of_categories w handler categories s tr
         = (Raise IndexError, tr').
Proof.
  revert s tr. induction categories as [|c cs IH]; intros s tr Hex;
    [by apply Exists_nil in Hex|].
  cbn [issns_of_categories].
  destruct (getIds c) as [|i ids] eqn:Hc.
  - exists tr. apply bind_Raise. unfold first_id. by rewrite Hc.
  - apply Exists_cons in Hex as [Hex|Hex]; [congruence|].
    erewrite bind_Ok; [|unfold first_id; by rewrite Hc].
    destruct (_get_issns_for_category_eq w handler i tr) as (tr1 & H1).
    rewrite (bind_Ok _ _ _ _ _ H1). by apply IH.
Qed.

Lemma issns_in_categories_raises (w : World) (handlers : list QueryHandler)
    (categories : list Category.t) (s : gset Sql.cell) (tr : list call) :
  handlers ≠ [] → Exists (λ c, getIds c = []) categories →
  ∃ tr', issns_in_categories w handlers categories s tr
         = (Raise IndexError, tr').
Proof.
  intros Hne Hex. destruct handlers as [|h hs]; [done|].
  cbn [issns_in_categories].
  destruct (issns_of_categories_raises w h categories s tr Hex)
    as (tr' & Hr).
  exists tr'. by apply bind_Raise.
Qed.

(** Without classification handler no category is resolved. *)
Lemma no_handler_no_category (w : World) (self : BasicQueryEngine)
    (quartiles : gset string) (categories : list Category.t)
    (tr tr1 : list call) :
  getCategoriesWithQuartile w self quartiles tr = (Ok categories, tr1) →
  categories ≠ [] → _categoryQuery self ≠ [].
Proof.
  unfold getCategoriesWithQuartile. intros Hc Hne Hnil.
  rewrite Hnil in Hc. by injection Hc as <- <-.
Qed.

Lemma category_query_nothing_resolved (w : World) (self : BasicQueryEngine)
    (category_ids quartiles : gset string) (tr tr1 : list call) :
  getCategoriesWithQuartile w self quartiles tr = (Ok [], tr1) →
  getJournalsInCategoriesWithQuartile w self category_ids quartiles tr
  = (Ok [], tr1).
Proof.
  intros Hcats. unfold getJournalsInCategoriesWithQuartile.
  erewrite try_except_Ok; [done|]. rewrite (bind_Ok _ _ _ _ _ Hcats).
  rewrite (bool_decide_eq_true_2 ([] = [])) by done.
  destruct (bool_decide (quartiles ≠ ∅)); [done|]. cbn [andb].
  destruct (bool_decide (category_ids ≠ ∅)); done.
Qed.

Lemma category_query_without_identifier (w : World) (self : BasicQueryEngine)
    (category_ids quartiles : gset string) (categories : list Category.t)
    (tr tr1 : list call) :
  getCategoriesWithQuartile w self quartiles tr = (Ok categories, tr1) →
  Exists (λ c, getIds c = []) categories →
  ∃ tr2,
    getJournalsInCategoriesWithQuartile w self category_ids quartiles tr
    = (Ok [], tr2)
    ∧ (category_ids ≠ ∅ → tr2 = tr1).
Proof.
  intros Hcats Hex.
  assert (categories ≠ []) as Hne by (intros ->; by apply Exists_nil in Hex).
  pose proof (no_handler_no_category _ _ _ _ _ _ Hcats Hne) as Hhandlers.
  unfold getJournalsInCategoriesWithQuartile.
  destruct (decide (category_ids = ∅)) as [->|Hids].
  - destruct (issns_in_categories_raises w (_categoryQuery self) categories
                ∅ tr1 Hhandlers Hex) as (tr2 & Hr).
    exists tr2. split; [|done].
    erewrite try_except_Raise; [done|].
    rewrite (bind_Ok _ _ _ _ _ Hcats).
    rewrite (bool_decide_eq_false_2 (categories = [])) by done.
    rewrite !(bool_decide_eq_false_2 (∅ ≠ ∅)) by naive_solver. cbn [andb].
    unfold mbind at 1, M_bind, mret at 1, M_ret.
    rewrite (bool_decide_eq_false_2 (categories = [])) by done.
    by apply bind_Raise.
  - exists tr1. split; [|done].
    erewrite try_except_Raise; [done|].
    rewrite (bind_Ok _ _ _ _ _ Hcats).
    rewrite (bool_decide_eq_false_2 (categories = [])) by done.
    rewrite !(bool_decide_eq_true_2 (category_ids ≠ ∅)) by done. cbn [andb].
    apply bind_Raise. by apply narrow_categories_raises.
Qed.

(** [getJournalsInCategoriesWithQuartile], case by case. Let [categories]
    be what [getCategoriesWithQuartile] resolves for [quartiles]. If nothing
    is resolved the method answers the empty list and makes no further
    store call. If some resolved category carries no identifier, the method
    answers the empty list, at once when [category_ids] is not empty. If
    every resolved category carries an identifier: when [category_ids] is
    not empty and no resolved category has its identifier in it, the method
    answers the empty list at once; otherwise the identifiers filed under
    each surviving category are unioned over all classification handlers
    and the journals for that union are fetched in batches. *)
Theorem category_quartile_query_short_circuits
    (w : World) (self : BasicQueryEngine) (category_ids quartiles : gset string)
    (tr : list call) :
  ∃ categories tr1,
    getCategoriesWithQuartile w self quartiles tr = (Ok categories, tr1)
    ∧ (categories = [] →
       getJournalsInCategoriesWithQuartile w self category_ids quartiles tr
       = (Ok [], tr1))
    ∧ (Exists (λ c, getIds c = []) categories →
       ∃ tr2,
         getJournalsInCategoriesWithQuartile w self category_ids quartiles tr
         = (Ok [], tr2)
         ∧ (category_ids ≠ ∅ → tr2 = tr1))
    ∧ (Forall (λ c, getIds c ≠ []) categories →
       (category_ids ≠ ∅ →
        filter (λ c, first_id_in category_ids c) categories = [] →
        getJournalsInCategoriesWithQuartile w self category_ids quartiles tr
        = (Ok [], tr1))
       ∧ ∀ surviving,
           surviving =
             (if decide (category_ids = ∅) then categories
              else filter (λ c, first_id_in category_ids c) categories) →
           surviving ≠ [] →
           ∃ tr2,
             issns_in_categories w (_categoryQuery self) surviving ∅ tr1
             = (Ok (issns_under_categories w (_categoryQuery self) surviving),
                tr2)
             ∧ getJournalsInCategoriesWithQuartile w self category_ids
                 quartiles tr
               = _fetch_journals_by_issns w self
                   (issns_under_categories w (_categoryQuery self) surviving)
                   tr2).
Proof.
  destruct (returns_get_many (_categoryQuery self)
              (λ handler, CategoryQueryHandler_getCategoriesWithQuartile w
                            handler quartiles)
              _collect_categories tr) as (categories & tr1 & Hcats).
  exists categories, tr1. split; [done|].
  fold (getCategoriesWithQuartile w self quartiles) in Hcats.
  split_and!.
  - intros ->. by apply category_query_nothing_resolved.
  - intros Hex. by eapply category_query_without_identifier.
  - unfold getJournalsInCategoriesWithQuartile.
    intros Hids. split.
    + intros Hc Hnone.
      erewrite try_except_Ok; [done|]. rewrite (bind_Ok _ _ _ _ _ Hcats).
      destruct (bool_decide (categories = []) && bool_decide (quartiles ≠ ∅));
        [done|].
      rewrite (bool_decide_eq_true_2 (category_ids ≠ ∅)) by done.
      rewrite (bind_Ok _ _ _ _ _ (narrow_categories_eq _ _ tr1 Hids)).
      rewrite Hnone. by rewrite bool_decide_eq_true_2 by done.
    + intros surviving -> Hsurv.
      assert (Forall (λ c, getIds c ≠ [])
                (if decide (category_ids = ∅) then categories
                 else filter (λ c, first_id_in category_ids c) categories))
        as Hids'.
      { destruct (decide (category_ids = ∅)); [done|].
        apply Forall_forall. intros c [_ Hc]%list_elem_of_filter.
        by eapply Forall_forall in Hids. }
      destruct (issns_in_categories_eq w (_categoryQuery self) _ ∅ tr1 Hids')
        as (tr2 & Hissns).
      rewrite (left_id_L ∅ (∪)) in Hissns.
      exists tr2. split; [done|].
      destruct (returns_fetch_journals_by_issns w self
                  (issns_under_categories w (_categoryQuery self)
                     (if decide (category_ids = ∅) then categories
                      else filter (λ c, first_id_in category_ids c)
                             categories)) tr2)
        as (journals & tr3 & Hfetch).
      rewrite Hfetch. apply try_except_Ok.
      rewrite (bind_Ok _ _ _ _ _ Hcats).
      assert (categories ≠ []) as Hne.
      { intros ->. by destruct (decide (category_ids = ∅)). }
      rewrite (bool_decide_eq_false_2 (categories = [])) by done. simpl.
      destruct (decide (category_ids = ∅)) as [Hempty|Hnonempty].
      * rewrite (bool_decide_eq_false_2 (category_ids ≠ ∅)) by naive_solver.
        unfold mbind at 1, M_bind, mret, M_ret. simpl.
        rewrite (bool_decide_eq_false_2 (categories = [])) by done.
        by rewrite (bind_Ok _ _ _ _ _ Hissns).
      * rewrite (bool_decide_eq_true_2 (category_ids ≠ ∅)) by done.
        rewrite (bind_Ok _ _ _ _ _ (narrow_categories_eq _ _ tr1 Hids)).
        rewrite (bool_decide_eq_false_2 (filter _ categories = [])) by done.
        simpl. by rewrite (bind_Ok _ _ _ _ _ Hissns).
Qed.

Lemma category_quartile_query_short_circuits_witness :
  getJournalsInCategoriesWithQuartile Ex.world_2 Ex.engine_1 ∅ {["Q9"]} []
  = (Ok [], [SqlCall "rel.db" (Sql.CategoriesWithQuartile ["Q9"])])
  ∧ (getJournalsInCategoriesWithQuartile Ex.world_2 Ex.engine_1 {["C1"]} ∅
       []).1
    = Ok [Journal.mk ["1111"] "X" ["en"] (Some "ACME") true "CC BY" false
            [] []].
Proof.
  split.
  - destruct (category_quartile_query_short_circuits Ex.world_2 Ex.engine_1
                ∅ {["Q9"]} []) as (categories & tr1 & Hc & Hshort & _).
    run_in Hc. injection Hc as <- <-.
    rewrite Hshort; reflexivity.
  - destruct (category_quartile_query_short_circuits Ex.world_2 Ex.engine_1
                {["C1"]} ∅ []) as (categories & tr1 & Hc & _ & _ & Hrest).
    run_in Hc. injection Hc as <- <-.
    destruct Hrest as [_ Hfetch].
    { repeat constructor. intros Hd. discriminate Hd. }
    destruct (Hfetch [Category.mk ["C1"] (Some "Q1")]) as (tr2 & Hi & ->).
    + vm_compute. reflexivity.
    + done.
    + run_in Hi. injection Hi as <-. vm_compute. reflexivity.
Defined.

(** C4. An upload of a Scimago entry whose first category has no [id]
    creates a store in which a category whose identifier is [NULL] is
    resolved with the category C1 of the same quartile. The journal 1111 is
    filed under C1 and the batched fetch of the identifiers of C1 delivers
    it, but [getJournalsInCategoriesWithQuartile] answers the empty list,
    with and without a set of category identifiers: the first identifier of
    the category without identifier is read, the [IndexError] ends the
    method. Without that category the journal is returned. *)
Lemma category_without_identifier_empties_the_result :
  (_upload_to_sqlite [Ex.scimago_entry_5] None).1 = Ex.db_5
  ∧ outcome (getCategoriesWithQuartile Ex.world_8 Ex.engine_1 {["Q1"]})
  = Ok [Category.mk [] (Some "Q1"); Category.mk ["C1"] (Some "Q1")]
  ∧ outcome (_fetch_journals_by_issns Ex.world_8 Ex.engine_1
               (category_issns Ex.world_8 Ex.sql_handler "C1"))
    = Ok [Journal.mk ["1111"] "X" ["en"] (Some "ACME") true "CC BY" false
            [] []]
  ∧ outcome (getJournalsInCategoriesWithQuartile Ex.world_8 Ex.engine_1
               ∅ {["Q1"]})
    = Ok []
  ∧ outcome (getJournalsInCategoriesWithQuartile Ex.world_8 Ex.engine_1
               {["C1"]} {["Q1"]})
    = Ok []
  ∧ outcome (getJournalsInCategoriesWithQuartile Ex.world_2 Ex.engine_1
               {["C1"]} {["Q1"]})
    = Ok [Journal.mk ["1111"] "X" ["en"] (Some "ACME") true "CC BY" false
            [] []].
Proof. vm_compute. repeat split. Qed.

(** ** The diamond query *)

Lemma od_set_fresh {V : Type} (k : string) (v : V) (d : list (string * V)) :
  k ∉ od_keys d → od_set k v d = d ++ [(k, v)].
Proof.
  unfold od_keys. induction d as [|[k0 v0] d IH]; simpl; [done|].
  rewrite not_elem_of_cons. intros [Hne Hnin].
  rewrite decide_False by done. by rewrite IH.
Qed.

Lemma Forall_od_set {V : Type} (P : string * V → Prop) (k : string) (v : V)
    (d : list (string * V)) :
  P (k, v) → Forall P d → Forall P (od_set k v d).
Proof.
  intros Hkv Hd. induction Hd as [|[k0 v0] d H0 Hd IH]; simpl.
  - by repeat constructor.
  - destruct (decide (k0 = k)); by constructor.
Qed.

Lemma _dataframe_to_journal_ids (row : Row) :
  ∃ journal,
    _dataframe_to_journal row = Some journal
    ∧ getIds journal =
        match first_candidate row ["issn"; "eissn"]%string with
        | Some k => [k]
        | None => []
        end.
Proof.
  eexists. split; [reflexivity|].
  unfold getIds. cbn [ids_of Journal_identifiable first_candidate].
  cbn [Journal._ids Journal.setAPC Journal.setLicence Journal.setSeal
       Journal.setPublisher Journal.setLanguages Journal.setTitle].
  destruct (row_has row "issn"), (row_has row "eissn");
    destruct (_has_value (row_get row "issn")) eqn:Hv;
    destruct (_has_value (row_get row "eissn")) eqn:Hv';
    cbn [andb negb _has_value]; rewrite ?Hv, ?Hv'; cbn [negb];
    rewrite ?Hv, ?Hv'; try reflexivity;
    unfold setId; cbn [with_ids Journal_identifiable Journal._ids];
    by rewrite str_strip_truthy.
Qed.

Lemma journal_key_ids (row : Row) (idx : nat) :
  match first_candidate row ["issn"; "eissn"]%string with
  | Some k => _get_journal_key row idx = k
  | None => True
  end.
Proof.
  unfold _get_journal_key. cbn [first_candidate].
  by repeat destruct (row_has _ _ && _has_value _).
Qed.

Lemma od_get_Some_elem {V : Type} (k : string) (v : V)
    (d : list (string * V)) :
  od_get k d = Some v → (k, v) ∈ d.
Proof.
  induction d as [|[k0 v0] d IH]; simpl; [done|].
  destruct (decide (k0 = k)) as [->|Hne].
  - intros [= ->]. by left.
  - intros Hget. right. by apply IH.
Qed.

Lemma keyed_collect_journal_row (row : Row) (idx : nat)
    (target : list (string * Journal.t)) :
  keyed_by_id target → keyed_by_id (collect_journal_row row idx target).
Proof.
  intros Hk. rewrite collect_journal_row_eq. apply Forall_od_set; [|done].
  cbn [fst snd]. destruct (od_get _ target) as [existing|] eqn:Hget.
  - destruct (_update_journal_from_row_fields existing row)
      as (_ & _ & _ & _ & _ & _ & ->).
    apply od_get_Some_elem in Hget.
    by apply (proj1 (Forall_forall _ _) Hk) in Hget.
  - destruct (_dataframe_to_journal_ids row) as (j & Hj & Hids).
    rewrite Hj. cbn [default from_option id]. rewrite Hids.
    pose proof (journal_key_ids row idx) as Hkey.
    destruct (first_candidate row _); [left; by rewrite Hkey | by right].
Qed.

Lemma keyed_collect_journals_from (rows : DataFrame) (idx : nat)
    (target : list (string * Journal.t)) :
  keyed_by_id target → NoDup (od_keys target) →
  keyed_by_id (collect_journals_from idx rows target)
  ∧ NoDup (od_keys (collect_journals_from idx rows target)).
Proof.
  revert idx target. induction rows as [|row rows IH]; intros idx target Hk Hnd;
    simpl; [done|].
  apply IH; [by apply keyed_collect_journal_row|].
  by apply collect_journal_row_NoDup.
Qed.

Lemma keyed__collect_journals (df : DataFrame)
    (target : list (string * Journal.t)) :
  keyed_by_id target → NoDup (od_keys target) →
  keyed_by_id (_collect_journals df target)
  ∧ NoDup (od_keys (_collect_journals df target)).
Proof.
  intros Hk Hnd. unfold _collect_journals.
  destruct (df_empty df); [done|]. by apply keyed_collect_journals_from.
Qed.

Lemma keyed_foldl_collect {X : Type} (f : X → DataFrame) (xs : list X)
    (target : list (string * Journal.t)) :
  keyed_by_id target → NoDup (od_keys target) →
  keyed_by_id (foldl (λ m x, _collect_journals (f x) m) target xs)
  ∧ NoDup (od_keys (foldl (λ m x, _collect_journals (f x) m) target xs)).
Proof.
  revert target. induction xs as [|x xs IH]; intros target Hk Hnd; simpl;
    [done|].
  destruct (keyed__collect_journals (f x) target Hk Hnd). by apply IH.
Qed.

Lemma first_ids_cons (j : Journal.t) (js : list Journal.t) :
  first_ids (j :: js) =
    match getIds j with
    | i :: _ => i :: first_ids js
    | [] => first_ids js
    end.
Proof. unfold first_ids, getIds. simpl. by destruct (Journal._ids j). Qed.

Lemma first_ids_sublist (m : list (string * Journal.t)) :
  keyed_by_id m → first_ids (od_values m) `sublist_of` od_keys m.
Proof.
  unfold od_values, od_keys.
  induction 1 as [|[k j] m Hkj _ IH]; [done|].
  rewrite !fmap_cons, first_ids_cons. cbn [fst snd] in *.
  destruct Hkj as [-> | ->]; cbv iota.
  - apply sublist_skip. apply IH.
  - apply sublist_cons. apply IH.
Qed.

Lemma first_ids_NoDup (m : list (string * Journal.t)) :
  keyed_by_id m → NoDup (od_keys m) → NoDup (first_ids (od_values m)).
Proof.
  intros Hk Hnd. eapply sublist_NoDup; [done | by apply first_ids_sublist].
Qed.

Lemma first_ids_filter (P : Journal.t → Prop) `{∀ j, Decision (P j)}
    (journals : list Journal.t) :
  first_ids (filter P journals) `sublist_of` first_ids journals.
Proof.
  induction journals as [|j js IH]; [done|].
  rewrite filter_cons. destruct (decide (P j)); rewrite !first_ids_cons.
  - destruct (getIds j); [done | by apply sublist_skip].
  - destruct (getIds j); [done | by apply sublist_cons].
Qed.

(** The last loop of the diamond query, run over journals with distinct
    first identifiers, keeps exactly those that [allowed] lets through, in
    order. *)
Lemma keep_journal_foldl (allowed : string → bool)
    (journals : list Journal.t) (acc : list (string * Journal.t)) :
  NoDup (od_keys acc ++ first_ids journals) →
  od_values (foldl (keep_journal allowed) acc journals) =
    od_values acc ++
      filter (λ j, kept allowed j) journals.
Proof.
  revert acc. induction journals as [|j js IH]; intros acc Hnd; simpl.
  - by rewrite app_nil_r.
  - rewrite first_ids_cons in Hnd.
    assert (keep_journal allowed acc j =
              if kept allowed j then od_set (first_id_of j) j acc else acc)
      as ->.
    { unfold keep_journal, kept, first_id_of. by destruct (getIds j). }
    destruct (kept allowed j) eqn:Hkept.
    + rewrite filter_cons_True by by rewrite Hkept.
      unfold kept in Hkept. unfold first_id_of.
      destruct (getIds j) as [|i rest]; [done|].
      apply NoDup_app in Hnd as (Hacc & Hdisj & Hrest).
      apply NoDup_cons in Hrest as [Hi Hjs].
      rewrite od_set_fresh by (intros Hin; apply (Hdisj i Hin); by left).
      rewrite IH.
      * unfold od_values. rewrite fmap_app. simpl. by rewrite <- app_assoc.
      * unfold od_keys. rewrite fmap_app. simpl. rewrite <- app_assoc. simpl.
        apply NoDup_app. split_and!; [done | | by apply NoDup_cons].
        intros x Hx. by apply Hdisj.
    + rewrite filter_cons_False by (rewrite Hkept; simpl; tauto).
      apply IH. destruct (getIds j) as [|i rest]; [done|].
      apply NoDup_app in Hnd as (Hacc & Hdisj & Hrest).
      apply NoDup_cons in Hrest as [Hi Hjs].
      apply NoDup_app. split_and!; [done | | done].
      intros x Hx Hx'. apply (Hdisj x Hx). by right.
Qed.

Lemma getAllJournals_first_ids (w : World) (self : BasicQueryEngine)
    (tr : list call) :
  ∃ all_journals tr',
    getAllJournals w self tr = (Ok all_journals, tr')
    ∧ NoDup (first_ids all_journals).
Proof.
  destruct (get_many_answers (_journalQuery self) _ _ _collect_journals tr
              (getAllJournals_answers w)) as (tr' & Hg).
  eexists _, tr'. split; [exact Hg|].
  destruct (keyed_foldl_collect
              (λ h, sparql_answer w h Graph.AllJournals)
              (_journalQuery self) []) as [Hk Hnd];
    [constructor | constructor |].
  by apply first_ids_NoDup.
Qed.

Lemma diamond_area_filter_eq (w : World) (self : BasicQueryEngine)
    (area_ids : gset string) (tr : list call) :
  ∃ tr',
    diamond_area_filter w self area_ids tr =
      (Ok (if decide (area_ids = ∅) then None
           else Some (issns_under_areas w (_categoryQuery self)
                        (elements area_ids))), tr').
Proof.
  unfold diamond_area_filter.
  destruct (decide (area_ids = ∅)) as [->|Hne].
  - rewrite bool_decide_eq_false_2 by naive_solver. by eexists.
  - rewrite bool_decide_eq_true_2 by done.
    destruct (issns_in_areas_eq w (_categoryQuery self) (elements area_ids)
                ∅ tr) as (tr' & Hi).
    rewrite (left_id_L ∅ (∪)) in Hi.
    exists tr'. unfold fmap, M_fmap. by rewrite (bind_Ok _ _ _ _ _ Hi).
Qed.

(** When the category filter of the diamond query is "no filter", neither
    category identifiers nor quartiles were given. *)
Lemma diamond_category_filter_None (w : World) (self : BasicQueryEngine)
    (category_ids quartiles : gset string) (tr tr' : list call) :
  diamond_category_filter w self category_ids quartiles tr
    = (Ok (Some None), tr') →
  category_ids = ∅ ∧ quartiles = ∅.
Proof.
  unfold diamond_category_filter.
  destruct (returns_get_many (_categoryQuery self)
              (λ handler, CategoryQueryHandler_getCategoriesWithQuartile w
                            handler quartiles)
              _collect_categories tr) as (categories & tr1 & Hcats).
  fold (getCategoriesWithQuartile w self quartiles) in Hcats.
  rewrite (bind_Ok _ _ _ _ _ Hcats).
  destruct (decide (categories = [])) as [->|Hne].
  - rewrite (bool_decide_eq_true_2 ([] = [])) by done.
    destruct (decide (quartiles = ∅)) as [->|Hq].
    + rewrite (bool_decide_eq_false_2 (∅ ≠ ∅)) by naive_solver. simpl.
      destruct (decide (category_ids = ∅)) as [->|Hc]; [done|].
      rewrite !(bool_decide_eq_true_2 (category_ids ≠ ∅)) by done. simpl.
      unfold mbind, M_bind, mret, M_ret. simpl. done.
    + by rewrite (bool_decide_eq_true_2 (quartiles ≠ ∅)) by done.
  - rewrite (bool_decide_eq_false_2 (categories = [])) by done. simpl.
    destruct (decide (category_ids = ∅)) as [->|Hc].
    + rewrite !(bool_decide_eq_false_2 (∅ ≠ ∅)) by naive_solver. simpl.
      unfold mbind at 1, M_bind, mret at 1, M_ret.
      rewrite (bool_decide_eq_true_2 (categories ≠ [])) by done.
      unfold mbind, M_bind.
      by destruct (issns_in_categories _ _ _ _ _) as [[?|?] ?].
    + rewrite !(bool_decide_eq_true_2 (category_ids ≠ ∅)) by done. simpl.
      unfold mbind at 1, M_bind.
      destruct (narrow_categories _ _ _) as [[cats|?] ?]; [|done].
      destruct (bool_decide (cats = [])) eqn:Hcs; [done|].
      apply bool_decide_eq_false in Hcs.
      rewrite (bool_decide_eq_true_2 (cats ≠ [])) by done.
      unfold mbind, M_bind.
      by destruct (issns_in_categories _ _ _ _ _) as [[?|?] ?].
Qed.

(** C3 (as amended). The diamond query starts from the journals of
    [getAllJournals] whose APC flag is false. Its area filter is "no filter"
    exactly when [area_ids] is empty. When its category resolution
    completes, either it has short-circuited and the answer is empty, or it
    yields a category filter, which is "no filter" only if [category_ids]
    and [quartiles] are both empty; the answer is then made of exactly the
    APC-free journals that carry an identifier found in every filter set
    that is not "no filter", in their order. *)
Theorem diamond_query_filters
    (w : World) (self : BasicQueryEngine)
    (area_ids category_ids quartiles : gset string) (tr : list call) :
  ∃ all_journals tr1 area_filter tr2,
    getAllJournals w self tr = (Ok all_journals, tr1)
    ∧ diamond_area_filter w self area_ids tr1 = (Ok area_filter, tr2)
    ∧ (area_filter = None ↔ area_ids = ∅)
    ∧ ∀ category_filter tr3,
        diamond_category_filter w self category_ids quartiles tr2
          = (Ok category_filter, tr3) →
        match category_filter with
        | None =>
            getDiamondJournalsInAreasAndCategoriesWithQuartile w self
              area_ids category_ids quartiles tr = (Ok [], tr3)
        | Some filter_set =>
            (filter_set = None → category_ids = ∅ ∧ quartiles = ∅)
            ∧ getDiamondJournalsInAreasAndCategoriesWithQuartile w self
                area_ids category_ids quartiles tr
              = (Ok (filter (λ j, survives area_filter filter_set j)
                       (filter (λ j, negb (Journal.hasAPC j)) all_journals)),
                 tr3)
        end.
Proof.
  destruct (getAllJournals_first_ids w self tr)
    as (all_journals & tr1 & Hall & Hnd).
  destruct (diamond_area_filter_eq w self area_ids tr1) as (tr2 & Harea).
  eexists all_journals, tr1, _, tr2. split_and!; [done | exact Harea | |].
  { by destruct (decide (area_ids = ∅)). }
  intros category_filter tr3 Hcf.
  assert (∀ r,
            (match category_filter with
             | None => mret []
             | Some journal_issns_in_categories => mret (r journal_issns_in_categories)
             end : M (list Journal.t)) tr3
            = (Ok (match category_filter with
                   | None => []
                   | Some s => r s
                   end), tr3)) as Hlast.
  { intros r. by destruct category_filter. }
  unfold getDiamondJournalsInAreasAndCategoriesWithQuartile.
  erewrite try_except_Ok;
    [|rewrite (bind_Ok _ _ _ _ _ Hall); cbv zeta;
      rewrite (bind_Ok _ _ _ _ _ Harea); rewrite (bind_Ok _ _ _ _ _ Hcf);
      apply Hlast].
  destruct category_filter as [filter_set|]; [|done].
  split.
  - intros ->. by eapply diamond_category_filter_None.
  - f_equal. f_equal. rewrite keep_journal_foldl.
    + done.
    + simpl. eapply sublist_NoDup; [exact Hnd | apply first_ids_filter].
Qed.

Lemma world_4_category_filter :
  diamond_category_filter Ex.world_4 Ex.engine_1 ∅ {["Q1"]}
    [SparqlCall "graph" Graph.AllJournals]
  = (Ok (Some (Some {[Some "1111"; Some "2222"]})),
     [SparqlCall "graph" Graph.AllJournals;
      SqlCall "rel.db" (Sql.CategoriesWithQuartile ["Q1"]);
      SqlCall "rel.db" (Sql.IssnsForCategory "C1")]).
Proof. vm_compute. reflexivity. Qed.

Lemma diamond_query_filters_witness :
  (getDiamondJournalsInAreasAndCategoriesWithQuartile Ex.world_4 Ex.engine_1
     ∅ ∅ {["Q1"]} []).1
  = Ok [Journal.mk ["1111"] "X" ["en"] (Some "ACME") true "CC BY" false
          [] []].
Proof.
  destruct (diamond_query_filters Ex.world_4 Ex.engine_1 ∅ ∅ {["Q1"]} [])
    as (all_journals & tr1 & area_filter & tr2 & Hall & Harea & _ & Hcat).
  run_in Hall. injection Hall as <- <-.
  run_in Harea. injection Harea as <- <-.
  pose proof (Hcat _ _ world_4_category_filter) as H. cbv iota in H.
  destruct H as [_ H]. rewrite H. vm_compute. reflexivity.
Defined.

(** With no area, category or quartile given, a store that holds a
    category makes the category filter a concrete set all the same, and the
    APC-free journal 1111, filed under no category, is not returned; and
    where both filters are "no filter", the APC-free journal without
    identifier is not returned either. *)
Lemma diamond_filters_not_as_claimed :
  (getAllJournals Ex.world_1 Ex.engine_1 []).1
  = Ok [Journal.mk ["1111"] "X" ["en"] (Some "ACME") true "CC BY" false
          [] []]
  ∧ (diamond_category_filter Ex.world_1 Ex.engine_1 ∅ ∅ []).1
    = Ok (Some (Some ∅))
  ∧ (getDiamondJournalsInAreasAndCategoriesWithQuartile Ex.world_1
       Ex.engine_1 ∅ ∅ ∅ []).1 = Ok []
  ∧ (getAllJournals Ex.world_3 Ex.engine_1 []).1
    = Ok [Journal.mk [] "X" ["en"] None false "CC BY" false [] []]
  ∧ (diamond_area_filter Ex.world_3 Ex.engine_1 ∅ []).1 = Ok None
  ∧ (diamond_category_filter Ex.world_3 Ex.engine_1 ∅ ∅ []).1
    = Ok (Some None)
  ∧ (getDiamondJournalsInAreasAndCategoriesWithQuartile Ex.world_3
       Ex.engine_1 ∅ ∅ ∅ []).1 = Ok [].
Proof. vm_compute. repeat split. Qed.

(** ** What becomes of an exception *)

Lemma getJournalsWithLicense_answers (w : World) (licenses : gset string) :
  answers (λ h, JournalQueryHandler_getJournalsWithLicense w h licenses)
    (λ h, journals_with_license_answer w h licenses).
Proof.
  intros h tr.
  unfold JournalQueryHandler_getJournalsWithLicense,
    journals_with_license_answer, JournalQueryHandler_getAllJournals.
  cbv zeta. destruct (bool_decide (licenses = ∅)).
  - eexists. apply _execute_sparql_query_eq.
  - destruct (bool_decide _); [by eexists|].
    eexists. apply _execute_sparql_query_eq.
Qed.

Lemma sparql_query_answers (w : World) (q : Graph.query) :
  answers (λ h, _execute_sparql_query w h q) (λ h, sparql_answer w h q).
Proof. intros h tr. eexists. apply _execute_sparql_query_eq. Qed.

Lemma journals_are_merged (self : BasicQueryEngine)
    (query : QueryHandler → M DataFrame) (f : QueryHandler → DataFrame)
    (tr : list call) :
  answers query f →
  (get_many (_journalQuery self) query _collect_journals tr).1
  = Ok (merged_journals self f).
Proof.
  intros Hq.
  destruct (get_many_answers (_journalQuery self) query f _collect_journals
              tr Hq) as (tr' & Hg).
  by rewrite Hg.
Qed.

(** A database that cannot be read files nothing under any area. *)
Lemma unreadable_area_issns (w : World) (h : QueryHandler)
    (area_ids : list string) :
  database w (_dbPathOrUrl h) = None →
  ⋃ (a ← area_ids; [area_issns w h a]) = (∅ : gset Sql.cell).
Proof.
  intros Hd. unfold area_issns, getDbPathOrUrl. rewrite Hd.
  induction area_ids as [|a rest IH]; [done|].
  rewrite bind_cons, union_list_app_L, IH. set_solver.
Qed.

Lemma issns_under_areas_readable (w : World) (handlers : list QueryHandler)
    (area_ids : list string) :
  issns_under_areas w (filter (λ h, readable w h) handlers) area_ids
  = issns_under_areas w handlers area_ids.
Proof.
  unfold issns_under_areas.
  induction handlers as [|h hs IH]; [done|].
  rewrite bind_cons, union_list_app_L, <- IH.
  destruct (database w (_dbPathOrUrl h)) as [d|] eqn:Hd.
  - rewrite filter_cons_True
      by (unfold readable; apply bool_decide_pack; by rewrite Hd).
    by rewrite bind_cons, union_list_app_L.
  - rewrite filter_cons_False
      by (unfold readable; intros [? ?]%bool_decide_unpack; congruence).
    rewrite (unreadable_area_issns w h area_ids Hd).
    by rewrite (left_id_L ∅ (∪)).
Qed.

Lemma getJournalsInAreasWithLicense_eq (w : World) (self : BasicQueryEngine)
    (area_ids licenses : gset string) (tr : list call) :
  (getJournalsInAreasWithLicense w self area_ids licenses tr).1
  = Ok (let journals :=
          merged_journals self
            (λ h, journals_with_license_answer w h licenses) in
        if decide (area_ids = ∅) then journals
        else od_values
               (foldl
                  (keep_journal
                     (passes
                        (Some (issns_under_areas w (_categoryQuery self)
                                 (elements area_ids)))))
                  [] journals)).
Proof.
  destruct (get_many_answers (_journalQuery self) _ _ _collect_journals tr
              (getJournalsWithLicense_answers w licenses)) as (tr1 & Hj).
  fold (getJournalsWithLicense w self licenses) in Hj.
  fold (merged_journals self
          (λ h, journals_with_license_answer w h licenses)) in Hj.
  unfold getJournalsInAreasWithLicense. cbv zeta.
  destruct (decide (area_ids = ∅)) as [->|Hne].
  - erewrite try_except_Ok; [done|].
    rewrite (bind_Ok _ _ _ _ _ Hj).
    by rewrite bool_decide_eq_false_2 by naive_solver.
  - destruct (issns_in_areas_eq w (_categoryQuery self) (elements area_ids)
                ∅ tr1) as (tr2 & Hi).
    rewrite (left_id_L ∅ (∪)) in Hi.
    erewrite try_except_Ok; [done|].
    rewrite (bind_Ok _ _ _ _ _ Hj).
    rewrite bool_decide_eq_true_2 by done.
    unfold fmap, M_fmap.
    rewrite bind_Ok
      with (a := Some (issns_under_areas w (_categoryQuery self)
                         (elements area_ids))) (tr' := tr2);
      [done|by rewrite (bind_Ok _ _ _ _ _ Hi)].
Qed.

Lemma diamond_resolution_raises (w : World) (self : BasicQueryEngine)
    (area_ids category_ids quartiles : gset string)
    (all_journals : list Journal.t) (area_filter : option (gset Sql.cell))
    (e : exn) (tr tr1 tr2 tr3 : list call) :
  getAllJournals w self tr = (Ok all_journals, tr1) →
  diamond_area_filter w self area_ids tr1 = (Ok area_filter, tr2) →
  diamond_category_filter w self category_ids quartiles tr2
  = (Raise e, tr3) →
  getDiamondJournalsInAreasAndCategoriesWithQuartile w self area_ids
    category_ids quartiles tr
  = (Ok [], tr3).
Proof.
  intros Hall Harea Hcf.
  unfold getDiamondJournalsInAreasAndCategoriesWithQuartile.
  erewrite try_except_Raise; [done|].
  rewrite (bind_Ok _ _ _ _ _ Hall). cbv zeta.
  rewrite (bind_Ok _ _ _ _ _ Harea). by rewrite (bind_Raise _ _ _ _ _ Hcf).
Qed.




(** ** The batched fetch: the stable sort *)

Section sorting_facts.
Context {A : Type} (le : A → A → bool).
Hypothesis le_refl : ∀ x, le x x = true.
Hypothesis le_trans : ∀ x y z, le x y = true → le y z = true → le x z = true.
Hypothesis le_total : ∀ x y, le x y = true ∨ le y x = true.

(** Where [insert_sorted] puts its element. *)
Lemma insert_sorted_app (x : A) (l1 l2 : list A) :
  Forall (λ y, le x y = false) l1 → Forall (λ y, le x y = true) l2 →
  insert_sorted le x (l1 ++ l2) = l1 ++ x :: l2.
Proof using Type.
  intros H1 H2. induction H1 as [|y l1 Hy _ IH]; simpl.
  - destruct H2 as [|y l2 Hy _]; simpl; [done|]. by rewrite Hy.
  - by rewrite Hy, IH.
Qed.

(** A sorted list splits, for every [x], into the elements that go before
    [x] and the elements [x] goes before. *)
Lemma sorted_split (x : A) (l : list A) :
  StronglySorted (λ a b, le a b = true) l →
  ∃ l1 l2, l = l1 ++ l2 ∧ Forall (λ y, le x y = false) l1
           ∧ Forall (λ y, le x y = true) l2.
Proof using le_trans.
  induction 1 as [|y l Hl IH Hy].
  - exists [], []. by repeat constructor.
  - destruct (le x y) eqn:Hxy.
    + exists [], (y :: l). split_and!; [done | constructor |].
      constructor; [done|]. eapply Forall_impl; [exact Hy|].
      intros z Hz. simpl in Hz. by eapply le_trans.
    + destruct IH as (l1 & l2 & -> & H1 & H2).
      exists (y :: l1), l2. split_and!; [done | by constructor | done].
Qed.

Lemma insert_sorted_sorted (x : A) (l : list A) :
  StronglySorted (λ a b, le a b = true) l →
  StronglySorted (λ a b, le a b = true) (insert_sorted le x l).
Proof using le_trans le_total.
  induction 1 as [|y l Hl IH Hy]; simpl.
  - by repeat constructor.
  - destruct (le x y) eqn:Hxy.
    + constructor; [by constructor|]. constructor; [done|].
      eapply Forall_impl; [exact Hy|]. intros z Hz. simpl in Hz.
      by eapply le_trans.
    + constructor; [done|].
      assert (le y x = true) as Hyx by (destruct (le_total x y); congruence).
      rewrite (Forall_forall _ _).
      intros z Hz. rewrite insert_sorted_Permutation in Hz.
      apply elem_of_cons in Hz as [->|Hz]; [done|].
      by apply (proj1 (Forall_forall _ _) Hy).
Qed.

Lemma sorted_by_sorted (l : list A) :
  StronglySorted (λ a b, le a b = true) (sorted_by le l).
Proof using le_trans le_total.
  induction l as [|x l IH]; simpl; [constructor|].
  by apply insert_sorted_sorted.
Qed.

(** Filtering commutes with the sort: the sort is stable. *)
Lemma filter_insert_sorted (P : A → Prop) `{∀ x, Decision (P x)} (x : A)
    (l : list A) :
  StronglySorted (λ a b, le a b = true) l →
  filter P (insert_sorted le x l) =
    if decide (P x) then insert_sorted le x (filter P l) else filter P l.
Proof using le_trans.
  intros Hl. destruct (sorted_split x l Hl) as (l1 & l2 & -> & H1 & H2).
  rewrite insert_sorted_app by done.
  rewrite !filter_app, filter_cons. destruct (decide (P x)); [|done].
  rewrite insert_sorted_app; [done | |].
  - apply Forall_forall. intros y [_ Hy]%list_elem_of_filter.
    by apply (proj1 (Forall_forall _ _) H1).
  - apply Forall_forall. intros y [_ Hy]%list_elem_of_filter.
    by apply (proj1 (Forall_forall _ _) H2).
Qed.

Lemma filter_sorted_by (P : A → Prop) `{∀ x, Decision (P x)} (l : list A) :
  filter P (sorted_by le l) = sorted_by le (filter P l).
Proof using le_trans le_total.
  induction l as [|x l IH]; simpl; [done|].
  rewrite filter_insert_sorted by apply sorted_by_sorted.
  rewrite filter_cons. destruct (decide (P x)); simpl; by rewrite IH.
Qed.

(** Sorting a list in which every element is repeated [n] times. *)
Lemma insert_sorted_replicate (m : nat) (x : A) (l1 l2 : list A) :
  Forall (λ y, le x y = false) l1 → Forall (λ y, le x y = true) l2 →
  Nat.iter m (insert_sorted le x) (l1 ++ l2)
  = l1 ++ replicate m x ++ l2.
Proof using le_refl.
  intros H1 H2. induction m as [|m IH]; simpl; [done|].
  rewrite IH. rewrite insert_sorted_app; [done | done |].
  apply Forall_app. split; [|done].
  apply Forall_forall. intros y ->%elem_of_replicate_inv. apply le_refl.
Qed.

Lemma sorted_by_replicate_app (n : nat) (x : A) (l : list A) :
  sorted_by le (replicate n x ++ l)
  = Nat.iter n (insert_sorted le x) (sorted_by le l).
Proof using Type. induction n as [|n IH]; simpl; [done|]. by rewrite IH. Qed.

Lemma sorted_by_bind_replicate (n : nat) (l : list A) :
  sorted_by le (l ≫= replicate n) = sorted_by le l ≫= replicate n.
Proof using le_refl le_trans le_total.
  induction l as [|x l IH]; [done|].
  rewrite bind_cons, sorted_by_replicate_app, IH. simpl.
  destruct (sorted_split x (sorted_by le l) (sorted_by_sorted l))
    as (l1 & l2 & Hl & H1 & H2).
  rewrite Hl. rewrite insert_sorted_app by done.
  rewrite !bind_app, bind_cons.
  apply insert_sorted_replicate.
  - apply Forall_forall. intros y (z & Hy & Hz)%list_elem_of_bind.
    apply elem_of_replicate_inv in Hy as ->.
    by apply (proj1 (Forall_forall _ _) H1).
  - apply Forall_forall. intros y (z & Hy & Hz)%list_elem_of_bind.
    apply elem_of_replicate_inv in Hy as ->.
    by apply (proj1 (Forall_forall _ _) H2).
Qed.
End sorting_facts.

Lemma sorted_by_cons {A : Type} (le : A → A → bool) (x : A) (l : list A) :
  sorted_by le (x :: l) = insert_sorted le x (sorted_by le l).
Proof. done. Qed.

Lemma insert_sorted_fmap {A B : Type} (le : A → A → bool)
    (le' : B → B → bool) (f : A → B) (x : A) (l : list A) :
  (∀ x y, le' (f x) (f y) = le x y) →
  insert_sorted le' (f x) (f <$> l) = f <$> insert_sorted le x l.
Proof.
  intros Hf. induction l as [|y l IH]; [done|].
  rewrite fmap_cons. cbn [insert_sorted]. rewrite Hf.
  destruct (le x y); [done|]. by rewrite fmap_cons, IH.
Qed.

(** Sorting commutes with a map that respects the order. *)
Lemma sorted_by_fmap {A B : Type} (le : A → A → bool) (le' : B → B → bool)
    (f : A → B) (l : list A) :
  (∀ x y, le' (f x) (f y) = le x y) →
  sorted_by le' (f <$> l) = f <$> sorted_by le l.
Proof.
  intros Hf. induction l as [|x l IH]; [done|].
  rewrite fmap_cons, !sorted_by_cons, IH. by apply insert_sorted_fmap.
Qed.

(** ** Chunks *)

Lemma chunked_go_concat {A : Type} (items batch : list A) (size : nat) :
  concat (chunked_go items size batch) = batch ++ items.
Proof.
  revert batch. induction items as [|item rest IH]; intros batch; simpl.
  - case_bool_decide as Hb; simpl; [by subst | by rewrite !app_nil_r].
  - destruct (length (batch ++ [item]) =? size); simpl; rewrite IH;
      simpl; by rewrite <- app_assoc.
Qed.

Lemma chunked_go_sizes {A : Type} (items batch : list A) (size : nat) :
  length batch < size →
  Forall (λ chunk, 0 < length chunk ≤ size) (chunked_go items size batch).
Proof.
  revert batch. induction items as [|item rest IH]; intros batch Hb; simpl.
  - case_bool_decide as Hnil; [constructor|].
    repeat constructor; [|lia]. destruct batch; [done | simpl; lia].
  - destruct (length (batch ++ [item]) =? size) eqn:Hlen.
    + apply Nat.eqb_eq in Hlen. constructor.
      * rewrite Hlen. lia.
      * apply IH. simpl. lia.
    + apply Nat.eqb_neq in Hlen. apply IH.
      rewrite length_app in *. simpl in *. lia.
Qed.

(** [_chunked] cuts its input into consecutive pieces of at most [size]
    elements, none of them empty. *)
Lemma _chunked_partition {A : Type} (items : list A) (size : nat) :
  0 < size →
  concat (_chunked items size) = items
  ∧ Forall (λ chunk, 0 < length chunk ≤ size) (_chunked items size).
Proof.
  intros Hs. unfold _chunked. split.
  - by rewrite chunked_go_concat.
  - by apply chunked_go_sizes.
Qed.

(** ** Lists *)

Lemma filter_fmap {A B : Type} (f : A → B) (P : B → Prop)
    `{∀ y, Decision (P y)} (l : list A) :
  filter P (f <$> l) = f <$> filter (λ x, P (f x)) l.
Proof.
  induction l as [|x l IH]; [done|].
  rewrite fmap_cons, !filter_cons. destruct (decide (P (f x))); [|done].
  by rewrite fmap_cons, IH.
Qed.

Lemma filter_replicate {A : Type} (P : A → Prop) `{∀ y, Decision (P y)}
    (n : nat) (x : A) :
  filter P (replicate n x) = if decide (P x) then replicate n x else [].
Proof.
  induction n as [|n IH]; simpl; [by destruct (decide (P x))|].
  rewrite filter_cons, IH. by destruct (decide (P x)).
Qed.

Lemma filter_all {A : Type} (P : A → Prop) `{∀ y, Decision (P y)}
    (l : list A) :
  Forall P l → filter P l = l.
Proof.
  induction 1 as [|x l Hx _ IH]; [done|].
  by rewrite filter_cons_True, IH.
Qed.

Lemma filter_none {A : Type} (P : A → Prop) `{∀ y, Decision (P y)}
    (l : list A) :
  Forall (λ x, ¬ P x) l → filter P l = [].
Proof.
  induction 1 as [|x l Hx _ IH]; [done|].
  by rewrite filter_cons_False.
Qed.

(** ** Rows that read alike *)

Lemma row_has_value (row : Row) (c : string) :
  _has_value (row_get row c) = true → row_has row c = true.
Proof.
  unfold row_get, row_has. by destruct (row !! c).
Qed.

Lemma row_get_guarded (row : Row) (c : string) :
  (if row_has row c then row_get row c else VNone) = row_get row c.
Proof.
  unfold row_get, row_has. by destruct (row !! c).
Qed.

Lemma candidate_guard (row : Row) (c : string) :
  row_has row c && _has_value (row_get row c) = _has_value (row_get row c).
Proof.
  destruct (_has_value (row_get row c)) eqn:Hv.
  - by rewrite row_has_value.
  - by rewrite andb_false_r.
Qed.

(** Whatever the engine computes from a cell under the guard of
    [_has_value] only depends on the effective cell. *)
Lemma same_cells_guarded {X : Type} (row row' : Row) (c : string)
    (f : value → X) (d : X) :
  same_cells row row' →
  (if _has_value (row_get row c) then f (row_get row c) else d)
  = (if _has_value (row_get row' c) then f (row_get row' c) else d).
Proof.
  intros Hs. specialize (Hs c). unfold effective in Hs.
  destruct (_has_value (row_get row c)), (_has_value (row_get row' c));
    congruence.
Qed.

Lemma same_cells_first_candidate (row row' : Row) (cs : list string) :
  same_cells row row' → first_candidate row cs = first_candidate row' cs.
Proof.
  intros Hs. induction cs as [|c cs IH]; simpl; [done|].
  rewrite !candidate_guard, IH.
  apply (same_cells_guarded row row' c (λ v, Some (str_strip v)) _ Hs).
Qed.

Ltac same_cell Hs c :=
  let H := fresh "H" in
  pose proof (Hs c) as H; unfold effective in H;
  destruct (_has_value (row_get _ c)); destruct (_has_value (row_get _ c));
  try discriminate H; [injection H as H; rewrite ?H|]; try done.

Lemma same_cells_update (journal : Journal.t) (row row' : Row) :
  same_cells row row' →
  _update_journal_from_row journal row = _update_journal_from_row journal row'.
Proof.
  intros Hs. unfold _update_journal_from_row. cbv zeta.
  assert (∀ j, merge_title j row = merge_title j row') as ->.
  { intros j. unfold merge_title. same_cell Hs "title"%string. }
  assert (∀ j, merge_language j row = merge_language j row') as ->.
  { intros j. unfold merge_language. cbv zeta.
    same_cell Hs "language"%string. }
  assert (∀ j, merge_publisher j row = merge_publisher j row') as ->.
  { intros j. unfold merge_publisher. same_cell Hs "publisher"%string. }
  assert (∀ j, merge_seal j row = merge_seal j row') as ->.
  { intros j. unfold merge_seal. cbv zeta. same_cell Hs "seal"%string. }
  assert (∀ j, merge_licence j row = merge_licence j row') as ->.
  { intros j. unfold merge_licence. cbv zeta.
    same_cell Hs "licence"%string. }
  assert (∀ j, merge_apc j row = merge_apc j row') as ->.
  { intros j. unfold merge_apc. cbv zeta. same_cell Hs "apc"%string. }
  done.
Qed.

Lemma same_cells_journal (row row' : Row) :
  same_cells row row' →
  _dataframe_to_journal row = _dataframe_to_journal row'.
Proof.
  intros Hs. unfold _dataframe_to_journal. cbv zeta.
  rewrite !row_get_guarded.
  rewrite (same_cells_guarded row row' "title" (λ v, str_strip v) "" Hs).
  rewrite (same_cells_guarded row row' "language" (λ v, [str_strip v]) [] Hs).
  rewrite (same_cells_guarded row row' "publisher"
             (λ v, Some (str_strip v)) None Hs).
  rewrite (same_cells_guarded row row' "seal" (λ v, _to_bool v) false Hs).
  rewrite (same_cells_guarded row row' "licence" (λ v, str_strip v) "" Hs).
  rewrite (same_cells_guarded row row' "apc" (λ v, _to_bool v) false Hs).
  do 7 f_equal.
  pose proof (Hs "issn"%string) as Hi. unfold effective in Hi.
  destruct (_has_value (row_get row "issn")) eqn:Hvi;
    destruct (_has_value (row_get row' "issn")) eqn:Hvi';
    try discriminate Hi; cbn [negb].
  - injection Hi as Hi. by rewrite Hvi, Hvi', Hi.
  - apply (same_cells_guarded row row' "eissn"
             (λ v, setId (str_strip v) Journal.new) Journal.new Hs).
Qed.

Lemma same_cells_merge_row (o : option Journal.t) (row row' : Row) :
  same_cells row row' → merge_row o row = merge_row o row'.
Proof.
  intros Hs. unfold merge_row. destruct o as [j|].
  - by rewrite (same_cells_update j row row' Hs).
  - by rewrite (same_cells_journal row row' Hs).
Qed.

Lemma same_cells_row_key (row row' : Row) :
  same_cells row row' → row_key row = row_key row'.
Proof. apply same_cells_first_candidate. Qed.

(** A row of a frame reads like the row of its solution alone: the columns
    added for the sake of other rows hold [nan]. *)
Lemma to_frame_same_cells (bindings : list Graph.binding) :
  Forall2 same_cells (Graph.to_frame bindings) (binding_row <$> bindings).
Proof.
  unfold Graph.to_frame. cbv zeta. generalize (⋃ (dom <$> bindings) : gset string).
  intros columns. apply Forall2_fmap, Forall_Forall2_diag, Forall_forall.
  intros b _ c. unfold effective, row_get, binding_row.
  rewrite lookup_union, !lookup_fmap, lookup_gset_to_gmap.
  destruct (b !! c) as [s|]; simpl.
  - by destruct (guard _).
  - by destruct (guard _).
Qed.

Lemma foldl_merge_same_cells (rows rows' : list Row) (k : string)
    (o : option Journal.t) :
  Forall2 same_cells rows rows' →
  foldl merge_row o (filter (λ r, row_key r = Some k) rows)
  = foldl merge_row o (filter (λ r, row_key r = Some k) rows').
Proof.
  intros Hrows. revert o.
  induction Hrows as [|r r' rows rows' Hr _ IH]; intros o; [done|].
  rewrite !filter_cons, <- (same_cells_row_key r r' Hr).
  destruct (decide (row_key r = Some k)); [|done].
  simpl. by rewrite (same_cells_merge_row o r r' Hr).
Qed.

Lemma Forall2_same_cells_keys (rows rows' : list Row) :
  Forall2 same_cells rows rows' →
  Forall (λ r, is_Some (row_key r)) rows' →
  Forall (λ r, is_Some (row_key r)) rows.
Proof.
  induction 1 as [|r r' rows rows' Hr _ IH]; [done|].
  intros [Hk Hks]%Forall_cons. constructor; [|by apply IH].
  by rewrite (same_cells_row_key r r' Hr).
Qed.

(** ** The merge, key by key *)

Lemma _get_journal_key_row_key (row : Row) (idx : nat) (k : string) :
  row_key row = Some k → _get_journal_key row idx = k.
Proof. unfold _get_journal_key, row_key. by intros ->. Qed.

(** The entry under a key only depends on the rows with that key, in their
    order. *)
Lemma collect_journals_from_get (rows : DataFrame) (idx : nat)
    (target : list (string * Journal.t)) (k : string) :
  Forall (λ r, is_Some (row_key r)) rows →
  od_get k (collect_journals_from idx rows target)
  = foldl merge_row (od_get k target)
      (filter (λ r, row_key r = Some k) rows).
Proof.
  intros Hrows. revert idx target.
  induction Hrows as [|row rows [k' Hk'] _ IH]; intros idx target; [done|].
  cbn [collect_journals_from]. rewrite IH, collect_journal_row_get.
  rewrite (_get_journal_key_row_key row idx k' Hk'), filter_cons, Hk'.
  destruct (decide (k = k')) as [->|Hne].
  - rewrite decide_True by done. done.
  - rewrite decide_False by congruence. done.
Qed.

Lemma _collect_journals_get (df : DataFrame)
    (target : list (string * Journal.t)) (k : string) :
  Forall (λ r, is_Some (row_key r)) df →
  od_get k (_collect_journals df target)
  = foldl merge_row (od_get k target) (filter (λ r, row_key r = Some k) df).
Proof.
  intros Hdf. unfold _collect_journals. destruct df as [|row df]; [done|].
  by apply collect_journals_from_get.
Qed.

Lemma collect_journals_from_NoDup (rows : DataFrame) (idx : nat)
    (target : list (string * Journal.t)) :
  NoDup (od_keys target) →
  NoDup (od_keys (collect_journals_from idx rows target)).
Proof.
  revert idx target. induction rows as [|row rows IH]; intros idx target Hnd;
    [done|].
  simpl. apply IH. by apply collect_journal_row_NoDup.
Qed.

Lemma _collect_journals_NoDup (df : DataFrame)
    (target : list (string * Journal.t)) :
  NoDup (od_keys target) → NoDup (od_keys (_collect_journals df target)).
Proof.
  intros Hnd. unfold _collect_journals. destruct (df_empty df); [done|].
  by apply collect_journals_from_NoDup.
Qed.

(** The entry under a key after a frame has been merged, in terms of the
    solutions the frame was made of. *)
Lemma frame_get (bindings : list Graph.binding)
    (target : list (string * Journal.t)) (k : string) :
  Forall (λ b, is_Some (row_key (binding_row b))) bindings →
  od_get k (_collect_journals (Graph.to_frame bindings) target)
  = foldl merge_row (od_get k target)
      (binding_row <$>
         filter (λ b, row_key (binding_row b) = Some k) bindings).
Proof.
  intros Hkeys. pose proof (to_frame_same_cells bindings) as Hsame.
  rewrite _collect_journals_get.
  - rewrite (foldl_merge_same_cells _ _ k _ Hsame).
    by rewrite filter_fmap.
  - eapply Forall2_same_cells_keys; [exact Hsame|]. by apply Forall_fmap.
Qed.

(** ** The order of [ORDER BY ?title] *)

Lemma title_leb_refl (b : Graph.binding) : Graph.title_leb b b = true.
Proof.
  unfold Graph.title_leb. destruct (b !! "title"%string) as [t|]; [|done].
  apply Is_true_true. by apply (reflexivity (R := String.le)).
Qed.

Lemma title_leb_trans (b1 b2 b3 : Graph.binding) :
  Graph.title_leb b1 b2 = true → Graph.title_leb b2 b3 = true →
  Graph.title_leb b1 b3 = true.
Proof.
  unfold Graph.title_leb.
  destruct (b1 !! "title"%string) as [t1|], (b2 !! "title"%string) as [t2|],
    (b3 !! "title"%string) as [t3|]; try done.
  intros H12%Is_true_true H23%Is_true_true. apply Is_true_true.
  by apply (transitivity (R := String.le) (y := t2)).
Qed.

Lemma title_leb_total (b1 b2 : Graph.binding) :
  Graph.title_leb b1 b2 = true ∨ Graph.title_leb b2 b1 = true.
Proof.
  unfold Graph.title_leb.
  destruct (b1 !! "title"%string) as [t1|], (b2 !! "title"%string) as [t2|];
    auto.
  destruct (total String.le t1 t2) as [H|H]; apply Is_true_true in H; auto.
Qed.

Lemma project_lookup (b : Graph.binding) (c : string) :
  Graph.project b !! c = if decide (c ∈ Graph.selected) then b !! c else None.
Proof.
  unfold Graph.project. rewrite map_lookup_filter.
  destruct (b !! c) as [s|]; simpl.
  - destruct (decide (c ∈ Graph.selected)).
    + by rewrite option_guard_True.
    + by rewrite option_guard_False.
  - by destruct (decide _).
Qed.

Lemma title_leb_project (b1 b2 : Graph.binding) :
  Graph.title_leb (Graph.project b1) (Graph.project b2)
  = Graph.title_leb b1 b2.
Proof. unfold Graph.title_leb. by rewrite !project_lookup. Qed.

Lemma project_targetId (b : Graph.binding) (v : string) :
  Graph.project (<["targetId"%string := v]> b) = Graph.project b.
Proof.
  apply map_eq. intros c. rewrite !project_lookup.
  destruct (decide (c ∈ Graph.selected)) as [Hc|]; [|done].
  rewrite lookup_insert_ne; [done|]. intros <-. revert Hc.
  unfold Graph.selected. set_solver.
Qed.

Lemma anyId_targetId (b : Graph.binding) (v : string) :
  Graph.anyId (<["targetId"%string := v]> b) = Graph.anyId b.
Proof. unfold Graph.anyId. by rewrite !lookup_insert_ne. Qed.

(** ** What the store answers to [getJournalsByIssns] *)

Lemma solutions_ByIssns (values : list string) (n : Graph.node) :
  Graph.solutions (Graph.ByIssns values) n
  = filter (λ b, Graph.anyId_in values b)
      (Graph.solutions Graph.AllJournals n
         ≫= Graph.values_table "targetId" values).
Proof. done. Qed.

Lemma filter_values_table (values : list string) (l : list Graph.binding) :
  filter (λ b, Graph.anyId_in values b)
    (l ≫= Graph.values_table "targetId" values)
  = filter (λ b, Graph.anyId_in values b) l
      ≫= Graph.values_table "targetId" values.
Proof.
  induction l as [|b l IH]; [done|].
  rewrite bind_cons, filter_app, IH, filter_cons.
  assert (filter (λ b, Graph.anyId_in values b)
            (Graph.values_table "targetId" values b)
          = if decide (Graph.anyId_in values b)
            then Graph.values_table "targetId" values b else []) as ->.
  { unfold Graph.values_table, Graph.required. rewrite filter_fmap.
    destruct (decide (Graph.anyId_in values b)) as [Hb|Hb].
    - f_equal. apply filter_all, Forall_forall. intros v _.
      unfold Graph.anyId_in. by rewrite anyId_targetId.
    - rewrite filter_none; [done|]. apply Forall_forall. intros v _.
      unfold Graph.anyId_in. by rewrite anyId_targetId. }
  destruct (decide (Graph.anyId_in values b)); [|done].
  by rewrite bind_cons.
Qed.

Lemma store_solutions_ByIssns (store : list Graph.node)
    (values : list string) :
  store ≫= Graph.solutions (Graph.ByIssns values)
  = filter (λ b, Graph.anyId_in values b)
      (store ≫= Graph.solutions Graph.AllJournals)
      ≫= Graph.values_table "targetId" values.
Proof.
  induction store as [|n store IH]; [done|].
  rewrite !bind_cons, IH, solutions_ByIssns, filter_values_table.
  by rewrite filter_app, bind_app.
Qed.

Lemma fmap_bind_replicate {A B : Type} (f : A → B) (n : nat) (l : list A) :
  f <$> (l ≫= replicate n) = (f <$> l) ≫= replicate n.
Proof.
  induction l as [|x l IH]; [done|].
  by rewrite fmap_cons, !bind_cons, fmap_app, fmap_replicate, IH.
Qed.

Lemma project_values_table (values : list string) (l : list Graph.binding) :
  Graph.project <$> (l ≫= Graph.values_table "targetId" values)
  = (Graph.project <$> l) ≫= replicate (length values).
Proof.
  induction l as [|b l IH]; [done|].
  rewrite fmap_cons, !bind_cons, fmap_app, IH. f_equal.
  unfold Graph.values_table, Graph.required.
  clear IH. induction values as [|v values IH]; [done|].
  cbn [length replicate]. by rewrite !fmap_cons, project_targetId, IH.
Qed.

(** The answer of a store: the titled solutions whose identifier is asked
    for, in title order, each as many times as identifiers were sent. *)
Lemma eval_ByIssns (store : list Graph.node) (values : list string) :
  Graph.eval store (Graph.ByIssns values)
  = sorted_by Graph.title_leb
      (Graph.project <$>
         filter (λ b, Graph.anyId_in values b)
           (store ≫= Graph.solutions Graph.AllJournals))
      ≫= replicate (length values).
Proof.
  unfold Graph.eval. cbn [Graph.ordered]. cbv zeta.
  rewrite store_solutions_ByIssns.
  rewrite <- (sorted_by_fmap Graph.title_leb Graph.title_leb)
    by apply title_leb_project.
  rewrite project_values_table.
  apply sorted_by_bind_replicate;
    [apply title_leb_refl | apply title_leb_trans | apply title_leb_total].
Qed.

(** ** The identifiers a clean store binds *)

Lemma pattern_invariant (I : Graph.binding → Prop)
    (steps : list (Graph.binding → list Graph.binding))
    (sols : list Graph.binding) :
  Forall (λ step, ∀ b b', I b → b' ∈ step b → I b') steps →
  (∀ b, b ∈ sols → I b) →
  ∀ b, b ∈ foldl (λ sols step, sols ≫= step) sols steps → I b.
Proof.
  intros Hsteps. revert sols.
  induction Hsteps as [|step steps Hstep _ IH]; intros sols Hall; [done|].
  simpl. apply IH.
  intros b (b0 & Hb & Hb0)%list_elem_of_bind. eauto.
Qed.

Lemma required_binds (I : string → Prop) (x var : string)
    (vals : list string) (b b' : Graph.binding) :
  (var = x → Forall I vals) →
  (∀ v, b !! x = Some v → I v) → b' ∈ Graph.required var vals b →
  ∀ v, b' !! x = Some v → I v.
Proof.
  intros Hvals Hb (u & -> & Hu)%list_elem_of_fmap v.
  destruct (decide (var = x)) as [->|Hne].
  - rewrite lookup_insert_eq. intros [= <-].
    by eapply Forall_forall; [apply Hvals|].
  - rewrite lookup_insert_ne by done. apply Hb.
Qed.

Lemma optional_binds (I : string → Prop) (x var : string)
    (vals : list string) (b b' : Graph.binding) :
  (var = x → Forall I vals) →
  (∀ v, b !! x = Some v → I v) → b' ∈ Graph.optional var vals b →
  ∀ v, b' !! x = Some v → I v.
Proof.
  intros Hvals Hb. destruct vals as [|u vals].
  - by intros ->%list_elem_of_singleton.
  - by apply required_binds.
Qed.

Lemma solutions_bind (I : string → Prop) (x : string) (n : Graph.node)
    (b : Graph.binding) :
  x ≠ "journal"%string →
  (x = "issn"%string → Forall I (Graph.issn n)) →
  (x = "eissn"%string → Forall I (Graph.eissn n)) →
  (x ≠ "issn"%string → x ≠ "eissn"%string → False) →
  b ∈ Graph.solutions Graph.AllJournals n →
  ∀ v, b !! x = Some v → I v.
Proof.
  intros Hj Hissn Heissn Hx. unfold Graph.solutions, Graph.pattern.
  apply (pattern_invariant (λ b, ∀ v, b !! x = Some v → I v)).
  - repeat (constructor;
      [intros b0 b' Hb0 Hb';
       first [eapply required_binds; [|exact Hb0|exact Hb']
             |eapply optional_binds; [|exact Hb0|exact Hb']];
       intros <-;
       first [by auto | by exfalso; apply Hx]|]).
    constructor.
  - intros b0 ->%list_elem_of_singleton v.
    by rewrite lookup_singleton_ne.
Qed.

Lemma store_solutions_clean (store : list Graph.node) (b : Graph.binding)
    (v : string) :
  clean_store store →
  b ∈ store ≫= Graph.solutions Graph.AllJournals →
  Graph.anyId b = Some v → clean_id v.
Proof.
  intros Hstore (n & Hb & Hn)%list_elem_of_bind.
  destruct (Hstore n Hn) as [Hissn Heissn].
  unfold Graph.anyId. destruct (b !! "issn"%string) as [u|] eqn:Hu.
  - intros [= <-].
    by apply (solutions_bind clean_id "issn" n b); [..|exact Hu].
  - by apply (solutions_bind clean_id "eissn" n b).
Qed.

(** A solution whose identifier is clean is keyed by that identifier. *)
Lemma row_key_anyId (b : Graph.binding) (v : string) :
  Graph.anyId b = Some v → clean_id v →
  row_key (binding_row (Graph.project b)) = Some v.
Proof.
  intros Hid [Hstrip Hne]. unfold row_key, binding_row. cbn [first_candidate].
  unfold row_has, row_get. rewrite !lookup_fmap, !project_lookup.
  rewrite !decide_True by (unfold Graph.selected; set_solver).
  assert (_has_value (VStr v) = true) as Hv.
  { cbn. rewrite Hstrip. by apply bool_decide_eq_true. }
  assert (str_strip (VStr v) = v) as Hs by done.
  revert Hid. unfold Graph.anyId.
  destruct (b !! "issn"%string) as [u|].
  - intros [= ->]. rewrite bool_decide_true by (cbn; eauto).
    change (default VNone (VStr <$> Some v)) with (VStr v).
    by rewrite Hv, Hs.
  - intros ->. rewrite bool_decide_false by (by intros [? ?]).
    rewrite bool_decide_true by (cbn; eauto).
    change (default VNone (VStr <$> Some v)) with (VStr v).
    by rewrite Hv, Hs.
Qed.

(** ** Merging the same row twice *)

Lemma journal_ext (j j' : Journal.t) :
  getIds j = getIds j' →
  Journal.getTitle j = Journal.getTitle j' →
  Journal.getLanguages j = Journal.getLanguages j' →
  Journal.getPublisher j = Journal.getPublisher j' →
  Journal.hasDOASeal j = Journal.hasDOASeal j' →
  Journal.getLicence j = Journal.getLicence j' →
  Journal.hasAPC j = Journal.hasAPC j' →
  Journal.getCategories j = Journal.getCategories j' →
  Journal.getAreas j = Journal.getAreas j' →
  j = j'.
Proof. destruct j, j'. cbn. by intros -> -> -> -> -> -> -> -> ->. Qed.

Lemma _update_journal_from_row_links (journal : Journal.t) (row : Row) :
  Journal.getCategories (_update_journal_from_row journal row)
    = Journal.getCategories journal
  ∧ Journal.getAreas (_update_journal_from_row journal row)
    = Journal.getAreas journal.
Proof.
  unfold _update_journal_from_row. cbv zeta.
  unfold merge_apc, merge_licence, merge_seal, merge_publisher,
    merge_language, merge_title. cbv zeta.
  repeat match goal with
         | |- context [if ?c then _ else _] => destruct c
         end; done.
Qed.

Lemma _dataframe_to_journal_fields (row : Row) :
  let journal := default Journal.new (_dataframe_to_journal row) in
  Journal.getTitle journal =
    (if _has_value (row_get row "title") then str_strip (row_get row "title")
     else "")
  ∧ Journal.getLanguages journal =
      (if _has_value (row_get row "language")
       then [str_strip (row_get row "language")] else [])
  ∧ Journal.getPublisher journal =
      (if _has_value (row_get row "publisher")
       then Some (str_strip (row_get row "publisher")) else None)
  ∧ Journal.hasDOASeal journal =
      (if _has_value (row_get row "seal") then _to_bool (row_get row "seal")
       else false)
  ∧ Journal.getLicence journal =
      (if _has_value (row_get row "licence")
       then str_strip (row_get row "licence") else "")
  ∧ Journal.hasAPC journal =
      (if _has_value (row_get row "apc") then _to_bool (row_get row "apc")
       else false).
Proof.
  cbv zeta. split_and!; try reflexivity.
  unfold _dataframe_to_journal. cbv zeta.
  by rewrite (row_get_guarded row "language").
Qed.

Lemma _update_journal_from_row_twice (journal : Journal.t) (row : Row) :
  _update_journal_from_row (_update_journal_from_row journal row) row
  = _update_journal_from_row journal row.
Proof.
  set (j' := _update_journal_from_row journal row).
  destruct (_update_journal_from_row_fields j' row)
    as (T2 & L2 & P2 & S2 & C2 & A2 & I2).
  destruct (_update_journal_from_row_links j' row) as [K2 R2].
  destruct (_update_journal_from_row_fields journal row)
    as (T1 & L1 & P1 & S1 & C1 & A1 & _).
  fold j' in T1, L1, P1, S1, C1, A1.
  apply journal_ext; try done.
  - rewrite T2, T1.
    destruct (Py.truthy (Journal.getTitle journal)) eqn:Ht; [by rewrite Ht|].
    destruct (_has_value (row_get row "title")) eqn:Hv; [|by rewrite Ht].
    by rewrite (str_strip_truthy _ Hv).
  - rewrite L2, L1.
    destruct (_has_value (row_get row "language")); [|done]. simpl.
    destruct (bool_decide_reflect
                (str_strip (row_get row "language")
                   ∉ Journal.getLanguages journal)) as [Hl|Hl].
    + rewrite bool_decide_false; [done|].
      intros Hn. apply Hn, elem_of_app. right. by left.
    + by rewrite bool_decide_false.
  - rewrite P2, P1.
    destruct (opt_truthy (Journal.getPublisher journal)) eqn:Ht;
      [by rewrite Ht|].
    destruct (_has_value (row_get row "publisher")) eqn:Hv; [|by rewrite Ht].
    simpl. by rewrite (str_strip_truthy _ Hv).
  - rewrite S2, S1. by destruct (_has_value (row_get row "seal")).
  - rewrite C2, C1.
    destruct (Py.truthy (Journal.getLicence journal)) eqn:Ht; [by rewrite Ht|].
    destruct (_has_value (row_get row "licence")) eqn:Hv; [|by rewrite Ht].
    by rewrite (str_strip_truthy _ Hv).
  - rewrite A2, A1. by destruct (_has_value (row_get row "apc")).
Qed.

Lemma _update_journal_from_row_fresh (row : Row) :
  _update_journal_from_row (default Journal.new (_dataframe_to_journal row))
    row
  = default Journal.new (_dataframe_to_journal row).
Proof.
  set (j' := default Journal.new (_dataframe_to_journal row)).
  destruct (_update_journal_from_row_fields j' row)
    as (T2 & L2 & P2 & S2 & C2 & A2 & I2).
  destruct (_update_journal_from_row_links j' row) as [K2 R2].
  destruct (_dataframe_to_journal_fields row) as (T1 & L1 & P1 & S1 & C1 & A1).
  fold j' in T1, L1, P1, S1, C1, A1.
  apply journal_ext; try done.
  - rewrite T2, T1.
    destruct (_has_value (row_get row "title")) eqn:Hv; [|done].
    by rewrite (str_strip_truthy _ Hv).
  - rewrite L2, L1.
    destruct (_has_value (row_get row "language")); [|done]. simpl.
    rewrite bool_decide_false; [done|]. intros Hn. apply Hn. by left.
  - rewrite P2, P1.
    destruct (_has_value (row_get row "publisher")) eqn:Hv; [|done].
    simpl. by rewrite (str_strip_truthy _ Hv).
  - rewrite S2, S1. by destruct (_has_value (row_get row "seal")).
  - rewrite C2, C1.
    destruct (_has_value (row_get row "licence")) eqn:Hv; [|done].
    by rewrite (str_strip_truthy _ Hv).
  - rewrite A2, A1. by destruct (_has_value (row_get row "apc")).
Qed.

Lemma merge_row_twice (o : option Journal.t) (row : Row) :
  merge_row (merge_row o row) row = merge_row o row.
Proof.
  unfold merge_row. f_equal. destruct o as [j|].
  - apply _update_journal_from_row_twice.
  - apply _update_journal_from_row_fresh.
Qed.

Lemma foldl_merge_row_replicate (o : option Journal.t) (row : Row) (n : nat) :
  foldl merge_row (merge_row o row) (replicate n row) = merge_row o row.
Proof.
  induction n as [|n IH]; [done|]. simpl. by rewrite merge_row_twice.
Qed.

(** Repeating every row changes nothing. *)
Lemma foldl_merge_row_repeated (o : option Journal.t) (rows : list Row)
    (n : nat) :
  0 < n →
  foldl merge_row o (rows ≫= replicate n) = foldl merge_row o rows.
Proof.
  intros Hn. destruct n as [|n]; [lia|]. clear Hn. revert o.
  induction rows as [|row rows IH]; intros o; [done|].
  rewrite bind_cons, foldl_app. cbn [replicate foldl].
  by rewrite foldl_merge_row_replicate, IH.
Qed.

(** ** One call, key by key *)

Lemma filter_bind_replicate {A : Type} (P : A → Prop)
    `{∀ y, Decision (P y)} (n : nat) (l : list A) :
  filter P (l ≫= replicate n) = filter P l ≫= replicate n.
Proof.
  induction l as [|x l IH]; [done|].
  rewrite bind_cons, filter_app, filter_replicate, filter_cons, IH.
  destruct (decide (P x)); [|done]. by rewrite bind_cons.
Qed.

Lemma filter_key_anyId (values : list string) (k : string)
    (l : list Graph.binding) :
  Forall (λ b, ∀ v, Graph.anyId b = Some v → clean_id v) l →
  filter (λ b, row_key (binding_row (Graph.project b)) = Some k)
    (filter (λ b, Graph.anyId_in values b) l)
  = if decide (k ∈ values) then filter (λ b, Graph.anyId b = Some k) l
    else [].
Proof.
  induction 1 as [|b l Hb _ IH]; [by destruct (decide _)|].
  destruct (Graph.anyId b) as [v|] eqn:Hv.
  - destruct (decide (v ∈ values)) as [Hin|Hin].
    + rewrite (filter_cons_True (λ b, Is_true (Graph.anyId_in values b)))
        by (unfold Graph.anyId_in; rewrite Hv; by apply bool_decide_spec).
      rewrite filter_cons, (row_key_anyId b v Hv (Hb v eq_refl)), IH.
      destruct (decide (Some v = Some k)) as [[= ->]|Hne].
      * rewrite !decide_True by done.
        by rewrite (filter_cons_True (λ b, Graph.anyId b = Some k)).
      * destruct (decide (k ∈ values)); [|done].
        rewrite (filter_cons_False (λ b, Graph.anyId b = Some k)); [done|].
        by rewrite Hv.
    + rewrite (filter_cons_False (λ b, Is_true (Graph.anyId_in values b))).
      2:{ unfold Graph.anyId_in. rewrite Hv.
          by intros ?%bool_decide_unpack. }
      rewrite IH. destruct (decide (k ∈ values)) as [Hk|]; [|done].
      rewrite (filter_cons_False (λ b, Graph.anyId b = Some k)); [done|].
      rewrite Hv. intros ?. by simplify_eq.
  - rewrite (filter_cons_False (λ b, Is_true (Graph.anyId_in values b)))
      by (unfold Graph.anyId_in; rewrite Hv; intros []).
    rewrite IH. destruct (decide (k ∈ values)); [|done].
    rewrite (filter_cons_False (λ b, Graph.anyId b = Some k)); [done|].
    by rewrite Hv.
Qed.

Lemma eval_ByIssns_keys (store : list Graph.node) (values : list string) :
  clean_store store →
  Forall (λ b, is_Some (row_key (binding_row b)))
    (Graph.eval store (Graph.ByIssns values)).
Proof.
  intros Hstore. rewrite eval_ByIssns. apply Forall_forall.
  intros b (b1 & Hb%elem_of_replicate & Hb1)%list_elem_of_bind.
  destruct Hb as [-> _]. rewrite sorted_by_Permutation in Hb1.
  apply list_elem_of_fmap in Hb1 as (b0 & -> & Hb0).
  apply list_elem_of_filter in Hb0 as [Hin Hb0].
  unfold Graph.anyId_in in Hin.
  destruct (Graph.anyId b0) as [v|] eqn:Hv; [|done].
  exists v. apply row_key_anyId; [done|].
  by apply (store_solutions_clean store b0).
Qed.

(** What one answer of a clean store does to the entry of [k]: the rows
    about [k] are merged into it if [k] was asked for, each as many times
    as identifiers were sent; otherwise the entry stays. *)
Lemma store_frame_get (store : list Graph.node) (values : list string)
    (target : list (string * Journal.t)) (k : string) :
  clean_store store →
  od_get k
    (_collect_journals
       (Graph.to_frame (Graph.eval store (Graph.ByIssns values))) target)
  = if decide (k ∈ values)
    then foldl merge_row (od_get k target) (rows_about store k)
    else od_get k target.
Proof.
  intros Hstore. rewrite frame_get by by apply eval_ByIssns_keys.
  rewrite eval_ByIssns, filter_bind_replicate.
  rewrite filter_sorted_by
    by (first [apply title_leb_refl|apply title_leb_trans
              |apply title_leb_total]).
  rewrite filter_fmap, filter_key_anyId.
  - destruct (decide (k ∈ values)) as [Hk|Hk]; [|done].
    rewrite fmap_bind_replicate. apply foldl_merge_row_repeated.
    destruct values; [by apply elem_of_nil in Hk|simpl; lia].
  - apply Forall_forall. intros b Hb v Hv.
    by apply (store_solutions_clean store b).
Qed.

(** ** One handler, key by key *)

Lemma answer_get (w : World) (handler : QueryHandler) (ids : list string)
    (target : list (string * Journal.t)) (k : string) :
  (∀ store, endpoint w (_dbPathOrUrl handler) = Some store →
            clean_store store) →
  Forall (λ i, i ≠ ""%string) ids →
  od_get k
    (_collect_journals
       (journals_by_issns_answer w handler (list_to_set ids)) target)
  = if decide (k ∈ ids) then merged_from w handler k (od_get k target)
    else od_get k target.
Proof.
  intros Hclean Hids. unfold journals_by_issns_answer, merged_from. cbv zeta.
  set (cleaned := filter (λ issn : string, Is_true (Py.truthy issn))
                    (elements (list_to_set ids : gset string))).
  assert (∀ i, i ∈ cleaned ↔ i ∈ ids) as Hcleaned.
  { intros i. unfold cleaned.
    rewrite list_elem_of_filter, elem_of_elements, elem_of_list_to_set.
    split; [by intros [_ ?]|]. intros Hi. split; [|done].
    apply bool_decide_pack. by eapply Forall_forall in Hids. }
  destruct (bool_decide_reflect (cleaned = [])) as [Hnil|_].
  - unfold _collect_journals. simpl.
    destruct (decide (k ∈ ids)) as [Hk|]; [|done].
    apply Hcleaned in Hk. rewrite Hnil in Hk. by apply elem_of_nil in Hk.
  - unfold sparql_answer.
    destruct (endpoint w (_dbPathOrUrl handler)) as [store|] eqn:Hstore.
    + rewrite store_frame_get by by apply Hclean.
      unfold py_sorted.
      destruct (decide (k ∈ sorted_by String.leb cleaned)) as [Hk|Hk];
        rewrite sorted_by_Permutation, Hcleaned in Hk.
      * by rewrite decide_True.
      * by rewrite decide_False.
    + unfold _collect_journals. simpl. by destruct (decide _).
Qed.

Lemma chunks_get (w : World) (handler : QueryHandler)
    (chunks : list (list string)) (target : list (string * Journal.t))
    (k : string) :
  (∀ store, endpoint w (_dbPathOrUrl handler) = Some store →
            clean_store store) →
  Forall (λ i, i ≠ ""%string) (concat chunks) → NoDup (concat chunks) →
  od_get k
    (foldl (λ m chunk,
              _collect_journals
                (journals_by_issns_answer w handler (list_to_set chunk)) m)
       target chunks)
  = if decide (k ∈ concat chunks)
    then merged_from w handler k (od_get k target)
    else od_get k target.
Proof.
  intros Hclean. revert target.
  induction chunks as [|chunk chunks IH]; intros target Hids Hnd.
  - cbn [foldl concat]. rewrite decide_False; [done|]. apply not_elem_of_nil.
  - cbn [foldl concat] in *.
    apply Forall_app in Hids as [Hchunk Hrest].
    apply NoDup_app in Hnd as (_ & Hdisjoint & Hnd).
    rewrite IH, answer_get by done.
    destruct (decide (k ∈ chunk)) as [Hk|Hk].
    + rewrite decide_False by by apply Hdisjoint.
      rewrite decide_True; [done|]. apply elem_of_app. by left.
    + destruct (decide (k ∈ concat chunks)) as [Hk'|Hk'].
      * rewrite decide_True; [done|]. apply elem_of_app. by right.
      * rewrite decide_False; [done|]. by intros [?|?]%elem_of_app.
Qed.

Lemma chunks_NoDup (w : World) (handler : QueryHandler)
    (chunks : list (list string)) (target : list (string * Journal.t)) :
  NoDup (od_keys target) →
  NoDup (od_keys
           (foldl (λ m chunk,
                     _collect_journals
                       (journals_by_issns_answer w handler
                          (list_to_set chunk)) m)
              target chunks)).
Proof.
  revert target. induction chunks as [|chunk chunks IH]; intros target Hnd;
    [done|].
  simpl. by apply IH, _collect_journals_NoDup.
Qed.

(** ** All handlers *)

Lemma NoDup_omap_id {A : Type} (l : list (option A)) :
  NoDup l → NoDup (omap id l).
Proof.
  induction 1 as [|[a|] l Hx _ IH]; simpl; [constructor| |done].
  constructor; [|done]. intros Ha. apply Hx.
  apply list_elem_of_omap in Ha as (o & Ho & ?). simpl in *. by subst.
Qed.

Lemma cleaned_ids_NoDup (issns : gset Sql.cell) : NoDup (cleaned_ids issns).
Proof.
  unfold cleaned_ids, py_sorted. rewrite sorted_by_Permutation.
  apply NoDup_filter, NoDup_omap_id, NoDup_elements.
Qed.

Lemma cleaned_ids_truthy (issns : gset Sql.cell) :
  Forall (λ i, i ≠ ""%string) (cleaned_ids issns).
Proof.
  unfold cleaned_ids, py_sorted. rewrite sorted_by_Permutation.
  apply Forall_forall. intros i [Hi _]%list_elem_of_filter.
  by apply bool_decide_unpack in Hi.
Qed.

Lemma fetch_handlers_unchunked_eq (w : World) (handlers : list QueryHandler)
    (ids : list string) (journal_map : list (string * Journal.t))
    (tr : list call) :
  ∃ tr',
    fetch_handlers_unchunked w handlers ids journal_map tr =
      (Ok (foldl (λ m handler,
                    _collect_journals
                      (journals_by_issns_answer w handler (list_to_set ids))
                      m)
             journal_map handlers), tr').
Proof.
  revert journal_map tr.
  induction handlers as [|h hs IH]; intros journal_map tr; simpl.
  - by eexists.
  - destruct (getJournalsByIssns_eq w h (list_to_set ids) tr) as (tr1 & H1).
    rewrite (bind_Ok _ _ _ _ _ H1). apply IH.
Qed.

(** Handler after handler, the chunked and the unchunked loop keep the
    same entry under every key. *)
Lemma handlers_get (w : World) (handlers : list QueryHandler)
    (ids : list string) (chunked unchunked : list (string * Journal.t)) :
  clean_world w handlers →
  Forall (λ i, i ≠ ""%string) ids → NoDup ids →
  (∀ k, od_get k chunked = od_get k unchunked) →
  ∀ k,
    od_get k
      (foldl (λ m handler,
                foldl (λ m chunk,
                         _collect_journals
                           (journals_by_issns_answer w handler
                              (list_to_set chunk)) m)
                  m (_chunked ids 50))
         chunked handlers)
    = od_get k
        (foldl (λ m handler,
                  _collect_journals
                    (journals_by_issns_answer w handler (list_to_set ids)) m)
           unchunked handlers).
Proof.
  intros Hclean Hids Hnd. revert chunked unchunked Hclean.
  induction handlers as [|h hs IH]; intros chunked unchunked Hclean Hsame;
    [done|].
  cbn [foldl]. apply IH.
  - intros h' store Hh'. apply (Hclean h' store). by right.
  - intros k. destruct (_chunked_partition ids 50) as [Hconcat _]; [lia|].
    assert (∀ store, endpoint w (_dbPathOrUrl h) = Some store →
                     clean_store store) as Hh.
    { intros store. apply Hclean. by left. }
    rewrite chunks_get, answer_get, Hconcat, Hsame by by rewrite ?Hconcat.
    done.
Qed.

Lemma handlers_chunked_NoDup (w : World) (handlers : list QueryHandler)
    (ids : list string) (target : list (string * Journal.t)) :
  NoDup (od_keys target) →
  NoDup (od_keys
           (foldl (λ m handler,
                     foldl (λ m chunk,
                              _collect_journals
                                (journals_by_issns_answer w handler
                                   (list_to_set chunk)) m)
                       m (_chunked ids 50))
              target handlers)).
Proof.
  revert target. induction handlers as [|h hs IH]; intros target Hnd; [done|].
  cbn [foldl]. by apply IH, chunks_NoDup.
Qed.

Lemma handlers_unchunked_NoDup (w : World) (handlers : list QueryHandler)
    (ids : list string) (target : list (string * Journal.t)) :
  NoDup (od_keys target) →
  NoDup (od_keys
           (foldl (λ m handler,
                     _collect_journals
                       (journals_by_issns_answer w handler
                          (list_to_set ids)) m)
              target handlers)).
Proof.
  revert target. induction handlers as [|h hs IH]; intros target Hnd; [done|].
  cbn [foldl]. by apply IH, _collect_journals_NoDup.
Qed.

(** ** The requests of the chunked loop *)

Lemma py_sorted_sorted (l : list string) :
  StronglySorted String.le (py_sorted l).
Proof.
  pose proof (sorted_by_sorted String.leb) as Hsorted.
  unfold py_sorted.
  eapply (Sorted.StronglySorted_ind
            (λ l, StronglySorted String.le l)); [constructor| |apply Hsorted].
  - intros a l' _ IH Ha. constructor; [done|].
    eapply Forall_impl; [exact Ha|]. intros y Hy. by apply Is_true_true.
  - intros x y z Hxy%Is_true_true Hyz%Is_true_true. apply Is_true_true.
    by apply (transitivity (R := String.le) (y := y)).
  - intros x y. destruct (total String.le x y) as [H|H];
      [left|right]; by apply Is_true_true.
Qed.

Lemma py_sorted_chunk (chunk : list string) :
  StronglySorted String.le chunk → NoDup chunk →
  Forall (λ i, i ≠ ""%string) chunk →
  py_sorted
    (filter (λ issn, Py.truthy issn) (elements (list_to_set chunk : gset string)))
  = chunk.
Proof.
  intros Hsorted Hnd Hids.
  apply (StronglySorted_unique String.le); [apply py_sorted_sorted|done|].
  unfold py_sorted. rewrite sorted_by_Permutation.
  rewrite filter_all; [by apply elements_list_to_set|].
  apply Forall_forall. intros i Hi%elem_of_elements%elem_of_list_to_set.
  apply bool_decide_pack. by eapply Forall_forall in Hids.
Qed.

Lemma getJournalsByIssns_chunk (w : World) (self : QueryHandler)
    (chunk : list string) (tr : list call) :
  chunk ≠ [] → StronglySorted String.le chunk → NoDup chunk →
  Forall (λ i, i ≠ ""%string) chunk →
  JournalQueryHandler_getJournalsByIssns w self (list_to_set chunk) tr
  = (Ok (journals_by_issns_answer w self (list_to_set chunk)),
     tr ++ [SparqlCall (_dbPathOrUrl self) (Graph.ByIssns chunk)]).
Proof.
  intros Hne Hsorted Hnd Hids.
  unfold JournalQueryHandler_getJournalsByIssns, journals_by_issns_answer.
  cbv zeta. pose proof (py_sorted_chunk chunk Hsorted Hnd Hids) as Hchunk.
  destruct (bool_decide_reflect
              (filter (λ issn, Is_true (Py.truthy issn))
                 (elements (list_to_set chunk : gset string)) = []))
    as [Hnil|_].
  - rewrite Hnil in Hchunk. by destruct chunk.
  - by rewrite Hchunk, _execute_sparql_query_eq.
Qed.

Lemma concat_chunks {A : Type} (R : relation A) (P : A → Prop)
    (chunks : list (list A)) :
  StronglySorted R (concat chunks) → NoDup (concat chunks) →
  Forall P (concat chunks) →
  Forall (λ chunk, StronglySorted R chunk ∧ NoDup chunk ∧ Forall P chunk)
    chunks.
Proof.
  induction chunks as [|chunk chunks IH]; simpl; [constructor|].
  intros Hsorted (Hnd & _ & Hnd')%NoDup_app [HP HP']%Forall_app.
  constructor.
  - split_and!; [|done..]. by apply StronglySorted_app_1_l in Hsorted.
  - apply IH; [|done..]. by apply StronglySorted_app_1_r in Hsorted.
Qed.

Lemma fetch_chunks_trace (w : World) (handler : QueryHandler)
    (chunks : list (list string)) (journal_map : list (string * Journal.t))
    (tr : list call) :
  Forall (λ chunk, 0 < length chunk) chunks →
  Forall (λ chunk, StronglySorted String.le chunk ∧ NoDup chunk
                   ∧ Forall (λ i, i ≠ ""%string) chunk) chunks →
  fetch_chunks w handler chunks journal_map tr =
    (Ok (foldl (λ m chunk,
                  _collect_journals
                    (journals_by_issns_answer w handler (list_to_set chunk))
                    m)
           journal_map chunks),
     tr ++ ((λ chunk, SparqlCall (_dbPathOrUrl handler) (Graph.ByIssns chunk))
              <$> chunks)).
Proof.
  intros Hne Hgood. revert journal_map tr.
  induction Hgood as [|chunk rest (Hsorted & Hnd & Hids) _ IH];
    intros journal_map tr; simpl.
  - by rewrite app_nil_r.
  - apply Forall_cons in Hne as [Hchunk Hrest].
    rewrite (bind_Ok _ _ _ _ _
               (getJournalsByIssns_chunk w handler chunk tr
                  ltac:(by destruct chunk; [simpl in Hchunk; lia|])
                  Hsorted Hnd Hids)).
    rewrite IH by done. by rewrite <- app_assoc.
Qed.

Lemma fetch_handlers_trace (w : World) (handlers : list QueryHandler)
    (ids : list string) (journal_map : list (string * Journal.t))
    (tr : list call) :
  StronglySorted String.le ids → NoDup ids →
  Forall (λ i, i ≠ ""%string) ids →
  fetch_handlers w handlers ids journal_map tr =
    (Ok (foldl (λ m handler,
                  foldl (λ m chunk,
                           _collect_journals
                             (journals_by_issns_answer w handler
                                (list_to_set chunk)) m)
                    m (_chunked ids 50))
           journal_map handlers),
     tr ++ (handlers ≫= λ handler,
              (λ chunk,
                 SparqlCall (_dbPathOrUrl handler) (Graph.ByIssns chunk))
                <$> _chunked ids 50)).
Proof.
  intros Hsorted Hnd Hids.
  destruct (_chunked_partition ids 50) as [Hconcat Hsizes]; [lia|].
  assert (Forall (λ chunk, 0 < length chunk) (_chunked ids 50)) as Hne.
  { eapply Forall_impl; [exact Hsizes|]. simpl. lia. }
  assert (Forall (λ chunk, StronglySorted String.le chunk ∧ NoDup chunk
                           ∧ Forall (λ i, i ≠ ""%string) chunk)
            (_chunked ids 50)) as Hgood.
  { apply concat_chunks; by rewrite Hconcat. }
  revert journal_map tr.
  induction handlers as [|h hs IH]; intros journal_map tr; simpl.
  - by rewrite app_nil_r.
  - rewrite (bind_Ok _ _ _ _ _
               (fetch_chunks_trace w h _ journal_map tr Hne Hgood)).
    rewrite IH. by rewrite <- app_assoc.
Qed.

Lemma bind_nothing {A B : Type} (l : list A) :
  l ≫= (λ _, @nil B) = [].
Proof. induction l as [|x l IH]; [done|]. by rewrite bind_cons, IH. Qed.




(** * Further properties *)

(** ** The chunks of [_chunked] *)

Lemma chunked_go_lookup {A : Type} (items batch : list A) (size i : nat) :
  length batch < size →
  chunked_go items size batch !! i
  = if decide (i * size < length (batch ++ items))
    then Some (take size (drop (i * size) (batch ++ items)))
    else None.
Proof.
  intros Hb. revert batch i Hb.
  induction items as [|item rest IH]; intros batch i Hb; cbn [chunked_go].
  - rewrite app_nil_r. destruct batch as [|x batch].
    + rewrite bool_decide_true by done.
      rewrite decide_False by (cbn [length]; lia). by destruct i.
    + rewrite bool_decide_false by done. destruct i as [|i].
      * rewrite decide_True by (cbn [length]; lia). cbn [lookup list_lookup].
        f_equal. symmetry. rewrite Nat.mul_0_l, drop_0.
        apply take_ge. lia.
      * rewrite decide_False by (cbn [length] in *; nia). done.
  - cbv zeta.
    destruct (Nat.eqb_spec (length (batch ++ [item])) size) as [Hfull|Hnot].
    + destruct i as [|i].
      * rewrite decide_True by (rewrite length_app; cbn [length]; lia).
        cbn [lookup list_lookup]. rewrite Nat.mul_0_l, drop_0.
        f_equal. rewrite (cons_middle item batch rest), app_assoc.
        by rewrite take_app_length' by done.
      * change (((batch ++ [item]) :: chunked_go rest size []) !! S i)
          with (chunked_go rest size [] !! i).
        assert (0 < size) as Hsize
          by (rewrite <- Hfull, length_app; cbn [length]; lia).
        rewrite (IH [] i) by done. rewrite app_nil_l.
        change (S i * size) with (size + i * size).
        rewrite (cons_middle item batch rest), app_assoc.
        assert (size + i * size = length (batch ++ [item]) + i * size)
          as -> by lia.
        rewrite <- drop_drop, drop_app_length.
        rewrite (length_app (batch ++ [item])).
        destruct (decide (i * size < length rest));
          [by rewrite decide_True by lia | by rewrite decide_False by lia].
    + rewrite (IH (batch ++ [item]) i).
      * by rewrite <- app_assoc.
      * rewrite length_app in *. simpl in *. lia.
Qed.

(** With a positive size, chunk [i] is the slice of [size] items from
    position [i * size] on, for as long as that position exists; with the
    size 0 no batch ever counts as full, and all items come in one chunk. *)
Theorem chunks_are_consecutive_slices {A : Type} (items : list A) :
  (∀ size i,
     0 < size →
     _chunked items size !! i
     = if decide (i * size < length items)
       then Some (take size (drop (i * size) items))
       else None)
  ∧ _chunked items 0 = if decide (items = []) then [] else [items].
Proof.
  split.
  - intros size i Hsize. unfold _chunked.
    by rewrite chunked_go_lookup by done.
  - unfold _chunked. destruct (decide (items = [])) as [->|Hne]; [done|].
    assert (∀ batch : list A,
              batch ++ items ≠ [] →
              chunked_go items 0 batch = [batch ++ items]) as Hgo.
    { clear Hne. induction items as [|item rest IH]; intros batch Hne; simpl.
      - rewrite app_nil_r in *. by rewrite bool_decide_false.
      - rewrite length_app. simpl.
        replace (length batch + 1 =? 0) with false
          by (symmetry; apply Nat.eqb_neq; lia).
        rewrite IH; rewrite <- app_assoc; [done|]. by destruct batch. }
    by apply (Hgo []).
Qed.

Lemma chunks_are_consecutive_slices_witness :
  _chunked [1; 2; 3; 4; 5] 2 !! 2 = Some [5].
Proof.
  destruct (chunks_are_consecutive_slices [1; 2; 3; 4; 5]) as [H _].
  rewrite (H 2 2) by lia. reflexivity.
Defined.

(** ** Results without duplicates *)

Lemma ensures_mret {A : Type} (a : A) (P : A → Prop) :
  P a → ensures (mret a) P.
Proof. intros Ha tr a' tr' [= <- _]. exact Ha. Qed.

Lemma ensures_bind {A B : Type} (m : M A) (f : A → M B) (P : A → Prop)
    (Q : B → Prop) :
  ensures m P → (∀ a, P a → ensures (f a) Q) → ensures (m ≫= f) Q.
Proof.
  intros Hm Hf tr b tr'. unfold mbind, M_bind.
  destruct (m tr) as [[a|e] tr1] eqn:Ha; [|done].
  apply (Hf a); by eapply Hm.
Qed.

Lemma ensures_try_except {A : Type} (body : M A) (handler : exn → M A)
    (P : A → Prop) :
  ensures body P → (∀ e, ensures (handler e) P) →
  ensures (try_except body handler) P.
Proof.
  intros Hb Hh tr a tr'. unfold try_except.
  destruct (body tr) as [[a'|e] tr1] eqn:Ha.
  - intros [= <- <-]. by eapply Hb.
  - apply Hh.
Qed.

Lemma ensures_True {A : Type} (m : M A) : ensures m (λ _, True).
Proof. by intros tr a tr' _. Qed.

Lemma merge_map_ok_nil : merge_map_ok [].
Proof. split_and!; constructor. Qed.

Lemma merge_map_ok__collect_journals (df : DataFrame)
    (target : list (string * Journal.t)) :
  merge_map_ok target → merge_map_ok (_collect_journals df target).
Proof.
  intros (Hk & Hnd & Ht).
  destruct (keyed__collect_journals df target Hk Hnd) as [Hk' Hnd'].
  split_and!; [done..|]. unfold _collect_journals.
  destruct (df_empty df); [done|]. clear Hk Hnd Hk' Hnd'.
  generalize 0. revert target Ht.
  induction df as [|row rows IH]; intros target Ht idx; simpl; [done|].
  apply IH. rewrite collect_journal_row_eq. apply Forall_od_set; [|done].
  apply _get_journal_key_truthy.
Qed.

Lemma merge_map_ok_values (m : list (string * Journal.t)) :
  merge_map_ok m → one_id_each (od_values m).
Proof.
  intros (Hk & Hnd & Ht). split; [by apply first_ids_NoDup|].
  unfold od_values. apply Forall_fmap, Forall_forall. intros [k j] Hkj.
  pose proof (proj1 (Forall_forall _ _) Hk _ Hkj) as Hids.
  pose proof (proj1 (Forall_forall _ _) Ht _ Hkj) as Hkey.
  unfold compose. cbn [fst snd] in *.
  destruct Hids as [-> | ->]; cbn [length].
  - split; [lia|]. intros <-%list_elem_of_singleton. discriminate Hkey.
  - split; [lia|]. apply not_elem_of_nil.
Qed.

Lemma ensures_fan_out (handlers : list QueryHandler)
    (query : QueryHandler → M DataFrame)
    (target : list (string * Journal.t)) :
  merge_map_ok target →
  ensures (fan_out handlers query _collect_journals target) merge_map_ok.
Proof.
  revert target. induction handlers as [|h hs IH]; intros target Hok; simpl.
  - by apply ensures_mret.
  - eapply ensures_bind; [apply ensures_True|]. intros df _.
    by apply IH, merge_map_ok__collect_journals.
Qed.

Lemma ensures_get_many (handlers : list QueryHandler)
    (query : QueryHandler → M DataFrame) :
  ensures (get_many handlers query _collect_journals) one_id_each.
Proof.
  apply ensures_try_except.
  - eapply ensures_bind; [apply ensures_fan_out, merge_map_ok_nil|].
    intros m Hm. by apply ensures_mret, merge_map_ok_values.
  - intros _. apply ensures_mret. split; constructor.
Qed.

Lemma one_id_each_nil : one_id_each [].
Proof. split; constructor. Qed.

Lemma merge_map_ok_foldl {X : Type} (f : X → DataFrame) (xs : list X)
    (target : list (string * Journal.t)) :
  merge_map_ok target →
  merge_map_ok (foldl (λ m x, _collect_journals (f x) m) target xs).
Proof.
  revert target. induction xs as [|x xs IH]; intros target Hok; [done|].
  cbn [foldl]. by apply IH, merge_map_ok__collect_journals.
Qed.

Lemma merge_map_ok_chunks (w : World) (handlers : list QueryHandler)
    (chunks : list (list string)) (target : list (string * Journal.t)) :
  merge_map_ok target →
  merge_map_ok
    (foldl (λ m handler,
              foldl (λ m chunk,
                       _collect_journals
                         (journals_by_issns_answer w handler
                            (list_to_set chunk)) m)
                m chunks)
       target handlers).
Proof.
  revert target. induction handlers as [|h hs IH]; intros target Hok; [done|].
  cbn [foldl]. apply IH.
  by apply (merge_map_ok_foldl
              (λ chunk, journals_by_issns_answer w h (list_to_set chunk))).
Qed.

Lemma ensures__fetch_journals_by_issns (w : World) (self : BasicQueryEngine)
    (issns : gset Sql.cell) :
  ensures (_fetch_journals_by_issns w self issns) one_id_each.
Proof.
  intros tr js tr'. unfold _fetch_journals_by_issns. cbv zeta.
  destruct (bool_decide _).
  { intros [= <- _]. apply one_id_each_nil. }
  destruct (fetch_handlers_eq w (_journalQuery self) (cleaned_ids issns) [] tr)
    as (tr1 & H1).
  rewrite (bind_Ok _ _ _ _ _ H1). intros [= <- _].
  apply merge_map_ok_values, merge_map_ok_chunks, merge_map_ok_nil.
Qed.

Lemma one_id_each_filter (P : Journal.t → Prop) `{∀ j, Decision (P j)}
    (journals : list Journal.t) :
  one_id_each journals → one_id_each (filter P journals).
Proof.
  intros [Hnd Hall]. split.
  - eapply sublist_NoDup; [exact Hnd | apply first_ids_filter].
  - apply Forall_forall. intros j [_ Hj]%list_elem_of_filter.
    by apply (proj1 (Forall_forall _ _) Hall).
Qed.

Lemma one_id_each_keep (allowed : string → bool) (journals : list Journal.t) :
  one_id_each journals →
  one_id_each (od_values (foldl (keep_journal allowed) [] journals)).
Proof.
  intros Hok. rewrite keep_journal_foldl by apply Hok.
  by apply one_id_each_filter.
Qed.

(** Every public method that answers journals answers, from every trace, a
    list in which no identifier is the first identifier of two journals and
    every journal has at most one identifier, which is not empty. *)
Theorem journals_are_returned_once (w : World) (self : BasicQueryEngine)
    (partialTitle partialName : string)
    (licenses area_ids category_ids quartiles : gset string) :
  Forall (λ method : M (list Journal.t),
            returns method ∧ ensures method one_id_each)
    [getAllJournals w self;
     getJournalsWithTitle w self partialTitle;
     getJournalsPublishedBy w self partialName;
     getJournalsWithLicense w self licenses;
     getJournalsWithAPC w self;
     getJournalsWithDOAJSeal w self;
     getJournalsInCategoriesWithQuartile w self category_ids quartiles;
     getJournalsInAreasWithLicense w self area_ids licenses;
     getDiamondJournalsInAreasAndCategoriesWithQuartile w self area_ids
       category_ids quartiles].
Proof.
  assert (∀ query,
            returns (get_many (_journalQuery self) query _collect_journals)
            ∧ ensures (get_many (_journalQuery self) query _collect_journals)
                one_id_each) as Hbasic.
  { intros query. split; [apply returns_get_many | apply ensures_get_many]. }
  repeat (apply Forall_cons_2; [try apply Hbasic|]); [..|by apply Forall_nil].
  - split; [apply returns_try_except; intros _; apply returns_mret|].
    apply ensures_try_except; [|intros _; apply ensures_mret, one_id_each_nil].
    eapply ensures_bind; [apply ensures_True|]. intros cats _.
    destruct (_ && _); [apply ensures_mret, one_id_each_nil|].
    eapply ensures_bind; [apply ensures_True|]. intros cats' _.
    destruct (_ && _); [apply ensures_mret, one_id_each_nil|].
    destruct (bool_decide _); [apply ensures_mret, one_id_each_nil|].
    eapply ensures_bind; [apply ensures_True|]. intros s _.
    apply ensures__fetch_journals_by_issns.
  - split; [apply returns_try_except; intros _; apply returns_mret|].
    apply ensures_try_except; [|intros _; apply ensures_mret, one_id_each_nil].
    eapply ensures_bind; [apply ensures_get_many|]. intros js Hjs.
    eapply ensures_bind; [apply ensures_True|]. intros [s|] _.
    + by apply ensures_mret, one_id_each_keep.
    + by apply ensures_mret.
  - split; [apply returns_try_except; intros _; apply returns_mret|].
    apply ensures_try_except; [|intros _; apply ensures_mret, one_id_each_nil].
    eapply ensures_bind; [apply ensures_get_many|]. intros js Hjs. cbv zeta.
    eapply ensures_bind; [apply ensures_True|]. intros area_filter _.
    eapply ensures_bind; [apply ensures_True|]. intros [category_filter|] _.
    + by apply ensures_mret, one_id_each_keep, one_id_each_filter.
    + apply ensures_mret, one_id_each_nil.
Qed.

(** ** The merge of categories and of areas *)

Lemma fan_out_all_answer {V : Type} (handlers : list QueryHandler)
    (query : QueryHandler → M DataFrame) (f : QueryHandler → DataFrame)
    (collect : DataFrame → list (string * V) → list (string * V))
    (target : list (string * V)) (tr : list call) :
  all_answer handlers query f →
  ∃ tr',
    fan_out handlers query collect target tr =
      (Ok (foldl (λ m df, collect df m) target (f <$> handlers)), tr').
Proof.
  intros Hq. revert target tr.
  induction Hq as [|h hs Hh _ IH]; intros target tr; simpl.
  - by exists tr.
  - destruct (Hh tr) as (tr1 & Hh1). rewrite (bind_Ok _ _ _ _ _ Hh1).
    apply IH.
Qed.

Lemma get_many_all_answer {V : Type} (handlers : list QueryHandler)
    (query : QueryHandler → M DataFrame) (f : QueryHandler → DataFrame)
    (collect : DataFrame → list (string * V) → list (string * V))
    (tr : list call) :
  all_answer handlers query f →
  ∃ tr',
    get_many handlers query collect tr =
      (Ok (od_values (foldl (λ m df, collect df m) [] (f <$> handlers))),
       tr').
Proof.
  intros Hq. unfold get_many.
  destruct (fan_out_all_answer handlers query f collect [] tr Hq)
    as (tr' & Hf).
  exists tr'. erewrite try_except_Ok; [done|].
  by rewrite (bind_Ok _ _ _ _ _ Hf).
Qed.

Lemma distinct_in_order_snoc {A : Type} `{EqDecision A} (l : list A) (x : A) :
  distinct_in_order (l ++ [x])
  = if bool_decide (x ∈ distinct_in_order l) then distinct_in_order l
    else distinct_in_order l ++ [x].
Proof. unfold distinct_in_order. by rewrite foldl_app. Qed.

Lemma distinct_in_order_elem_of {A : Type} `{EqDecision A} (l : list A)
    (x : A) :
  x ∈ distinct_in_order l ↔ x ∈ l.
Proof.
  induction l as [|y l IH] using rev_ind; [done|].
  rewrite distinct_in_order_snoc, elem_of_app, list_elem_of_singleton.
  case_bool_decide as Hy; [|rewrite elem_of_app, list_elem_of_singleton];
    rewrite IH; [|done].
  split; [by left|]. intros [?| ->]; [done|]. by apply IH.
Qed.

Lemma distinct_in_order_NoDup {A : Type} `{EqDecision A} (l : list A) :
  NoDup (distinct_in_order l).
Proof.
  induction l as [|y l IH] using rev_ind; [constructor|].
  rewrite distinct_in_order_snoc. case_bool_decide as Hy; [done|].
  apply NoDup_app. split_and!; [done| |apply NoDup_singleton].
  by intros x Hx ->%list_elem_of_singleton.
Qed.

Lemma _dataframe_to_category_eq (row : Row) :
  _dataframe_to_category row
  = Some (Category.mk (option_list (row_id row)) (row_quartile row)).
Proof.
  unfold _dataframe_to_category, row_id, row_quartile. cbv zeta. f_equal.
  destruct (_has_value (row_get row "id")) eqn:Hid.
  - unfold setId. rewrite (str_strip_truthy _ Hid). reflexivity.
  - reflexivity.
Qed.

Lemma _dataframe_to_area_eq (row : Row) :
  _dataframe_to_area row = Some (Area.mk (option_list (row_id row))).
Proof.
  unfold _dataframe_to_area, row_id. cbv zeta. f_equal.
  destruct (_has_value (row_get row "id")) eqn:Hid.
  - unfold setId. rewrite (str_strip_truthy _ Hid). reflexivity.
  - reflexivity.
Qed.

Lemma row_quartile_truthy (row : Row) :
  opt_truthy (row_quartile row) = bool_decide (is_Some (row_quartile row)).
Proof.
  unfold row_quartile.
  destruct (_has_value (row_get row "quartile")) eqn:Hq; cbn [opt_truthy].
  - rewrite (str_strip_truthy _ Hq). symmetry. by apply bool_decide_eq_true_2.
  - symmetry. apply bool_decide_eq_false_2. by intros [? ?].
Qed.

Lemma first_quartile_snoc (k : string) (rows : list Row) (row : Row) :
  first_quartile k (rows ++ [row])
  = match first_quartile k rows with
    | Some q => Some q
    | None => if decide (row_id row = Some k) then row_quartile row else None
    end.
Proof.
  unfold first_quartile. rewrite filter_app, omap_app.
  destruct (omap row_quartile (filter _ rows)) as [|q qs]; simpl; [|done].
  rewrite filter_cons, filter_nil.
  destruct (decide (row_id row = Some k)); [|done].
  simpl. by destruct (row_quartile row).
Qed.

Lemma first_quartile_truthy (k : string) (rows : list Row) :
  opt_truthy (first_quartile k rows)
  = bool_decide (is_Some (first_quartile k rows)).
Proof.
  unfold first_quartile.
  induction (filter _ rows) as [|row rs IH]; cbn [omap list_omap head].
  - symmetry. apply bool_decide_eq_false_2. by intros [? ?].
  - pose proof (row_quartile_truthy row) as Hrow.
    destruct (row_quartile row) as [q|]; [|exact IH].
    cbn [head opt_truthy] in *. rewrite Hrow.
    by rewrite !bool_decide_eq_true_2 by eauto.
Qed.

Lemma od_get_fmap {V : Type} (g : string → V) (ks : list string) (k : string) :
  od_get k ((λ k, (k, g k)) <$> ks)
  = if decide (k ∈ ks) then Some (g k) else None.
Proof.
  induction ks as [|k0 ks IH]; cbn [fmap list_fmap od_get].
  - by rewrite decide_False by apply not_elem_of_nil.
  - destruct (decide (k0 = k)) as [->|Hne].
    + rewrite decide_True; [done | by left].
    + rewrite IH. destruct (decide (k ∈ ks)) as [Hin|Hin].
      * rewrite decide_True; [done | by right].
      * rewrite decide_False; [done|]. by intros [->|?]%elem_of_cons.
Qed.

Lemma od_set_fmap {V : Type} (g : string → V) (ks : list string)
    (k0 : string) (v : V) :
  NoDup ks →
  od_set k0 v ((λ k, (k, g k)) <$> ks)
  = ((λ k, (k, if decide (k = k0) then v else g k)) <$> ks)
      ++ (if decide (k0 ∈ ks) then [] else [(k0, v)]).
Proof.
  induction 1 as [|k ks Hk Hnd IH]; cbn [fmap list_fmap od_set].
  - rewrite decide_False by apply not_elem_of_nil. done.
  - destruct (decide (k = k0)) as [->|Hne].
    + rewrite decide_True by by left. rewrite app_nil_r. f_equal.
      apply list_fmap_ext. intros i k Hik. rewrite decide_False; [done|].
      intros ->. apply Hk. by eapply list_elem_of_lookup_2.
    + rewrite IH. cbn [app]. f_equal.
      destruct (decide (k0 ∈ ks)) as [Hin|Hin].
      * rewrite decide_True; [done | by right].
      * rewrite decide_False; [done|]. intros [->|?]%elem_of_cons; done.
Qed.

(** What one row with an identifier does to a category map that holds, for
    the rows seen so far, one category per identifier with the first
    quartile found for it. *)
Lemma collect_category_row_spec (rows : list Row) (row : Row) (idx : nat) :
  is_Some (row_id row) →
  collect_category_row row idx
    ((λ k, (k, Category.mk [k] (first_quartile k rows)))
       <$> distinct_in_order (omap row_id rows))
  = (λ k, (k, Category.mk [k] (first_quartile k (rows ++ [row]))))
      <$> distinct_in_order (omap row_id (rows ++ [row])).
Proof.
  intros [k0 Hk0]. unfold collect_category_row.
  rewrite _dataframe_to_category_eq, Hk0.
  change (option_list (Some k0)) with [k0].
  unfold getIds. cbn [ids_of Category_identifiable Category._ids].
  cbv zeta. rewrite od_get_fmap, omap_app. cbn [omap list_omap]. rewrite Hk0.
  cbn [app]. rewrite distinct_in_order_snoc.
  set (ks := distinct_in_order (omap row_id rows)).
  assert (∀ k, k ≠ k0 →
               first_quartile k (rows ++ [row]) = first_quartile k rows)
    as Hother.
  { intros k Hne. rewrite first_quartile_snoc.
    rewrite decide_False by (rewrite Hk0; congruence).
    by destruct (first_quartile k rows). }
  destruct (decide (k0 ∈ ks)) as [Hin|Hin].
  - rewrite bool_decide_eq_true_2 by done.
    cbn [Category.getQuartile Category._quartile].
    rewrite first_quartile_truthy, row_quartile_truthy.
    assert (first_quartile k0 (rows ++ [row])
            = match first_quartile k0 rows with
              | Some q => Some q
              | None => row_quartile row
              end) as Hk.
    { rewrite first_quartile_snoc. by rewrite decide_True. }
    destruct (first_quartile k0 rows) as [q|] eqn:Hq.
    + rewrite (bool_decide_eq_true_2 (is_Some (Some q))) by eauto.
      cbn [negb andb]. apply list_fmap_ext. intros i k Hik.
      destruct (decide (k = k0)) as [->|Hne]; [by rewrite Hk, Hq|].
      by rewrite Hother.
    + rewrite (bool_decide_eq_false_2 (is_Some None)) by (by intros [? ?]).
      cbn [negb andb].
      destruct (row_quartile row) as [q|] eqn:Hrow.
      * rewrite bool_decide_eq_true_2 by eauto.
        rewrite od_set_fmap by apply distinct_in_order_NoDup.
        fold ks. rewrite decide_True by done. rewrite app_nil_r.
        apply list_fmap_ext. intros i k Hik.
        destruct (decide (k = k0)) as [->|Hne]; [by rewrite Hk|].
        by rewrite Hother.
      * rewrite bool_decide_eq_false_2 by (by intros [? ?]).
        apply list_fmap_ext. intros i k Hik.
        destruct (decide (k = k0)) as [->|Hne]; [by rewrite Hk, Hq|].
        by rewrite Hother.
  - rewrite bool_decide_eq_false_2 by done.
    rewrite od_set_fmap by apply distinct_in_order_NoDup.
    fold ks. rewrite decide_False by done. rewrite fmap_app.
    cbn [fmap list_fmap]. f_equal.
    + apply list_fmap_ext. intros i k Hik.
      assert (k ≠ k0) as Hne
        by (intros ->; apply Hin; by eapply list_elem_of_lookup_2).
      by rewrite decide_False, Hother by done.
    + do 3 f_equal. rewrite first_quartile_snoc, decide_True by done.
      replace (first_quartile k0 rows) with (@None string); [done|].
      symmetry. unfold first_quartile. rewrite filter_none; [done|].
      apply Forall_forall. intros r Hr Hrid. apply Hin.
      apply distinct_in_order_elem_of, list_elem_of_omap. eauto.
Qed.

Lemma collect_categories_from_spec (rows0 rows : list Row) (idx : nat) :
  Forall (λ row, is_Some (row_id row)) rows →
  collect_categories_from idx rows
    ((λ k, (k, Category.mk [k] (first_quartile k rows0)))
       <$> distinct_in_order (omap row_id rows0))
  = (λ k, (k, Category.mk [k] (first_quartile k (rows0 ++ rows))))
      <$> distinct_in_order (omap row_id (rows0 ++ rows)).
Proof.
  intros Hrows. revert rows0 idx.
  induction Hrows as [|row rows Hrow _ IH]; intros rows0 idx; simpl.
  - by rewrite app_nil_r.
  - rewrite collect_category_row_spec by done. rewrite IH.
    by rewrite <- app_assoc.
Qed.

Lemma _collect_categories_spec (frames : list DataFrame) (rows0 : list Row) :
  Forall (Forall (λ row, is_Some (row_id row))) frames →
  foldl (λ m df, _collect_categories df m)
    ((λ k, (k, Category.mk [k] (first_quartile k rows0)))
       <$> distinct_in_order (omap row_id rows0))
    frames
  = (λ k, (k, Category.mk [k] (first_quartile k (rows0 ++ concat frames))))
      <$> distinct_in_order (omap row_id (rows0 ++ concat frames)).
Proof.
  intros Hframes. revert rows0.
  induction Hframes as [|df frames Hdf _ IH]; intros rows0; simpl.
  - by rewrite app_nil_r.
  - assert (_collect_categories df
              ((λ k, (k, Category.mk [k] (first_quartile k rows0)))
                 <$> distinct_in_order (omap row_id rows0))
            = collect_categories_from 0 df
                ((λ k, (k, Category.mk [k] (first_quartile k rows0)))
                   <$> distinct_in_order (omap row_id rows0))) as ->.
    { unfold _collect_categories. by destruct df. }
    rewrite collect_categories_from_spec by done. rewrite IH.
    by rewrite <- app_assoc.
Qed.

(** Where every handler answers and every row has an identifier, the
    methods that collect categories return one category for each
    identifier, in the order in which the identifiers first occur, handler
    after handler; its quartile is the first quartile that any row gives for
    the identifier, and none if no row gives one. *)
Theorem categories_merge_by_identifier (handlers : list QueryHandler)
    (query : QueryHandler → M DataFrame) (f : QueryHandler → DataFrame)
    (tr : list call) :
  all_answer handlers query f →
  Forall (λ row, is_Some (row_id row)) (handlers ≫= f) →
  ∃ tr',
    get_many handlers query _collect_categories tr
    = (Ok ((λ k, Category.mk [k] (first_quartile k (handlers ≫= f)))
             <$> distinct_in_order (omap row_id (handlers ≫= f))),
       tr').
Proof.
  intros Hq Hrows.
  destruct (get_many_all_answer handlers query f _collect_categories tr Hq)
    as (tr' & Hg).
  exists tr'. rewrite Hg. do 2 f_equal.
  pose proof (_collect_categories_spec (f <$> handlers) []) as Hspec.
  cbn [app omap list_omap fmap list_fmap] in Hspec.
  change (distinct_in_order []) with (@nil string) in Hspec.
  cbn [fmap list_fmap] in Hspec.
  assert (concat (f <$> handlers) = handlers ≫= f) as Hconcat.
  { clear. induction handlers as [|h hs IH]; [done|].
    cbn [fmap list_fmap concat]. by rewrite bind_cons, IH. }
  rewrite Hspec.
  - rewrite Hconcat. unfold od_values. rewrite <- list_fmap_compose.
    by apply list_fmap_ext.
  - clear -Hrows. induction handlers as [|h hs IH]; [constructor|].
    rewrite bind_cons in Hrows. apply Forall_app in Hrows as [Hh Hhs].
    cbn [fmap list_fmap]. constructor; [done | by apply IH].
Qed.

Lemma collect_area_row_spec (rows : list Row) (row : Row) (idx : nat) :
  is_Some (row_id row) →
  collect_area_row row idx
    ((λ k, (k, Area.mk [k])) <$> distinct_in_order (omap row_id rows))
  = (λ k, (k, Area.mk [k])) <$> distinct_in_order (omap row_id (rows ++ [row])).
Proof.
  intros [k0 Hk0]. unfold collect_area_row.
  rewrite _dataframe_to_area_eq, Hk0.
  change (option_list (Some k0)) with [k0].
  unfold getIds. cbn [ids_of Area_identifiable Area._ids].
  cbv zeta. rewrite od_get_fmap, omap_app. cbn [omap list_omap]. rewrite Hk0.
  cbn [app]. rewrite distinct_in_order_snoc.
  destruct (decide (k0 ∈ distinct_in_order (omap row_id rows))) as [Hin|Hin].
  - by rewrite bool_decide_eq_true_2 by done.
  - rewrite bool_decide_eq_false_2 by done.
    rewrite od_set_fmap by apply distinct_in_order_NoDup.
    rewrite decide_False by done. rewrite fmap_app. f_equal.
    apply list_fmap_ext. intros i k Hik.
    by destruct (decide (k = k0)) as [->|].
Qed.

Lemma _collect_areas_spec (frames : list DataFrame) (rows0 : list Row) :
  Forall (Forall (λ row, is_Some (row_id row))) frames →
  foldl (λ m df, _collect_areas df m)
    ((λ k, (k, Area.mk [k])) <$> distinct_in_order (omap row_id rows0))
    frames
  = (λ k, (k, Area.mk [k]))
      <$> distinct_in_order (omap row_id (rows0 ++ concat frames)).
Proof.
  intros Hframes. revert rows0.
  induction Hframes as [|df frames Hdf _ IH]; intros rows0; simpl.
  - by rewrite app_nil_r.
  - assert (∀ idx,
              collect_areas_from idx df
                ((λ k, (k, Area.mk [k]))
                   <$> distinct_in_order (omap row_id rows0))
              = (λ k, (k, Area.mk [k]))
                  <$> distinct_in_order (omap row_id (rows0 ++ df))) as Hdf'.
    { clear IH. revert rows0.
      induction Hdf as [|row rows Hrow _ IH]; intros rows0 idx; simpl.
      - by rewrite app_nil_r.
      - rewrite collect_area_row_spec by done. rewrite IH.
        by rewrite <- app_assoc. }
    assert (_collect_areas df
              ((λ k, (k, Area.mk [k]))
                 <$> distinct_in_order (omap row_id rows0))
            = (λ k, (k, Area.mk [k]))
                <$> distinct_in_order (omap row_id (rows0 ++ df))) as ->.
    { unfold _collect_areas. destruct df; [by rewrite app_nil_r|].
      apply Hdf'. }
    rewrite IH. by rewrite <- app_assoc.
Qed.

(** Where every handler answers and every row has an identifier, the
    methods that collect areas return one area for each identifier, in the
    order in which the identifiers first occur, handler after handler. *)
Theorem areas_merge_by_identifier (handlers : list QueryHandler)
    (query : QueryHandler → M DataFrame) (f : QueryHandler → DataFrame)
    (tr : list call) :
  all_answer handlers query f →
  Forall (λ row, is_Some (row_id row)) (handlers ≫= f) →
  ∃ tr',
    get_many handlers query _collect_areas tr
    = (Ok ((λ k, Area.mk [k])
             <$> distinct_in_order (omap row_id (handlers ≫= f))),
       tr').
Proof.
  intros Hq Hrows.
  destruct (get_many_all_answer handlers query f _collect_areas tr Hq)
    as (tr' & Hg).
  exists tr'. rewrite Hg. do 2 f_equal.
  pose proof (_collect_areas_spec (f <$> handlers) []) as Hspec.
  cbn [app omap list_omap fmap list_fmap] in Hspec.
  change (distinct_in_order []) with (@nil string) in Hspec.
  cbn [fmap list_fmap] in Hspec.
  assert (concat (f <$> handlers) = handlers ≫= f) as Hconcat.
  { clear. induction handlers as [|h hs IH]; [done|].
    cbn [fmap list_fmap concat]. by rewrite bind_cons, IH. }
  rewrite Hspec.
  - rewrite Hconcat. unfold od_values. rewrite <- list_fmap_compose.
    by apply list_fmap_ext.
  - clear -Hrows. induction handlers as [|h hs IH]; [constructor|].
    rewrite bind_cons in Hrows. apply Forall_app in Hrows as [Hh Hhs].
    cbn [fmap list_fmap]. constructor; [done | by apply IH].
Qed.

Lemma categories_merge_by_identifier_witness :
  (getAllCategories Ex.world_7 Ex.engine_2 []).1
  = Ok [Category.mk ["C1"] (Some "Q1"); Category.mk ["C2"] (Some "Q2")].
Proof.
  destruct (categories_merge_by_identifier
              [Ex.sql_handler; Ex.sql_handler_2]
              (CategoryQueryHandler_getAllCategories Ex.world_7)
              (λ h, match database Ex.world_7 (_dbPathOrUrl h) with
                    | Some d => Sql.eval d Sql.AllCategories
                    | None => []
                    end) []) as (tr' & H).
  - repeat (constructor; [intros tr; eexists; reflexivity|]). constructor.
  - apply (bool_decide_unpack _). vm_compute. reflexivity.
  - etrans; [exact (f_equal fst H)|]. vm_compute. reflexivity.
Defined.

Lemma areas_merge_by_identifier_witness :
  (getAllAreas Ex.world_7 Ex.engine_2 []).1
  = Ok [Area.mk ["A1"]; Area.mk ["A2"]; Area.mk ["A3"]].
Proof.
  destruct (areas_merge_by_identifier
              [Ex.sql_handler; Ex.sql_handler_2]
              (CategoryQueryHandler_getAllAreas Ex.world_7)
              (λ h, match database Ex.world_7 (_dbPathOrUrl h) with
                    | Some d => Sql.eval d Sql.AllAreas
                    | None => []
                    end) []) as (tr' & H).
  - repeat (constructor; [intros tr; eexists; reflexivity|]). constructor.
  - apply (bool_decide_unpack _). vm_compute. reflexivity.
  - etrans; [exact (f_equal fst H)|]. vm_compute. reflexivity.
Defined.

(** ** Journals in areas, with a licence *)

(** [getJournalsInAreasWithLicense] first asks [getJournalsWithLicense].
    Without area identifiers that answer is the result. With area
    identifiers the result is made of exactly the journals of that answer
    that carry an identifier which some classification handler files under
    one of the areas, in their order; a journal without identifier is
    dropped. *)
Theorem areas_with_license_filters (w : World) (self : BasicQueryEngine)
    (area_ids licenses : gset string) (tr : list call) :
  ∃ journals tr1 tr2,
    getJournalsWithLicense w self licenses tr = (Ok journals, tr1)
    ∧ getJournalsInAreasWithLicense w self area_ids licenses tr
      = (Ok (if decide (area_ids = ∅) then journals
             else filter
                    (λ journal,
                       kept (passes
                               (Some (issns_under_areas w (_categoryQuery self)
                                        (elements area_ids)))) journal)
                    journals), tr2).
Proof.
  destruct (returns_get_many (_journalQuery self)
              (λ handler, JournalQueryHandler_getJournalsWithLicense w handler
                            licenses)
              _collect_journals tr) as (journals & tr1 & Hj).
  fold (getJournalsWithLicense w self licenses) in Hj.
  pose proof (ensures_get_many _ _ _ _ _ Hj) as Hok.
  exists journals, tr1. unfold getJournalsInAreasWithLicense.
  destruct (decide (area_ids = ∅)) as [->|Hne].
  - exists tr1. split; [done|]. erewrite try_except_Ok; [done|].
    rewrite (bind_Ok _ _ _ _ _ Hj).
    by rewrite bool_decide_eq_false_2 by naive_solver.
  - destruct (issns_in_areas_eq w (_categoryQuery self) (elements area_ids)
                ∅ tr1) as (tr2 & Hi).
    rewrite (left_id_L ∅ (∪)) in Hi.
    exists tr2. split; [done|]. erewrite try_except_Ok; [done|].
    rewrite (bind_Ok _ _ _ _ _ Hj).
    rewrite bool_decide_eq_true_2 by done.
    unfold fmap, M_fmap.
    rewrite bind_Ok
      with (a := Some (issns_under_areas w (_categoryQuery self)
                         (elements area_ids))) (tr' := tr2);
      [|by rewrite (bind_Ok _ _ _ _ _ Hi)].
    unfold mret, M_ret. do 2 f_equal.
    by rewrite keep_journal_foldl by apply Hok.
Qed.

(** ** Escaped literals *)

Lemma app_two (a b : ascii) (s : string) :
  (String a (String b "") +:+ s)%string = String a (String b s).
Proof. done. Qed.

(** What [_escape_literal] makes of a string without line feed and
    carriage return is the text of one SPARQL string literal, and the
    literal denotes the string: no character of the string can end the
    literal or change what follows it in the query. *)
Theorem escaped_literal_denotes_the_string (value : string) :
  Forall (λ a, a ≠ "010"%char ∧ a ≠ "013"%char) (list_ascii_of_string value) →
  unescape (_escape_literal (Some value)) = Some value.
Proof.
  unfold _escape_literal.
  induction value as [|a value IH]; intros Hvalue; [done|].
  cbn [list_ascii_of_string] in Hvalue.
  apply Forall_cons in Hvalue as [[Hlf Hcr] Hvalue].
  specialize (IH Hvalue). cbn [Py.replace].
  destruct (bool_decide_reflect (a = backslash_char)) as [->|Hb].
  - rewrite app_two. cbn [Py.replace].
    rewrite !(bool_decide_eq_false_2 (backslash_char = quote_char)) by done.
    cbn [unescape]. rewrite bool_decide_eq_true_2 by done.
    change (echar backslash_char) with (Some backslash_char).
    by rewrite IH.
  - cbn [Py.replace].
    destruct (bool_decide_reflect (a = quote_char)) as [->|Hq].
    + rewrite app_two. cbn [unescape].
      rewrite bool_decide_eq_true_2 by done.
      change (echar quote_char) with (Some quote_char).
      by rewrite IH.
    + cbn [unescape].
      rewrite (bool_decide_eq_false_2 (a = backslash_char)) by done.
      rewrite (bool_decide_eq_false_2 (a = quote_char)) by done.
      rewrite (bool_decide_eq_false_2 (a = "010"%char)) by done.
      rewrite (bool_decide_eq_false_2 (a = "013"%char)) by done.
      cbn [orb]. by rewrite IH.
Qed.

Lemma escaped_literal_denotes_the_string_witness :
  unescape
    (_escape_literal
       (Some (String "a" (String quote_char (String backslash_char "b")))))
  = Some (String "a" (String quote_char (String backslash_char "b"))).
Proof.
  apply escaped_literal_denotes_the_string.
  repeat (constructor; [split; discriminate|]). constructor.
Defined.

(** What [_escape_string] makes of a text without backslash is the text of
    one SPARQL string literal, and the literal denotes the text. *)
Theorem escaped_string_denotes_the_text (text : string) :
  Forall (λ a, a ≠ backslash_char) (list_ascii_of_string text) →
  unescape (_escape_string text) = Some text.
Proof.
  unfold _escape_string.
  induction text as [|a text IH]; intros Htext; [done|].
  cbn [list_ascii_of_string] in Htext.
  apply Forall_cons in Htext as [Hb Htext].
  specialize (IH Htext). cbn [Py.replace].
  destruct (bool_decide_reflect (a = quote_char)) as [->|Hq].
  - rewrite app_two. cbn [Py.replace].
    rewrite !(bool_decide_eq_false_2 (backslash_char = "010"%char)) by done.
    rewrite !(bool_decide_eq_false_2 (quote_char = "010"%char)) by done.
    cbn [Py.replace].
    rewrite !(bool_decide_eq_false_2 (backslash_char = "013"%char)) by done.
    rewrite !(bool_decide_eq_false_2 (quote_char = "013"%char)) by done.
    cbn [unescape]. rewrite bool_decide_eq_true_2 by done.
    change (echar quote_char) with (Some quote_char).
    by rewrite IH.
  - cbn [Py.replace].
    destruct (bool_decide_reflect (a = "010"%char)) as [->|Hlf].
    + rewrite app_two. cbn [Py.replace].
      rewrite !(bool_decide_eq_false_2 (backslash_char = "013"%char)) by done.
      rewrite !(bool_decide_eq_false_2 ("n"%char = "013"%char)) by done.
      cbn [unescape]. rewrite bool_decide_eq_true_2 by done.
      change (echar "n") with (Some "010"%char).
      by rewrite IH.
    + cbn [Py.replace].
      destruct (bool_decide_reflect (a = "013"%char)) as [->|Hcr].
      * rewrite app_two. cbn [unescape].
        rewrite bool_decide_eq_true_2 by done.
        change (echar "r") with (Some "013"%char).
        by rewrite IH.
      * cbn [unescape].
        rewrite (bool_decide_eq_false_2 (a = backslash_char)) by done.
        rewrite (bool_decide_eq_false_2 (a = quote_char)) by done.
        rewrite (bool_decide_eq_false_2 (a = "010"%char)) by done.
        rewrite (bool_decide_eq_false_2 (a = "013"%char)) by done.
        cbn [orb]. by rewrite IH.
Qed.

Lemma escaped_string_denotes_the_text_witness :
  unescape
    (_escape_string (String "a" (String quote_char (String "010" "b"))))
  = Some (String "a" (String quote_char (String "010" "b"))).
Proof.
  apply escaped_string_denotes_the_text.
  repeat (constructor; [discriminate|]). constructor.
Defined.

(** ** Entities added to a journal, and the languages set *)

Section object_setters.
Import Objects.

Lemma add_entity_elements (xs : loc) (x : option loc) (h : heap) :
  xs ∈ dom h →
  elements_at xs (add_entity xs x h)
  = match x with
    | Some l =>
        if bool_decide (IRef l ∈ elements_at xs h) then elements_at xs h
        else elements_at xs h ++ [IRef l]
    | None => elements_at xs h
    end.
Proof.
  intros Hxs. destruct x as [l|]; [|done]. unfold add_entity, holds.
  destruct (bool_decide (IRef l ∈ elements_at xs h)); [done|].
  cbn [negb]. unfold mutate, elements_at. rewrite lookup_alter_eq.
  apply elem_of_dom in Hxs as [ys Hys]. by rewrite Hys.
Qed.

Lemma add_entity_dom (xs : loc) (x : option loc) (h : heap) :
  dom (add_entity xs x h) = dom h.
Proof.
  destruct x as [l|]; [|done]. unfold add_entity.
  destruct (negb _); [|done]. unfold mutate. by rewrite dom_alter_L.
Qed.

Lemma add_entity_other (xs l : loc) (x : option loc) (h : heap) :
  l ≠ xs → elements_at l (add_entity xs x h) = elements_at l h.
Proof.
  intros Hne. destruct x as [l'|]; [|done]. unfold add_entity.
  destruct (negb _); [|done]. unfold mutate, elements_at.
  by rewrite lookup_alter_ne.
Qed.

Lemma add_entities_elements (xs : loc) (calls : list (option loc)) (h : heap) :
  xs ∈ dom h → elements_at xs h = [] →
  xs ∈ dom (foldl (λ h x, add_entity xs x h) h calls)
  ∧ elements_at xs (foldl (λ h x, add_entity xs x h) h calls)
    = IRef <$> distinct_in_order (omap id calls)
  ∧ ∀ l, l ≠ xs →
         elements_at l (foldl (λ h x, add_entity xs x h) h calls)
         = elements_at l h.
Proof.
  intros Hxs Hempty.
  induction calls as [|x calls (Hdom & Hel & Hother)] using rev_ind; [done|].
  rewrite foldl_app. cbn [foldl]. split_and!.
  - by rewrite add_entity_dom.
  - rewrite add_entity_elements by done. rewrite Hel, omap_app.
    destruct x as [l|]; cbn [omap list_omap id].
    + rewrite distinct_in_order_snoc.
      assert (bool_decide (IRef l ∈ IRef <$> distinct_in_order (omap id calls))
              = bool_decide (l ∈ distinct_in_order (omap id calls))) as ->.
      { apply bool_decide_ext. rewrite list_elem_of_fmap. split.
        - by intros (l' & [= ->] & Hl').
        - intros Hl. by exists l. }
      destruct (bool_decide _); [done|]. by rewrite fmap_app.
    + by rewrite app_nil_r.
  - intros l Hne. rewrite add_entity_other by done. by apply Hother.
Qed.

(** On a journal whose list of categories, respectively of areas, is
    empty, a sequence of [addCategory], respectively [addArea], calls
    leaves in that list the entities passed, each once, in the order in
    which they were first passed: an entity is recognised by its identity,
    and a call with [None] adds nothing. No other list is touched. *)
Theorem entities_are_added_once (ids languages categories areas : loc)
    (calls : list (option loc)) (h : heap) :
  categories ∈ dom h → areas ∈ dom h →
  elements_at categories h = [] → elements_at areas h = [] →
  ∃ h1 h2,
    add_all addCategory (OJournal ids languages categories areas) calls h
    = Some h1
    ∧ elements_at categories h1 = IRef <$> distinct_in_order (omap id calls)
    ∧ (∀ l, l ≠ categories → elements_at l h1 = elements_at l h)
    ∧ add_all addArea (OJournal ids languages categories areas) calls h
      = Some h2
    ∧ elements_at areas h2 = IRef <$> distinct_in_order (omap id calls)
    ∧ (∀ l, l ≠ areas → elements_at l h2 = elements_at l h).
Proof.
  intros Hc Ha Hce Hae.
  assert (∀ (add : option loc → object → heap → option heap) (xs : loc),
            (∀ x h, add x (OJournal ids languages categories areas) h
                    = Some (add_entity xs x h)) →
            add_all add (OJournal ids languages categories areas) calls h
            = Some (foldl (λ h x, add_entity xs x h) h calls)) as Hall.
  { intros add xs Hadd. unfold add_all.
    induction calls as [|x calls IH] using rev_ind; [done|].
    rewrite !foldl_app. cbn [foldl]. rewrite IH. apply Hadd. }
  destruct (add_entities_elements categories calls h Hc Hce) as (_ & H1 & H1').
  destruct (add_entities_elements areas calls h Ha Hae) as (_ & H2 & H2').
  eexists _, _. split_and!;
    [by apply (Hall addCategory categories) | done | done
    | by apply (Hall addArea areas) | done | done].
Qed.

Lemma setLanguages_eq (ids languages categories areas xs : loc) (h : heap) :
  setLanguages (Some xs) (OJournal ids languages categories areas) h
  = Some (OJournal ids (fresh (dom h)) categories areas,
          <[fresh (dom h) := elements_at xs h]> h).
Proof.
  unfold setLanguages. cbv zeta. unfold list_copy, elements_at.
  case_bool_decide as Hxs; [done|].
  destruct (decide (default [] (h !! xs) = [])) as [->|]; done.
Qed.

(** [setLanguages] keeps a copy of the list it is given: however the
    caller mutates that list afterwards, [getLanguages] returns the
    elements the list had when it was passed; after [setLanguages(None)] it
    returns none. The other attributes stay what they were. *)
Theorem setLanguages_keeps_a_copy (ids languages categories areas xs : loc)
    (h : heap) (ms : list mutation) :
  xs ∈ dom h →
  ∃ self' h1 r h2 self'' h1' r' h2',
    setLanguages (Some xs) (OJournal ids languages categories areas) h
    = Some (self', h1)
    ∧ call getLanguages self' (mutate_all xs h1 ms) = Some (r, h2)
    ∧ elements_at r h2 = elements_at xs h
    ∧ setLanguages None (OJournal ids languages categories areas) h
      = Some (self'', h1')
    ∧ call getLanguages self'' h1' = Some (r', h2')
    ∧ elements_at r' h2' = []
    ∧ ∀ acc, acc ≠ getLanguages →
             attribute acc self' = attribute acc
                                     (OJournal ids languages categories areas)
             ∧ attribute acc self'' = attribute acc
                                        (OJournal ids languages categories
                                           areas).
Proof.
  intros Hxs. rewrite setLanguages_eq.
  set (h1 := <[fresh (dom h) := elements_at xs h]> h).
  set (h1' := <[fresh (dom h) := []]> h).
  exists (OJournal ids (fresh (dom h)) categories areas), h1,
    (list_copy (fresh (dom h)) (mutate_all xs h1 ms)).1,
    (list_copy (fresh (dom h)) (mutate_all xs h1 ms)).2,
    (OJournal ids (fresh (dom h)) categories areas), h1',
    (list_copy (fresh (dom h)) h1').1, (list_copy (fresh (dom h)) h1').2.
  split_and!.
  - done.
  - unfold call. cbn [attribute]. by rewrite <- surjective_pairing.
  - rewrite list_copy_elements, mutate_all_other.
    + unfold elements_at at 1, h1. by rewrite lookup_insert_eq.
    + intros Heq. apply (is_fresh (dom h)). by rewrite Heq.
  - done.
  - unfold call. cbn [attribute]. by rewrite <- surjective_pairing.
  - rewrite list_copy_elements. unfold elements_at, h1'.
    by rewrite lookup_insert_eq.
  - intros acc Hacc. by destruct acc.
Qed.

Lemma entities_are_added_once_witness :
  (h ← add_all addCategory Ex.journal_object
         [Some 7%positive; None; Some 8%positive; Some 7%positive]
         Ex.journal_heap;
   Some (elements_at 3 h))
  = Some [IRef 7; IRef 8].
Proof.
  destruct (entities_are_added_once 1 2 3 4
              [Some 7%positive; None; Some 8%positive; Some 7%positive]
              Ex.journal_heap) as (h1 & h2 & H1 & E1 & _).
  - vm_compute. reflexivity.
  - vm_compute. reflexivity.
  - reflexivity.
  - reflexivity.
  - unfold Ex.journal_object. rewrite H1. cbn [mbind option_bind].
    rewrite E1. reflexivity.
Defined.

Lemma setLanguages_keeps_a_copy_witness :
  ∃ self' h1 r h2,
    setLanguages (Some 5%positive) Ex.journal_object Ex.caller_heap
    = Some (self', h1)
    ∧ call getLanguages self' (mutate_all 5 h1 [Append (IStr "de"); Reverse])
      = Some (r, h2)
    ∧ elements_at r h2 = [IStr "en"; IStr "fr"].
Proof.
  destruct (setLanguages_keeps_a_copy 1 2 3 4 5 Ex.caller_heap
              [Append (IStr "de"); Reverse])
    as (self' & h1 & r & h2 & _ & _ & _ & _ & Hset & Hget & Hel & _).
  - vm_compute. reflexivity.
  - exists self', h1, r, h2. split_and!; [exact Hset | exact Hget|].
    rewrite Hel. reflexivity.
Defined.

End object_setters.

(** ** The upload into the relational store *)

Lemma foldl_proj {A B C : Type} (proj : A → B) (step : A → C → A)
    (step' : B → C → B) (a : A) (l : list C) :
  (∀ a c, proj (step a c) = step' (proj a) c) →
  proj (foldl step a l) = foldl step' (proj a) l.
Proof.
  intros Hstep. revert a. induction l as [|c l IH]; intros a; [done|].
  cbn [foldl]. by rewrite IH, Hstep.
Qed.

Lemma foldl_same {B C : Type} (b : B) (l : list C) :
  foldl (λ b _, b) b l = b.
Proof. by induction l. Qed.

Lemma foldl_proj_same {A B C : Type} (proj : A → B) (step : A → C → A)
    (a : A) (l : list C) :
  (∀ a c, proj (step a c) = proj a) →
  proj (foldl step a l) = proj a.
Proof.
  intros Hstep. rewrite (foldl_proj proj step (λ b _, b)) by done.
  apply foldl_same.
Qed.

(** The four tables after one entry. *)
Lemma insert_entry_areas (d : Sql.db) (entry : Scimago.entry) :
  Sql.areas (insert_entry d entry)
  = foldl (λ t a, Sql.insert_or_ignore Sql.area_conflict a t) (Sql.areas d)
      (Scimago.areas entry).
Proof.
  unfold insert_entry. cbv zeta.
  rewrite (foldl_proj_same Sql.areas)
    by (intros; by apply (foldl_proj_same Sql.areas)).
  rewrite (foldl_proj_same Sql.areas)
    by (intros; by apply (foldl_proj_same Sql.areas)).
  rewrite (foldl_proj_same Sql.areas) by done.
  by apply (foldl_proj Sql.areas).
Qed.

Lemma insert_entry_categories (d : Sql.db) (entry : Scimago.entry) :
  Sql.categories (insert_entry d entry)
  = foldl (λ t c,
             Sql.insert_or_ignore Sql.category_conflict
               (Sql.mk_category (Scimago.id c) (Scimago.quartile c)) t)
      (Sql.categories d) (Scimago.categories entry).
Proof.
  unfold insert_entry. cbv zeta.
  rewrite (foldl_proj_same Sql.categories)
    by (intros; by apply (foldl_proj_same Sql.categories)).
  rewrite (foldl_proj_same Sql.categories)
    by (intros; by apply (foldl_proj_same Sql.categories)).
  rewrite (foldl_proj Sql.categories _
             (λ t c,
                Sql.insert_or_ignore Sql.category_conflict
                  (Sql.mk_category (Scimago.id c) (Scimago.quartile c)) t))
    by done.
  by rewrite (foldl_proj_same Sql.categories) by done.
Qed.

Lemma insert_entry_journal_categories (d : Sql.db) (entry : Scimago.entry) :
  Sql.journal_categories (insert_entry d entry)
  = foldl (λ t issn,
             foldl (λ t c,
                      Sql.insert_or_ignore Sql.journal_category_conflict
                        (Sql.mk_journal_category issn (Scimago.id c)
                           (Scimago.quartile c)) t)
               t (Scimago.categories entry))
      (Sql.journal_categories d) (Scimago.identifiers entry).
Proof.
  unfold insert_entry. cbv zeta.
  rewrite (foldl_proj_same Sql.journal_categories)
    by (intros; by apply (foldl_proj_same Sql.journal_categories)).
  rewrite (foldl_proj Sql.journal_categories _
             (λ t issn,
                foldl (λ t c,
                         Sql.insert_or_ignore Sql.journal_category_conflict
                           (Sql.mk_journal_category issn (Scimago.id c)
                              (Scimago.quartile c)) t)
                  t (Scimago.categories entry)))
    by (intros; by apply (foldl_proj Sql.journal_categories)).
  rewrite (foldl_proj_same Sql.journal_categories) by done.
  by rewrite (foldl_proj_same Sql.journal_categories) by done.
Qed.

Lemma insert_entry_journal_areas (d : Sql.db) (entry : Scimago.entry) :
  Sql.journal_areas (insert_entry d entry)
  = foldl (λ t issn,
             foldl (λ t a,
                      Sql.insert_or_ignore Sql.journal_area_conflict
                        (Sql.mk_journal_area issn a) t)
               t (Scimago.areas entry))
      (Sql.journal_areas d) (Scimago.identifiers entry).
Proof.
  unfold insert_entry. cbv zeta.
  rewrite (foldl_proj Sql.journal_areas _
             (λ t issn,
                foldl (λ t a,
                         Sql.insert_or_ignore Sql.journal_area_conflict
                           (Sql.mk_journal_area issn a) t)
                  t (Scimago.areas entry)))
    by (intros; by apply (foldl_proj Sql.journal_areas)).
  rewrite (foldl_proj_same Sql.journal_areas)
    by (intros; by apply (foldl_proj_same Sql.journal_areas)).
  rewrite (foldl_proj_same Sql.journal_areas) by done.
  by rewrite (foldl_proj_same Sql.journal_areas) by done.
Qed.

Lemma foldl_invariant {A C : Type} (P : A → Prop) (step : A → C → A) (a : A)
    (l : list C) :
  (∀ a c, P a → P (step a c)) → P a → P (foldl step a l).
Proof.
  intros Hstep. revert a. induction l as [|c l IH]; intros a Ha; [done|].
  cbn [foldl]. by apply IH, Hstep.
Qed.

Lemma insert_or_ignore_prefix {A : Type} (conflict : A → A → bool) (row : A)
    (table : list A) :
  table `prefix_of` Sql.insert_or_ignore conflict row table.
Proof.
  unfold Sql.insert_or_ignore. destruct (existsb _ _); [done|].
  by apply prefix_app_r.
Qed.

Lemma insert_or_ignore_conflict_free {A : Type} (conflict : A → A → bool)
    (row : A) (table : list A) :
  (∀ a b, conflict a b = conflict b a) →
  conflict_free conflict table →
  conflict_free conflict (Sql.insert_or_ignore conflict row table).
Proof.
  intros Hsym Hfree. unfold Sql.insert_or_ignore.
  destruct (existsb (conflict row) table) eqn:Hex; [done|].
  assert (∀ b, b ∈ table → conflict row b = false) as Hrow.
  { intros b Hb. destruct (conflict row b) eqn:Hc; [|done].
    assert (existsb (conflict row) table = true) as Hex'; [|congruence].
    apply existsb_exists. exists b. split; [|done].
    by apply list_elem_of_In. }
  intros i j a b Hi Hj Hne.
  apply lookup_app_Some in Hi as [Hi|[Hi Hi']];
    apply lookup_app_Some in Hj as [Hj|[Hj Hj']].
  - by apply (Hfree i j).
  - apply list_lookup_singleton_Some in Hj' as [_ <-].
    rewrite Hsym. apply Hrow. by eapply list_elem_of_lookup_2.
  - apply list_lookup_singleton_Some in Hi' as [_ <-].
    apply Hrow. by eapply list_elem_of_lookup_2.
  - apply list_lookup_singleton_Some in Hi' as [Hi' _].
    apply list_lookup_singleton_Some in Hj' as [Hj' _]. lia.
Qed.

Lemma eq_cells_sym (a b : Sql.cell) : Sql.eq_cells a b = Sql.eq_cells b a.
Proof.
  destruct a as [x|], b as [y|]; try done. simpl.
  apply bool_decide_ext. naive_solver.
Qed.

(** A table filled by a loop, or a loop of loops, of [INSERT OR
    IGNORE]. *)
Lemma inserts_keep_keys {A C : Type} (conflict : A → A → bool) (g : C → A)
    (table : list A) (l : list C) :
  (∀ a b, conflict a b = conflict b a) →
  (conflict_free conflict table →
   conflict_free conflict
     (foldl (λ t c, Sql.insert_or_ignore conflict (g c) t) table l))
  ∧ table `prefix_of`
      foldl (λ t c, Sql.insert_or_ignore conflict (g c) t) table l.
Proof.
  intros Hsym. split.
  - apply (foldl_invariant (conflict_free conflict)).
    intros t c. by apply insert_or_ignore_conflict_free.
  - apply (foldl_invariant (λ t, table `prefix_of` t)); [|done].
    intros t c Ht. etrans; [exact Ht|]. apply insert_or_ignore_prefix.
Qed.

Lemma nested_inserts_keep_keys {A C D : Type} (conflict : A → A → bool)
    (g : D → C → A) (table : list A) (l : list C) (l' : list D) :
  (∀ a b, conflict a b = conflict b a) →
  (conflict_free conflict table →
   conflict_free conflict
     (foldl (λ t x,
               foldl (λ t c, Sql.insert_or_ignore conflict (g x c) t) t l)
        table l'))
  ∧ table `prefix_of`
      foldl (λ t x,
               foldl (λ t c, Sql.insert_or_ignore conflict (g x c) t) t l)
        table l'.
Proof.
  intros Hsym. split.
  - apply (foldl_invariant (conflict_free conflict)).
    intros t x. by apply (inserts_keep_keys conflict (g x)).
  - apply (foldl_invariant (λ t, table `prefix_of` t)); [|done].
    intros t x Ht. etrans; [exact Ht|].
    by apply (inserts_keep_keys conflict (g x)).
Qed.

Lemma insert_entry_keeps_keys (d : Sql.db) (entry : Scimago.entry) :
  (keys_ok d → keys_ok (insert_entry d entry))
  ∧ Sql.areas d `prefix_of` Sql.areas (insert_entry d entry)
  ∧ Sql.categories d `prefix_of` Sql.categories (insert_entry d entry)
  ∧ Sql.journal_categories d
      `prefix_of` Sql.journal_categories (insert_entry d entry)
  ∧ Sql.journal_areas d `prefix_of` Sql.journal_areas (insert_entry d entry).
Proof.
  rewrite insert_entry_areas, insert_entry_categories,
    insert_entry_journal_categories, insert_entry_journal_areas.
  unfold keys_ok.
  rewrite insert_entry_areas, insert_entry_categories,
    insert_entry_journal_categories, insert_entry_journal_areas.
  assert (∀ a b, Sql.area_conflict a b = Sql.area_conflict b a) as S1
    by apply eq_cells_sym.
  assert (∀ a b, Sql.category_conflict a b = Sql.category_conflict b a) as S2
    by (intros; apply eq_cells_sym).
  assert (∀ a b, Sql.journal_category_conflict a b
                 = Sql.journal_category_conflict b a) as S3.
  { intros a b. unfold Sql.journal_category_conflict.
    by rewrite (eq_cells_sym (Sql.jc_issn a)),
      (eq_cells_sym (Sql.jc_category_id a)). }
  assert (∀ a b, Sql.journal_area_conflict a b
                 = Sql.journal_area_conflict b a) as S4.
  { intros a b. unfold Sql.journal_area_conflict.
    by rewrite (eq_cells_sym (Sql.ja_issn a)),
      (eq_cells_sym (Sql.ja_area_id a)). }
  destruct (inserts_keep_keys Sql.area_conflict id (Sql.areas d)
              (Scimago.areas entry) S1) as [K1 P1].
  destruct (inserts_keep_keys Sql.category_conflict
              (λ c, Sql.mk_category (Scimago.id c) (Scimago.quartile c))
              (Sql.categories d) (Scimago.categories entry) S2) as [K2 P2].
  destruct (nested_inserts_keep_keys Sql.journal_category_conflict
              (λ issn c, Sql.mk_journal_category issn (Scimago.id c)
                           (Scimago.quartile c))
              (Sql.journal_categories d) (Scimago.categories entry)
              (Scimago.identifiers entry) S3) as [K3 P3].
  destruct (nested_inserts_keep_keys Sql.journal_area_conflict
              (λ issn a, Sql.mk_journal_area issn a)
              (Sql.journal_areas d) (Scimago.areas entry)
              (Scimago.identifiers entry) S4) as [K4 P4].
  split_and!; [|done..]. intros (H1 & H2 & H3 & H4). split_and!; auto.
Qed.

(** Uploading a file keeps the primary keys of the four tables: if no two
    rows of a table had the same key before, none have afterwards; a
    database created by the upload starts with empty tables. And an upload
    only appends: the rows that were in a table stay, unchanged and in
    place. *)
Theorem upload_keeps_the_keys (scimago_data : list Scimago.entry)
    (store : option Sql.db) :
  (∀ d, store = Some d → keys_ok d) →
  keys_ok (_upload_to_sqlite scimago_data store).1
  ∧ ∀ d, store = Some d →
         Sql.areas d `prefix_of`
           Sql.areas (_upload_to_sqlite scimago_data store).1
         ∧ Sql.categories d `prefix_of`
             Sql.categories (_upload_to_sqlite scimago_data store).1
         ∧ Sql.journal_categories d `prefix_of`
             Sql.journal_categories (_upload_to_sqlite scimago_data store).1
         ∧ Sql.journal_areas d `prefix_of`
             Sql.journal_areas (_upload_to_sqlite scimago_data store).1.
Proof.
  intros Hstore. unfold _upload_to_sqlite, _insert_data. cbn [fst].
  assert (keys_ok (_create_tables store)) as Hstart.
  { destruct store as [d|]; [by apply Hstore|].
    split_and!; intros i j a b Hi; by destruct i. }
  split.
  - revert Hstart. apply (foldl_invariant keys_ok).
    intros d entry. apply insert_entry_keeps_keys.
  - intros d ->. cbn [_create_tables default from_option id].
    apply (foldl_invariant
             (λ d', Sql.areas d `prefix_of` Sql.areas d'
                    ∧ Sql.categories d `prefix_of` Sql.categories d'
                    ∧ Sql.journal_categories d
                        `prefix_of` Sql.journal_categories d'
                    ∧ Sql.journal_areas d `prefix_of` Sql.journal_areas d'));
      [|done].
    intros d' entry (H1 & H2 & H3 & H4).
    destruct (insert_entry_keeps_keys d' entry) as (_ & G1 & G2 & G3 & G4).
    split_and!; by etrans.
Qed.

Section links.
Context {A C : Type} (issn_of tag_of : A → Sql.cell)
  (conflict : A → A → bool) (g : Sql.cell → C → A) (tag : C → Sql.cell).
Hypothesis conflict_eq :
  ∀ a b, conflict a b
         = Sql.eq_cells (issn_of a) (issn_of b)
           && Sql.eq_cells (tag_of a) (tag_of b).
Hypothesis issn_of_g : ∀ i x, issn_of (g i x) = i.
Hypothesis tag_of_g : ∀ i x, tag_of (g i x) = tag x.

(** The identifiers a link table files under [c], after one more
    [INSERT OR IGNORE]. *)
Lemma linked_insert (c : string) (row : A) (table : list A) :
  list_to_set (C := gset Sql.cell)
    (issn_of <$> filter (λ r, Sql.eq_param (tag_of r) c)
                   (Sql.insert_or_ignore conflict row table))
  = list_to_set
      (issn_of <$> filter (λ r, Sql.eq_param (tag_of r) c) table)
    ∪ (if Sql.eq_param (tag_of row) c then {[ issn_of row ]} else ∅).
Proof using conflict_eq.
  clear issn_of_g tag_of_g g tag. unfold Sql.insert_or_ignore.
  destruct (existsb (conflict row) table) eqn:Hex.
  - apply existsb_exists in Hex as (r & Hr%list_elem_of_In & Hc).
    rewrite conflict_eq in Hc. apply andb_true_iff in Hc as [Hi Ht].
    unfold Sql.eq_cells in Hi, Ht.
    destruct (issn_of row) as [i|] eqn:Hrow, (issn_of r) as [i'|] eqn:Hr1;
      try done.
    destruct (tag_of row) as [x|] eqn:Hrow', (tag_of r) as [x'|] eqn:Hr2;
      try done.
    apply bool_decide_eq_true in Hi as ->.
    apply bool_decide_eq_true in Ht as ->.
    destruct (Sql.eq_param (Some x') c) eqn:Hx; [|set_solver].
    assert (Some i' ∈ issn_of <$> filter (λ r, Sql.eq_param (tag_of r) c) table)
      as Hin.
    { apply list_elem_of_fmap. exists r. split; [done|].
      apply list_elem_of_filter. split; [|done]. by rewrite Hr2, Hx. }
    set_solver.
  - rewrite filter_app, fmap_app, list_to_set_app_L. f_equal.
    rewrite filter_cons, filter_nil.
    destruct (Sql.eq_param (tag_of row) c); simpl; set_solver.
Qed.

Lemma linked_inserts (c : string) (i : Sql.cell) (xs : list C)
    (table : list A) :
  list_to_set (C := gset Sql.cell)
    (issn_of <$> filter (λ r, Sql.eq_param (tag_of r) c)
                   (foldl (λ t x, Sql.insert_or_ignore conflict (g i x) t)
                      table xs))
  = list_to_set
      (issn_of <$> filter (λ r, Sql.eq_param (tag_of r) c) table)
    ∪ (if bool_decide (Some c ∈ tag <$> xs) then {[ i ]} else ∅).
Proof using conflict_eq issn_of_g tag_of_g.
  revert table. induction xs as [|x xs IH]; intros table; cbn [foldl].
  - rewrite bool_decide_eq_false_2 by (by intros ?%elem_of_nil). set_solver.
  - rewrite IH, linked_insert, issn_of_g, tag_of_g. rewrite fmap_cons.
    unfold Sql.eq_param.
    destruct (decide (tag x = Some c)) as [Hx|Hx].
    + rewrite (bool_decide_eq_true_2 (tag x = Some c)) by done.
      rewrite (bool_decide_eq_true_2 (Some c ∈ tag x :: _))
        by (rewrite Hx; by left).
      destruct (bool_decide (Some c ∈ tag <$> xs)); set_solver.
    + rewrite (bool_decide_eq_false_2 (tag x = Some c)) by done.
      destruct (decide (Some c ∈ tag <$> xs)) as [Hin|Hin].
      * rewrite !bool_decide_eq_true_2; [set_solver|by right|done].
      * rewrite !bool_decide_eq_false_2; [set_solver| |done].
        intros [?|?]%elem_of_cons; [congruence|done].
Qed.

Lemma linked_nested_inserts (c : string) (issns : list Sql.cell) (xs : list C)
    (table : list A) :
  list_to_set (C := gset Sql.cell)
    (issn_of <$> filter (λ r, Sql.eq_param (tag_of r) c)
                   (foldl (λ t i,
                             foldl (λ t x,
                                      Sql.insert_or_ignore conflict (g i x) t)
                               t xs)
                      table issns))
  = list_to_set
      (issn_of <$> filter (λ r, Sql.eq_param (tag_of r) c) table)
    ∪ list_to_set (if bool_decide (Some c ∈ tag <$> xs) then issns else []).
Proof using conflict_eq issn_of_g tag_of_g.
  revert table. induction issns as [|i issns IH]; intros table; cbn [foldl].
  - destruct (bool_decide _); set_solver.
  - rewrite IH, linked_inserts.
    destruct (bool_decide (Some c ∈ tag <$> xs)); set_solver.
Qed.
End links.

Lemma first_column_issn_rows (l : list Sql.cell) :
  Sql.first_column "issn" (Sql.issn_row <$> remove_dups l) = list_to_set l.
Proof.
  unfold Sql.first_column. rewrite <- list_fmap_compose.
  erewrite (list_fmap_ext _ id).
  - rewrite list_fmap_id. apply set_eq. intros x.
    by rewrite !elem_of_list_to_set, elem_of_remove_dups.
  - intros i x _. unfold compose, Sql.issn_row, row_get.
    rewrite lookup_singleton_eq. by destruct x.
Qed.

Lemma uploaded_journal_categories (d : Sql.db)
    (scimago_data : list Scimago.entry) (c : string) :
  list_to_set (C := gset Sql.cell)
    (Sql.jc_issn <$>
       filter (λ jc, Sql.eq_param (Sql.jc_category_id jc) c)
         (Sql.journal_categories (_insert_data d scimago_data)))
  = list_to_set
      (Sql.jc_issn <$>
         filter (λ jc, Sql.eq_param (Sql.jc_category_id jc) c)
           (Sql.journal_categories d))
    ∪ uploaded_under_category scimago_data c.
Proof.
  unfold _insert_data, uploaded_under_category. revert d.
  induction scimago_data as [|entry rest IH]; intros d; cbn [foldl].
  - set_solver.
  - rewrite IH, insert_entry_journal_categories.
    rewrite (linked_nested_inserts Sql.jc_issn Sql.jc_category_id
               Sql.journal_category_conflict
               (λ issn c0, Sql.mk_journal_category issn (Scimago.id c0)
                             (Scimago.quartile c0))
               Scimago.id) by done.
    rewrite bind_cons, list_to_set_app_L. set_solver.
Qed.

Lemma uploaded_journal_areas (d : Sql.db)
    (scimago_data : list Scimago.entry) (a : string) :
  list_to_set (C := gset Sql.cell)
    (Sql.ja_issn <$>
       filter (λ ja, Sql.eq_param (Sql.ja_area_id ja) a)
         (Sql.journal_areas (_insert_data d scimago_data)))
  = list_to_set
      (Sql.ja_issn <$>
         filter (λ ja, Sql.eq_param (Sql.ja_area_id ja) a)
           (Sql.journal_areas d))
    ∪ uploaded_under_area scimago_data a.
Proof.
  unfold _insert_data, uploaded_under_area. revert d.
  induction scimago_data as [|entry rest IH]; intros d; cbn [foldl].
  - set_solver.
  - rewrite IH, insert_entry_journal_areas.
    rewrite (linked_nested_inserts Sql.ja_issn Sql.ja_area_id
               Sql.journal_area_conflict
               (λ issn a0, Sql.mk_journal_area issn a0) id) by done.
    rewrite bind_cons, list_to_set_app_L, list_fmap_id. set_solver.
Qed.


Lemma foldl_foldl_bind {A B C : Type} (step : A → C → A) (f : B → list C)
    (a : A) (l : list B) :
  foldl (λ a x, foldl step a (f x)) a l = foldl step a (l ≫= f).
Proof.
  revert a. induction l as [|x l IH]; intros a; [done|].
  cbn [foldl]. by rewrite bind_cons, foldl_app, IH.
Qed.

Lemma _insert_data_areas (d : Sql.db) (scimago_data : list Scimago.entry) :
  Sql.areas (_insert_data d scimago_data)
  = foldl (λ t a, Sql.insert_or_ignore Sql.area_conflict a t) (Sql.areas d)
      (scimago_data ≫= Scimago.areas).
Proof.
  unfold _insert_data. rewrite <- foldl_foldl_bind.
  apply (foldl_proj Sql.areas). intros d' entry. apply insert_entry_areas.
Qed.

Lemma _insert_data_categories (d : Sql.db)
    (scimago_data : list Scimago.entry) :
  Sql.categories (_insert_data d scimago_data)
  = foldl (λ t r, Sql.insert_or_ignore Sql.category_conflict r t)
      (Sql.categories d) (uploaded_categories scimago_data).
Proof.
  unfold _insert_data, uploaded_categories. rewrite <- foldl_foldl_bind.
  apply (foldl_proj Sql.categories). intros d' entry.
  rewrite insert_entry_categories. by rewrite foldl_fmap.
Qed.

(** Of the rows with one key that a loop of [INSERT OR IGNORE] offers to a
    table, the first is the one the table has afterwards, unless it had one
    before. *)
Lemma first_insert_wins {A : Type} (key : A → Sql.cell) (c : string)
    (rows table : list A) :
  filter (λ r, Sql.eq_param (key r) c)
    (foldl (λ t r, Sql.insert_or_ignore
                     (λ a b, Sql.eq_cells (key a) (key b)) r t) table rows)
  = match filter (λ r, Sql.eq_param (key r) c) table with
    | [] => option_list (head (filter (λ r, Sql.eq_param (key r) c) rows))
    | r :: rs => r :: rs
    end.
Proof.
  revert table. induction rows as [|row rows IH]; intros table; cbn [foldl].
  - by destruct (filter _ table).
  - rewrite IH. unfold Sql.insert_or_ignore.
    destruct (existsb _ table) eqn:Hex.
    + apply existsb_exists in Hex as (r & Hr%list_elem_of_In & Hc).
      destruct (filter _ table) as [|r0 rs] eqn:Hf; [|done].
      rewrite filter_cons.
      destruct (decide (Sql.eq_param (key row) c)) as [Hrow|Hrow]; [|done].
      exfalso. apply bool_decide_unpack in Hrow.
      unfold Sql.eq_cells in Hc. rewrite Hrow in Hc.
      destruct (key r) as [k|] eqn:Hk; [|done].
      apply bool_decide_eq_true in Hc as <-.
      assert (r ∈ filter (λ r, Sql.eq_param (key r) c) table) as Hin.
      { apply list_elem_of_filter. split; [|done].
        rewrite Hk. by apply bool_decide_pack. }
      rewrite Hf in Hin. by apply elem_of_nil in Hin.
    + rewrite filter_app, !(filter_cons _ row), filter_nil.
      destruct (filter _ table) as [|r0 rs] eqn:Hf.
      * rewrite app_nil_l.
        destruct (decide (Sql.eq_param (key row) c)); [done|].
        by destruct (filter _ rows).
      * destruct (decide (Sql.eq_param (key row) c)) as [Hrow|Hrow];
          [|by rewrite app_nil_r].
        exfalso. apply bool_decide_unpack in Hrow.
        assert (r0 ∈ filter (λ r, Sql.eq_param (key r) c) table) as Hin
          by (rewrite Hf; by left).
        apply list_elem_of_filter in Hin as [Hkey%bool_decide_unpack Hin].
        assert (existsb (λ b, Sql.eq_cells (key row) (key b)) table = true)
          as Hex'; [|congruence].
        apply existsb_exists. exists r0. split; [by apply list_elem_of_In|].
        rewrite Hrow, Hkey. by apply bool_decide_eq_true_2.
Qed.


Lemma conflict_free_short {A : Type} (conflict : A → A → bool)
    (table : list A) :
  length table ≤ 1 → conflict_free conflict table.
Proof.
  intros Hlen i j a b Hi%lookup_lt_Some Hj%lookup_lt_Some Hne. lia.
Qed.

Lemma upload_keeps_the_keys_witness :
  keys_ok (_upload_to_sqlite Ex.scimago_sample (Some Ex.db_2)).1.
Proof.
  apply (upload_keeps_the_keys Ex.scimago_sample (Some Ex.db_2)).
  intros d [= <-].
  split_and!; apply conflict_free_short; simpl; lia.
Defined.



(** ** What the filters of the journal handler let through *)

(** A row of an answer comes from a solution of the pattern on a node of
    the store, and shows what the solution binds. *)
Lemma frame_row (store : list Graph.node) (q : Graph.query) (row : Row) :
  row ∈ Graph.to_frame (Graph.eval store q) →
  ∃ n b,
    n ∈ store ∧ b ∈ Graph.solutions q n
    ∧ ∀ c, c ∈ Graph.selected →
           match b !! c with
           | Some v => row_get row c = VStr v
           | None => ∀ s, row_get row c ≠ VStr s
           end.
Proof.
  unfold Graph.to_frame. cbv zeta.
  intros (b' & -> & Hb')%list_elem_of_fmap.
  unfold Graph.eval in Hb'. cbv zeta in Hb'.
  apply list_elem_of_fmap in Hb' as (b & -> & Hb).
  assert (b ∈ store ≫= Graph.solutions q) as Hsol.
  { destruct (Graph.ordered q); [|done].
    by rewrite sorted_by_Permutation in Hb. }
  apply list_elem_of_bind in Hsol as (n & Hbn & Hn).
  exists n, b. split_and!; [done..|]. intros c Hc.
  unfold row_get. rewrite lookup_union, lookup_fmap, project_lookup.
  rewrite decide_True by done.
  destruct (b !! c) as [v|]; simpl.
  - by rewrite union_Some_l.
  - intros s. rewrite lookup_gset_to_gmap.
    destruct (guard _) as [?|]; simpl; done.
Qed.

Lemma selected_issn : "issn"%string ∈ Graph.selected.
Proof. unfold Graph.selected. set_solver. Qed.
Lemma selected_eissn : "eissn"%string ∈ Graph.selected.
Proof. unfold Graph.selected. set_solver. Qed.
Lemma selected_title : "title"%string ∈ Graph.selected.
Proof. unfold Graph.selected. set_solver. Qed.
Lemma selected_publisher : "publisher"%string ∈ Graph.selected.
Proof. unfold Graph.selected. set_solver. Qed.
Lemma selected_licence : "licence"%string ∈ Graph.selected.
Proof. unfold Graph.selected. set_solver. Qed.

(** In a solution of [getByIds], [?wanted] is one of the values sent. *)
Lemma wanted_is_a_value (values : list string) (n : Graph.node)
    (b : Graph.binding) (v : string) :
  b ∈ Graph.solutions (Graph.ByIds values) n →
  b !! "wanted"%string = Some v → v ∈ values.
Proof.
  cbn [Graph.solutions]. intros [_ Hb]%list_elem_of_filter. revert v.
  revert b Hb. unfold Graph.pattern.
  apply (pattern_invariant
           (λ b, ∀ v, b !! "wanted"%string = Some v → v ∈ values)).
  - repeat (constructor;
      [intros b0 b' Hb0 Hb';
       first [eapply (required_binds (λ v, v ∈ values) "wanted");
              [|exact Hb0|exact Hb']
             |eapply (optional_binds (λ v, v ∈ values) "wanted");
              [|exact Hb0|exact Hb']];
       first [by intros [=] | intros _; by apply Forall_forall]|]).
    constructor.
  - intros b0 ->%list_elem_of_singleton v.
    by rewrite lookup_singleton_ne.
Qed.

Lemma sparql_answers_rows (w : World) (self : QueryHandler) (q : Graph.query)
    (P : Row → Prop) :
  (∀ n b row,
     b ∈ Graph.solutions q n →
     (∀ c, c ∈ Graph.selected →
           match b !! c with
           | Some v => row_get row c = VStr v
           | None => ∀ s, row_get row c ≠ VStr s
           end) →
     P row) →
  answers_with (_execute_sparql_query w self q) (Forall P).
Proof.
  intros HP tr. eexists _, _. split; [apply _execute_sparql_query_eq|].
  unfold sparql_answer. destruct (endpoint w (_dbPathOrUrl self)) as [store|];
    [|constructor].
  apply Forall_forall. intros row (n & b & _ & Hb & Hrow)%frame_row. eauto.
Qed.

Lemma answers_nothing (P : Row → Prop) :
  answers_with (mret ([] : DataFrame)) (Forall P).
Proof. intros tr. by eexists _, _. Qed.

(** The journal handler always answers, and every row of an answer passes
    the filter of the request: [getById] gives rows whose ISSN or EISSN is
    the identifier asked for, [getByIds] rows whose ISSN or EISSN is one
    of the non-empty identifiers asked for, [getJournalsWithTitle] and
    [getJournalsPublishedBy] rows whose title or publisher contains the
    text, letter case apart, [getJournalsWithLicense] rows whose licence is
    one of the set unless the set is empty, and [getJournalsByIssns] rows
    whose ISSN, or whose EISSN when the row shows no ISSN, is one of the
    non-empty identifiers asked for. *)
Theorem journal_rows_pass_the_filter (w : World) (self : QueryHandler) :
  (∀ entity_id,
     answers_with (JournalQueryHandler_getById w self entity_id)
       (Forall (λ row, shows row "issn" entity_id
                       ∨ shows row "eissn" entity_id)))
  ∧ (∀ ids,
       answers_with (JournalQueryHandler_getByIds w self ids)
         (Forall (λ row, ∃ v, v ∈ ids ∧ v ≠ ""%string
                              ∧ (shows row "issn" v ∨ shows row "eissn" v))))
  ∧ (∀ partialTitle,
       answers_with (JournalQueryHandler_getJournalsWithTitle w self partialTitle)
         (Forall (λ row, ∃ t, shows row "title" t
                              ∧ occurs_in partialTitle t)))
  ∧ (∀ partialName,
       answers_with (JournalQueryHandler_getJournalsPublishedBy w self partialName)
         (Forall (λ row, ∃ p, shows row "publisher" p
                              ∧ occurs_in partialName p)))
  ∧ (∀ licenses,
       answers_with (JournalQueryHandler_getJournalsWithLicense w self licenses)
         (Forall (λ row, licenses = ∅
                         ∨ ∃ l, l ∈ licenses ∧ shows row "licence" l)))
  ∧ (∀ issns,
       answers_with (JournalQueryHandler_getJournalsByIssns w self issns)
         (Forall (λ row, ∃ v, v ∈ issns ∧ v ≠ ""%string
                              ∧ (shows row "issn" v
                                 ∨ blank row "issn" ∧ shows row "eissn" v)))).
Proof.
  split_and!.
  - intros entity_id. apply sparql_answers_rows. intros n b row Hb Hrow.
    cbn [Graph.solutions] in Hb. apply list_elem_of_filter in Hb as [Hf _].
    apply orb_prop_elim in Hf as [Hf|Hf];
      apply bool_decide_unpack in Hf; [left|right].
    + specialize (Hrow _ selected_issn). by rewrite Hf in Hrow.
    + specialize (Hrow _ selected_eissn). by rewrite Hf in Hrow.
  - intros ids. unfold JournalQueryHandler_getByIds.
    case_bool_decide; [apply answers_nothing|].
    case_bool_decide; [apply answers_nothing|].
    apply sparql_answers_rows. intros n b row Hb Hrow.
    pose proof (λ v, wanted_is_a_value _ _ _ v Hb) as Hwanted.
    cbn [Graph.solutions] in Hb. apply list_elem_of_filter in Hb as [Hf _].
    assert (∃ c v, (c = "issn"%string ∨ c = "eissn"%string)
                   ∧ b !! c = Some v ∧ b !! "wanted"%string = Some v)
      as (c & v & Hc & Hv & Hw).
    { unfold Graph.vars_eq in Hf.
      apply orb_prop_elim in Hf as [Hf|Hf].
      - destruct (b !! "issn"%string) as [u|] eqn:Hu; [|done].
        destruct (b !! "wanted"%string) as [u'|]; [|done].
        apply bool_decide_unpack in Hf as <-. exists "issn"%string, u. auto.
      - destruct (b !! "eissn"%string) as [u|] eqn:Hu; [|done].
        destruct (b !! "wanted"%string) as [u'|]; [|done].
        apply bool_decide_unpack in Hf as <-. exists "eissn"%string, u. auto. }
    apply Hwanted in Hw. apply list_elem_of_filter in Hw as [Htruthy Hin].
    exists v. split_and!; [done|by apply bool_decide_unpack in Htruthy|].
    destruct Hc as [-> | ->]; [left|right].
    + specialize (Hrow _ selected_issn). by rewrite Hv in Hrow.
    + specialize (Hrow _ selected_eissn). by rewrite Hv in Hrow.
  - intros partialTitle. apply sparql_answers_rows. intros n b row Hb Hrow.
    cbn [Graph.solutions] in Hb. apply list_elem_of_filter in Hb as [Hf _].
    unfold Graph.contains_lcase in Hf. specialize (Hrow _ selected_title).
    destruct (b !! "title"%string) as [t|]; [|done].
    exists t. split; [done|]. by apply Is_true_true.
  - intros partialName. apply sparql_answers_rows. intros n b row Hb Hrow.
    cbn [Graph.solutions] in Hb. apply list_elem_of_filter in Hb as [Hf _].
    unfold Graph.contains_lcase in Hf. specialize (Hrow _ selected_publisher).
    destruct (b !! "publisher"%string) as [t|]; [|done].
    exists t. split; [done|]. by apply Is_true_true.
  - intros licenses. unfold JournalQueryHandler_getJournalsWithLicense.
    case_bool_decide as Hempty.
    { apply sparql_answers_rows. intros. by left. }
    case_bool_decide; [apply answers_nothing|].
    apply sparql_answers_rows. intros n b row Hb Hrow. right.
    cbn [Graph.solutions] in Hb. apply list_elem_of_filter in Hb as [Hf _].
    apply Is_true_true, existsb_exists in Hf as (l & Hl & Hf).
    apply list_elem_of_In, list_elem_of_filter in Hl as [_ Hl].
    apply elem_of_elements in Hl.
    apply Is_true_true, bool_decide_unpack in Hf.
    exists l. split; [done|].
    specialize (Hrow _ selected_licence). by rewrite Hf in Hrow.
  - intros issns. unfold JournalQueryHandler_getJournalsByIssns. cbv zeta.
    case_bool_decide; [apply answers_nothing|].
    apply sparql_answers_rows. intros n b row Hb Hrow.
    cbn [Graph.solutions] in Hb. apply list_elem_of_filter in Hb as [Hf _].
    unfold Graph.anyId_in in Hf.
    destruct (Graph.anyId b) as [v|] eqn:Hany; [|done].
    apply bool_decide_unpack in Hf.
    unfold py_sorted in Hf. rewrite sorted_by_Permutation in Hf.
    apply list_elem_of_filter in Hf as [Htruthy Hin].
    apply elem_of_elements in Hin.
    exists v. split_and!; [done|by apply bool_decide_unpack in Htruthy|].
    unfold Graph.anyId in Hany.
    pose proof (Hrow _ selected_issn) as Hissn.
    pose proof (Hrow _ selected_eissn) as Heissn.
    destruct (b !! "issn"%string) as [u|].
    + left. by injection Hany as ->.
    + right. split; [done|]. by rewrite Hany in Heissn.
Qed.

(** ** What [getById] finds in the store *)

Lemma pattern_reaches (I : Graph.binding → Prop)
    (steps : list (Graph.binding → list Graph.binding))
    (sols : list Graph.binding) :
  Forall (λ step, ∀ b, I b → ∃ b', b' ∈ step b ∧ I b') steps →
  (∃ b, b ∈ sols ∧ I b) →
  ∃ b, b ∈ foldl (λ sols step, sols ≫= step) sols steps ∧ I b.
Proof.
  intros Hsteps. revert sols.
  induction Hsteps as [|step steps Hstep _ IH]; intros sols Hsols; [done|].
  simpl. apply IH. destruct Hsols as (b & Hb & HI).
  destruct (Hstep b HI) as (b' & Hb' & HI').
  exists b'. split; [|done]. apply list_elem_of_bind. eauto.
Qed.

Lemma optional_keeps_binding (x v var : string) (vals : list string)
    (b : Graph.binding) :
  var ≠ x → b !! x = Some v →
  ∃ b', b' ∈ Graph.optional var vals b ∧ b' !! x = Some v.
Proof.
  intros Hne Hb. destruct vals as [|u vals].
  - exists b. split; [by apply list_elem_of_singleton|done].
  - exists (<[var := u]> b). split.
    + unfold Graph.optional, Graph.required. rewrite fmap_cons. by left.
    + by rewrite lookup_insert_ne.
Qed.

Lemma optional_picks (var v : string) (vals : list string)
    (b : Graph.binding) :
  v ∈ vals → ∃ b', b' ∈ Graph.optional var vals b ∧ b' !! var = Some v.
Proof.
  intros Hv. exists (<[var := v]> b). split; [|by rewrite lookup_insert_eq].
  destruct vals as [|u vals]; [by apply elem_of_nil in Hv|].
  unfold Graph.optional, Graph.required.
  apply list_elem_of_fmap. eauto.
Qed.

Lemma optional_some (var : string) (vals : list string) (b : Graph.binding) :
  ∃ b', b' ∈ Graph.optional var vals b.
Proof.
  destruct vals as [|u vals].
  - exists b. by apply list_elem_of_singleton.
  - exists (<[var := u]> b). unfold Graph.optional, Graph.required.
    rewrite fmap_cons. by left.
Qed.

Lemma optional_keeps_either (entity_id var : string) (vals : list string)
    (b : Graph.binding) :
  var ≠ "issn"%string → var ≠ "eissn"%string →
  b !! "issn"%string = Some entity_id ∨ b !! "eissn"%string = Some entity_id →
  ∃ b', b' ∈ Graph.optional var vals b
        ∧ (b' !! "issn"%string = Some entity_id
           ∨ b' !! "eissn"%string = Some entity_id).
Proof.
  intros Hissn Heissn [Hb|Hb].
  - destruct (optional_keeps_binding "issn" entity_id var vals b Hissn Hb)
      as (b' & Hb' & Hkeep). eauto.
  - destruct (optional_keeps_binding "eissn" entity_id var vals b Heissn Hb)
      as (b' & Hb' & Hkeep). eauto.
Qed.

(** A node that has the identifier gives a solution of [getById]. *)
Lemma getById_solution (n : Graph.node) (entity_id : string) :
  entity_id ∈ Graph.issn n ∨ entity_id ∈ Graph.eissn n →
  ∃ b, b ∈ Graph.solutions (Graph.ById entity_id) n.
Proof.
  intros Hid. cbn [Graph.solutions].
  set (passes := λ b : Graph.binding,
         b !! "issn"%string = Some entity_id
         ∨ b !! "eissn"%string = Some entity_id).
  enough (∃ b, b ∈ Graph.pattern
                 [Graph.optional "issn" (Graph.issn n);
                  Graph.optional "eissn" (Graph.eissn n);
                  Graph.optional "title" (Graph.title n);
                  Graph.optional "language" (Graph.language n);
                  Graph.optional "publisher" (Graph.publisher n);
                  Graph.optional "seal" (Graph.hasDOAJSeal n);
                  Graph.optional "licence" (Graph.licence n);
                  Graph.optional "apc" (Graph.hasAPC n)] n ∧ passes b)
    as (b & Hb & Hpass).
  { exists b. apply list_elem_of_filter. split; [|done].
    apply orb_prop_intro. unfold Graph.bound_eq.
    destruct Hpass as [Hpass|Hpass]; [left|right];
      by apply bool_decide_pack. }
  unfold Graph.pattern.
  apply (pattern_reaches passes
           [Graph.optional "title" (Graph.title n);
            Graph.optional "language" (Graph.language n);
            Graph.optional "publisher" (Graph.publisher n);
            Graph.optional "seal" (Graph.hasDOAJSeal n);
            Graph.optional "licence" (Graph.licence n);
            Graph.optional "apc" (Graph.hasAPC n)]
           ((Graph.start n ≫= Graph.optional "issn" (Graph.issn n))
              ≫= Graph.optional "eissn" (Graph.eissn n))).
  - repeat (constructor;
      [intros b Hb; by apply optional_keeps_either|]).
    constructor.
  - destruct Hid as [Hid|Hid].
    + destruct (optional_picks "issn" entity_id _
                  {[ "journal"%string := Graph.journal n ]} Hid)
        as (b1 & Hb1 & Hissn).
      destruct (optional_keeps_binding "issn" entity_id "eissn" (Graph.eissn n) b1
                  ltac:(done) Hissn) as (b2 & Hb2 & Hkeep).
      exists b2. split; [|by left].
      apply list_elem_of_bind. exists b1. split; [done|].
      apply list_elem_of_bind. exists {[ "journal"%string := Graph.journal n ]}.
      split; [done|]. by apply list_elem_of_singleton.
    + destruct (optional_some "issn" (Graph.issn n)
                  {[ "journal"%string := Graph.journal n ]}) as (b1 & Hb1).
      destruct (optional_picks "eissn" entity_id _ b1 Hid)
        as (b2 & Hb2 & Heissn).
      exists b2. split; [|by right].
      apply list_elem_of_bind. exists b1. split; [done|].
      apply list_elem_of_bind. exists {[ "journal"%string := Graph.journal n ]}.
      split; [done|]. by apply list_elem_of_singleton.
Qed.

(** What a solution of [getById] binds to [?issn] and [?eissn] is stored
    at the node. *)
Lemma getById_binds (n : Graph.node) (entity_id : string)
    (b : Graph.binding) :
  b ∈ Graph.solutions (Graph.ById entity_id) n →
  (∀ v, b !! "issn"%string = Some v → v ∈ Graph.issn n)
  ∧ (∀ v, b !! "eissn"%string = Some v → v ∈ Graph.eissn n).
Proof.
  cbn [Graph.solutions]. intros [_ Hb]%list_elem_of_filter.
  revert b Hb. unfold Graph.pattern.
  apply (pattern_invariant
           (λ b, (∀ v, b !! "issn"%string = Some v → v ∈ Graph.issn n)
                 ∧ (∀ v, b !! "eissn"%string = Some v → v ∈ Graph.eissn n))).
  - repeat (constructor;
      [intros b0 b' [Hissn Heissn] Hb'; split;
       [eapply (optional_binds (λ v, v ∈ Graph.issn n) "issn");
        [|exact Hissn|exact Hb']
       |eapply (optional_binds (λ v, v ∈ Graph.eissn n) "eissn");
        [|exact Heissn|exact Hb']];
       first [by intros [=] | intros _; by apply Forall_forall]|]).
    constructor.
  - intros b0 ->%list_elem_of_singleton.
    split; intros v; by rewrite lookup_singleton_ne.
Qed.

(** For an identifier that the literal of the query denotes,
    [JournalQueryHandler.getById] always answers, and its frame has a row
    exactly when the endpoint is reachable and some journal of its store
    has the identifier as an ISSN or as an EISSN. *)
Theorem getById_finds_what_is_stored (w : World) (self : QueryHandler)
    (entity_id : string) :
  unescape (_escape_literal (Some entity_id)) = Some entity_id →
  answers_with (JournalQueryHandler_getById w self entity_id)
    (λ df, df ≠ [] ↔
           ∃ store n,
             endpoint w (_dbPathOrUrl self) = Some store ∧ n ∈ store
             ∧ (entity_id ∈ Graph.issn n ∨ entity_id ∈ Graph.eissn n)).
Proof.
  intros _ tr. eexists _, _. split; [apply _execute_sparql_query_eq|].
  unfold sparql_answer.
  destruct (endpoint w (_dbPathOrUrl self)) as [store|]; cycle 1.
  { split; [done|]. by intros (? & ? & [=] & _). }
  split.
  - intros Hrows.
    destruct (Graph.to_frame (Graph.eval store (Graph.ById entity_id)))
      as [|row rows] eqn:Hframe; [done|].
    assert (row ∈ Graph.to_frame (Graph.eval store (Graph.ById entity_id)))
      as Hrow by (rewrite Hframe; by left).
    apply frame_row in Hrow as (n & b & Hn & Hb & _).
    exists store, n. split_and!; [done..|].
    destruct (getById_binds _ _ _ Hb) as [Hissn Heissn].
    cbn [Graph.solutions] in Hb. apply list_elem_of_filter in Hb as [Hf _].
    apply orb_prop_elim in Hf as [Hf|Hf]; apply bool_decide_unpack in Hf;
      auto.
  - intros (store' & n & [= <-] & Hn & Hid).
    destruct (getById_solution n entity_id Hid) as (b & Hb).
    unfold Graph.to_frame, Graph.eval. cbn [Graph.ordered]. cbv zeta.
    intros Hnil. apply fmap_nil_inv, fmap_nil_inv in Hnil.
    assert (b ∈ store ≫= Graph.solutions (Graph.ById entity_id)) as Hin
      by (apply list_elem_of_bind; eauto).
    rewrite Hnil in Hin. by apply elem_of_nil in Hin.
Qed.

(** ** Categories and areas of an uploaded file *)

Lemma eq_cells_Some (a b : Sql.cell) :
  Sql.eq_cells a b = true ↔ ∃ x, a = Some x ∧ b = Some x.
Proof.
  unfold Sql.eq_cells. destruct a as [x|], b as [y|]; simpl.
  - rewrite bool_decide_eq_true. split; [intros ->; eauto|].
    by intros (? & [= ->] & [= ->]).
  - split; [done|]. by intros (? & _ & [=]).
  - split; [done|]. by intros (? & [=] & _).
  - split; [done|]. by intros (? & [=] & _).
Qed.

Lemma in_params_elem (a : Sql.cell) (ps : list string) :
  Sql.in_params a ps = true ↔ ∃ p, p ∈ ps ∧ a = Some p.
Proof.
  unfold Sql.in_params. rewrite existsb_exists. split.
  - intros (p & Hp%list_elem_of_In & Ha%bool_decide_eq_true). eauto.
  - intros (p & Hp & ->). exists p. split; [by apply list_elem_of_In|].
    by apply bool_decide_eq_true.
Qed.

Lemma distinct_by_id_elem {A : Type} `{EqDecision A} (key : A → Sql.cell)
    (rows : list A) (r : A) :
  r ∈ Sql.distinct_by_id key rows ↔ r ∈ rows.
Proof.
  unfold Sql.distinct_by_id.
  by rewrite sorted_by_Permutation, elem_of_remove_dups.
Qed.

Lemma cell_value_VStr (a : Sql.cell) (c : string) :
  Sql.cell_value a = VStr c ↔ a = Some c.
Proof. destruct a; simpl; split; congruence. Qed.

(** The categories that the join of [getCategoriesAssignedToAreas] finds
    in a database. *)
Lemma categories_assigned (d : Sql.db) (area_ids : list string) (c : string) :
  (∃ row, row ∈ Sql.eval d (Sql.CategoriesAssignedToAreas area_ids)
          ∧ shows row "id" c)
  ↔ (∃ r, r ∈ Sql.categories d ∧ Sql.c_id r = Some c)
    ∧ ∃ a i,
        a ∈ area_ids
        ∧ Some i ∈ Sql.jc_issn <$>
                     filter (λ jc, Sql.eq_param (Sql.jc_category_id jc) c)
                       (Sql.journal_categories d)
        ∧ Some i ∈ Sql.ja_issn <$>
                     filter (λ ja, Sql.eq_param (Sql.ja_area_id ja) a)
                       (Sql.journal_areas d).
Proof.
  cbn [Sql.eval]. unfold shows. split.
  - intros (row & (r & -> & Hr)%list_elem_of_fmap & Hid).
    apply distinct_by_id_elem in Hr.
    unfold Sql.category_row, row_get in Hid.
    rewrite lookup_insert_eq in Hid. apply cell_value_VStr in Hid.
    apply list_elem_of_bind in Hr as (r0 & Hr & Hr0).
    apply list_elem_of_bind in Hr as (jc & Hr & Hjc).
    apply list_elem_of_filter in Hjc as [Hjc_c Hjc].
    apply list_elem_of_bind in Hr as (ja & Hr & Hja).
    apply list_elem_of_filter in Hja as [Hja_i Hja].
    destruct (Sql.in_params (Sql.ja_area_id ja) area_ids) eqn:Hin;
      [|by apply elem_of_nil in Hr].
    apply list_elem_of_singleton in Hr as ->.
    apply Is_true_true, eq_cells_Some in Hjc_c as (c' & Hc & Hc').
    apply Is_true_true, eq_cells_Some in Hja_i as (i & Hi & Hi').
    apply in_params_elem in Hin as (a & Ha & Ha').
    rewrite Hid in Hc. injection Hc as <-.
    split; [by eauto|]. exists a, i. split_and!; [done|..].
    + apply list_elem_of_fmap. exists jc. split; [done|].
      apply list_elem_of_filter. split; [|done].
      by apply bool_decide_pack.
    + apply list_elem_of_fmap. exists ja. split; [done|].
      apply list_elem_of_filter. split; [|done].
      by apply bool_decide_pack.
  - intros ((r & Hr & Hid) & a & i & Ha & Hjc & Hja).
    apply list_elem_of_fmap in Hjc as (jc & Hi & Hjc).
    apply list_elem_of_filter in Hjc as [Hjc_c%bool_decide_unpack Hjc].
    apply list_elem_of_fmap in Hja as (ja & Hi' & Hja).
    apply list_elem_of_filter in Hja as [Hja_a%bool_decide_unpack Hja].
    exists (Sql.category_row r). split.
    + apply list_elem_of_fmap. exists r. split; [done|].
      apply distinct_by_id_elem.
      apply list_elem_of_bind. exists r. split; [|done].
      apply list_elem_of_bind. exists jc. split.
      * apply list_elem_of_bind. exists ja. split.
        -- replace (Sql.in_params _ _) with true; [by left|].
           symmetry. apply in_params_elem. eauto.
        -- apply list_elem_of_filter. split; [|done].
           apply Is_true_true, eq_cells_Some. eauto.
      * apply list_elem_of_filter. split; [|done].
        apply Is_true_true, eq_cells_Some. eauto.
    + unfold Sql.category_row, row_get. rewrite lookup_insert_eq.
      by apply cell_value_VStr.
Qed.

(** The areas that the join of [getAreasAssignedToCategories] finds in a
    database. *)
Lemma areas_assigned (d : Sql.db) (category_ids : list string) (a : string) :
  (∃ row, row ∈ Sql.eval d (Sql.AreasAssignedToCategories category_ids)
          ∧ shows row "id" a)
  ↔ Some a ∈ Sql.areas d
    ∧ ∃ c i,
        c ∈ category_ids
        ∧ Some i ∈ Sql.jc_issn <$>
                     filter (λ jc, Sql.eq_param (Sql.jc_category_id jc) c)
                       (Sql.journal_categories d)
        ∧ Some i ∈ Sql.ja_issn <$>
                     filter (λ ja, Sql.eq_param (Sql.ja_area_id ja) a)
                       (Sql.journal_areas d).
Proof.
  cbn [Sql.eval]. unfold shows. split.
  - intros (row & (r & -> & Hr)%list_elem_of_fmap & Hid).
    apply distinct_by_id_elem in Hr.
    unfold Sql.area_row, row_get in Hid.
    rewrite lookup_singleton_eq in Hid. apply cell_value_VStr in Hid.
    apply list_elem_of_bind in Hr as (r0 & Hr & Hr0).
    apply list_elem_of_bind in Hr as (ja & Hr & Hja).
    apply list_elem_of_filter in Hja as [Hja_a Hja].
    apply list_elem_of_bind in Hr as (jc & Hr & Hjc).
    apply list_elem_of_filter in Hjc as [Hjc_i Hjc].
    destruct (Sql.in_params (Sql.jc_category_id jc) category_ids) eqn:Hin;
      [|by apply elem_of_nil in Hr].
    apply list_elem_of_singleton in Hr as ->.
    apply Is_true_true, eq_cells_Some in Hja_a as (a' & Ha & Ha').
    apply Is_true_true, eq_cells_Some in Hjc_i as (i & Hi & Hi').
    apply in_params_elem in Hin as (c & Hc & Hc').
    rewrite Hid in Ha. injection Ha as <-.
    split; [by rewrite <- Hid|]. exists c, i. split_and!; [done|..].
    + apply list_elem_of_fmap. exists jc. split; [done|].
      apply list_elem_of_filter. split; [|done].
      by apply bool_decide_pack.
    + apply list_elem_of_fmap. exists ja. split; [done|].
      apply list_elem_of_filter. split; [|done].
      by apply bool_decide_pack.
  - intros (Hr & c & i & Hc & Hjc & Hja).
    apply list_elem_of_fmap in Hjc as (jc & Hi & Hjc).
    apply list_elem_of_filter in Hjc as [Hjc_c%bool_decide_unpack Hjc].
    apply list_elem_of_fmap in Hja as (ja & Hi' & Hja).
    apply list_elem_of_filter in Hja as [Hja_a%bool_decide_unpack Hja].
    exists (Sql.area_row (Some a)). split.
    + apply list_elem_of_fmap. exists (Some a). split; [done|].
      apply distinct_by_id_elem.
      apply list_elem_of_bind. exists (Some a). split; [|done].
      apply list_elem_of_bind. exists ja. split.
      * apply list_elem_of_bind. exists jc. split.
        -- replace (Sql.in_params _ _) with true; [by left|].
           symmetry. apply in_params_elem. eauto.
        -- apply list_elem_of_filter. split; [|done].
           apply Is_true_true, eq_cells_Some. exists i. split; congruence.
      * apply list_elem_of_filter. split; [|done].
        apply Is_true_true, eq_cells_Some. eauto.
    + unfold Sql.area_row, row_get. by rewrite lookup_singleton_eq.
Qed.

Lemma listed_category_is_uploaded (scimago_data : list Scimago.entry)
    (c : string) (i : Sql.cell) :
  i ∈ uploaded_under_category scimago_data c →
  ∃ r, r ∈ uploaded_categories scimago_data ∧ Sql.c_id r = Some c.
Proof.
  unfold uploaded_under_category, uploaded_categories.
  rewrite elem_of_list_to_set.
  intros (entry & Hi & Hentry)%list_elem_of_bind.
  case_bool_decide as Hc; [|by apply elem_of_nil in Hi].
  apply list_elem_of_fmap in Hc as (x & Hx & Hin).
  exists (Sql.mk_category (Scimago.id x) (Scimago.quartile x)).
  split; [|done]. apply list_elem_of_bind. exists entry. split; [|done].
  apply list_elem_of_fmap. eauto.
Qed.

Lemma listed_area_is_uploaded (scimago_data : list Scimago.entry)
    (a : string) (i : Sql.cell) :
  i ∈ uploaded_under_area scimago_data a →
  Some a ∈ scimago_data ≫= Scimago.areas.
Proof.
  unfold uploaded_under_area. rewrite elem_of_list_to_set.
  intros (entry & Hi & Hentry)%list_elem_of_bind.
  case_bool_decide as Ha; [|by apply elem_of_nil in Hi].
  apply list_elem_of_bind. eauto.
Qed.

(** A key that a loop of [INSERT OR IGNORE] offers to an empty table is in
    the table afterwards. *)
Lemma offered_key_is_stored {A : Type} (key : A → Sql.cell) (c : string)
    (rows : list A) (r : A) :
  r ∈ rows → key r = Some c →
  ∃ r', r' ∈ foldl (λ t r, Sql.insert_or_ignore
                             (λ a b, Sql.eq_cells (key a) (key b)) r t)
                 [] rows
        ∧ key r' = Some c.
Proof.
  intros Hr Hkey.
  pose proof (first_insert_wins key c rows []) as Hfirst.
  rewrite filter_nil in Hfirst.
  destruct (filter (λ r, Sql.eq_param (key r) c) rows) as [|r' rs] eqn:Hf.
  { assert (r ∈ filter (λ r, Sql.eq_param (key r) c) rows) as Hin.
    { apply list_elem_of_filter. split; [|done]. by apply bool_decide_pack. }
    rewrite Hf in Hin. by apply elem_of_nil in Hin. }
  cbn [head option_list] in Hfirst.
  assert (r' ∈ filter (λ r, Sql.eq_param (key r) c)
                 (foldl (λ t r, Sql.insert_or_ignore
                                  (λ a b, Sql.eq_cells (key a) (key b)) r t)
                    [] rows)) as Hin
    by (rewrite Hfirst; by left).
  apply list_elem_of_filter in Hin as [Hk%bool_decide_unpack Hin]. eauto.
Qed.



Lemma getById_finds_what_is_stored_witness :
  answers_with (JournalQueryHandler_getById Ex.world_1 Ex.graph_handler "1111")
    (λ df, df ≠ [] ↔
           ∃ store n,
             endpoint Ex.world_1 (_dbPathOrUrl Ex.graph_handler) = Some store
             ∧ n ∈ store
             ∧ ("1111"%string ∈ Graph.issn n
                ∨ "1111"%string ∈ Graph.eissn n)).
Proof.
  apply (getById_finds_what_is_stored Ex.world_1 Ex.graph_handler "1111").
  reflexivity.
Defined.
